(** * VLC_TUI_Light: the SQLite data-access layer [vlc_db.py]

    A shallow embedding of class [VlcDatabase] (version 1.2.0, [src/vlc_db.py])
    and of the schema and writers of the released version 1.0.0
    ([src/RELIS/vlc_db_RELIS.py]), followed by the properties of the
    specification that are decided by that code, and by further properties of
    the readers, the writers, the migration and the command line.

    Modelling choices.
    - The database file is a finite map from table names to tables.  A table
      carries its column declarations (name, DEFAULT, NOT NULL), its primary key
      and its rows in rowid order.  No statement of the program deletes a row,
      so rowid order is insertion order and a new row goes to the end.
    - A row is a finite map from column names to SQL values; a value is NULL, an
      integer or a text.  Python [None] is bound as NULL, [int] as an integer
      and [str] as a text.  SQLite's integers have 64 bits: for a Python [int]
      outside that range the binding raises [OverflowError] before the engine
      runs the statement.
    - Every SQL statement of the source is one function in the monad [Sql],
      which threads the database and may raise an [exception].  The exceptions
      modelled are the ones the statements of this program can meet: a missing
      table or column and a conflict target that names no key
      ([OperationalError], raised when the statement is prepared), an integer
      that cannot be bound ([OverflowError], raised when the parameters are
      bound), and a NOT NULL or PRIMARY KEY violation ([IntegrityError],
      raised when the statement runs).  The first and the last are
      [sqlite3.Error]s, which the methods catch; [OverflowError] is none, and
      leaves the method as an exception.  A statement that raises leaves the
      database as it was.
    - [commit] has no effect on the model: there is one connection, every
      method runs at most one data-changing statement, and the context manager
      commits on exit. *)

From Stdlib Require Import Ascii String.
From stdpp Require Import gmap strings list fin_maps pretty.

(** ** SQL values *)

Inductive value : Type :=
  | VNull
  | VInt (n : Z)
  | VText (s : string).

#[global] Instance value_eq_dec : EqDecision value.
Proof. solve_decision. Defined.

#[global] Instance value_inhabited : Inhabited value := populate VNull.

(** [a = b] in a WHERE clause: NULL compares equal to nothing. *)
Definition sql_eq (a b : value) : bool :=
  match a, b with
  | VNull, _ | _, VNull => false
  | _, _ => bool_decide (a = b)
  end.

(** [a != b] in a WHERE clause: NULL differs from nothing either. *)
Definition sql_ne (a b : value) : bool :=
  match a, b with
  | VNull, _ | _, VNull => false
  | _, _ => bool_decide (a ≠ b)
  end.

(** [COALESCE(v, d)]. *)
Definition coalesce (v d : value) : value :=
  match v with
  | VNull => d
  | _ => v
  end.

(** The larger of two values in SQLite's ordering of storage classes: NULL is
    skipped by the aggregate, integers come before texts, texts are compared
    bytewise. *)
Definition value_max (a b : value) : value :=
  match a, b with
  | VNull, _ => b
  | _, VNull => a
  | VInt x, VInt y => VInt (Z.max x y)
  | VInt _, VText _ => b
  | VText _, VInt _ => a
  | VText x, VText y => if String.leb x y then b else a
  end.

(** [MAX(...)] over the values of a group; NULL for a group without a
    non-NULL value. *)
Definition sql_max (vs : list value) : value := foldr value_max VNull vs.

(** Binding of optional Python arguments. *)
Definition opt_text (o : option string) : value :=
  match o with
  | Some s => VText s
  | None => VNull
  end.

Definition opt_int (o : option Z) : value :=
  match o with
  | Some n => VInt n
  | None => VNull
  end.

(** ** Tables *)

Record column : Type := Column {
  col_name : string;
  col_default : value;
  col_notnull : bool
}.

Record table : Type := Table {
  tbl_columns : list column;
  tbl_pkey : list string;
  tbl_rows : list (gmap string value)
}.

#[global] Instance column_eq_dec : EqDecision column.
Proof. solve_decision. Defined.

#[global] Instance table_eq_dec : EqDecision table.
Proof. solve_decision. Defined.

Definition column_names (t : table) : list string := col_name <$> tbl_columns t.

Definition has_column (t : table) (c : string) : bool :=
  bool_decide (c ∈ column_names t).

Definition has_columns (t : table) (cs : list string) : bool :=
  forallb (has_column t) cs.

(** [SET c1 = v1, c2 = v2, ...] applied to one row. *)
Definition assign (sets : list (string * value)) (r : gmap string value)
  : gmap string value :=
  foldr (λ cv acc, <[cv.1 := cv.2]> acc) r sets.

(** The row in which every column holds its declared DEFAULT. *)
Definition default_row (t : table) : gmap string value :=
  foldr (λ c acc, <[col_name c := col_default c]> acc) ∅ (tbl_columns t).

(** The row built by [INSERT INTO t (c1, ...) VALUES (v1, ...)]. *)
Definition new_row (t : table) (vals : list (string * value))
  : gmap string value :=
  assign vals (default_row t).

Definition not_null_ok (t : table) (r : gmap string value) : bool :=
  forallb (λ c, negb (col_notnull c) || negb (bool_decide (r !!! col_name c = VNull)))
          (tbl_columns t).

(** Two rows collide on the primary key [pk].  Every table of this program
    declares a primary key. *)
Definition key_match (pk : list string) (r1 r2 : gmap string value) : bool :=
  forallb (λ k, sql_eq (r1 !!! k) (r2 !!! k)) pk.

(** [WHERE c1 = v1 AND c2 = v2 ...]. *)
Definition row_matches (cond : list (string * value)) (r : gmap string value)
  : bool :=
  forallb (λ cv, sql_eq (r !!! cv.1) cv.2) cond.

Definition update_rows (sets cond : list (string * value))
  (rows : list (gmap string value)) : list (gmap string value) :=
  (λ r, if row_matches cond r then assign sets r else r) <$> rows.

Definition upsert_rows (pk : list string) (r : gmap string value)
  (sets : list (string * value)) (rows : list (gmap string value))
  : list (gmap string value) :=
  if existsb (key_match pk r) rows
  then (λ r0, if key_match pk r r0 then assign sets r0 else r0) <$> rows
  else rows ++ [r].

(** ** The statement monad *)

Inductive exception : Type :=
  | OperationalError
  | IntegrityError
  | OverflowError.

(** [isinstance(e, sqlite3.Error)]. *)
Definition sqlite3_Error (e : exception) : bool :=
  match e with
  | OperationalError | IntegrityError => true
  | OverflowError => false
  end.

Inductive outcome (A : Type) : Type :=
  | Ok (a : A)
  | Raise (e : exception).
Arguments Ok {A} a.
Arguments Raise {A} e.

Definition Sql (A : Type) : Type :=
  gmap string table → outcome A * gmap string table.

#[global] Instance Sql_ret : MRet Sql := λ A a db, (Ok a, db).

#[global] Instance Sql_bind : MBind Sql := λ A B f m db,
  match m db with
  | (Ok a, db') => f a db'
  | (Raise e, db') => (Raise e, db')
  end.

Definition raise {A : Type} (e : exception) : Sql A := λ db, (Raise e, db).

(** [try: body except sqlite3.Error as e: handler]; an exception of another
    class propagates. *)
Definition try_except {A : Type} (body : Sql A) (handler : exception → Sql A)
  : Sql A := λ db,
  match body db with
  | (Ok a, db') => (Ok a, db')
  | (Raise e, db') => if sqlite3_Error e then handler e db' else (Raise e, db')
  end.

(** [try: body except sqlite3.OperationalError: handler]; any other exception
    propagates. *)
Definition try_except_operational {A : Type} (body handler : Sql A) : Sql A :=
  λ db,
  match body db with
  | (Ok a, db') => (Ok a, db')
  | (Raise OperationalError, db') => handler db'
  | (Raise e, db') => (Raise e, db')
  end.

Definition commit : Sql unit := mret ().

(** ** Binding of parameters

    [cursor.execute(sql, params)] prepares the statement, binds the parameters
    and runs it.  A Python [int] is bound as a signed 64-bit integer; for an
    [int] outside that range the binding raises [OverflowError], after the
    statement was prepared and before it runs. *)
Definition int64 (n : Z) : bool := (- 2 ^ 63 <=? n)%Z && (n <? 2 ^ 63)%Z.
#[global] Arguments int64 : simpl never.

Definition bindable (v : value) : bool :=
  match v with
  | VInt n => int64 n
  | _ => true
  end.

(** An optional integer argument that is [None] or can be bound. *)
Definition opt_int64 (o : option Z) : bool := bindable (opt_int o).

(** ** Statements *)

(** [CREATE TABLE IF NOT EXISTS name (cols, PRIMARY KEY pk)]. *)
Definition create_table_if_not_exists (name : string) (cols : list column)
  (pk : list string) : Sql unit := λ db,
  match db !! name with
  | Some _ => (Ok (), db)
  | None => (Ok (), <[name := Table cols pk []]> db)
  end.

(** [SELECT col FROM name LIMIT 1]. *)
Definition select_limit_1 (col name : string) : Sql (list value) := λ db,
  match db !! name with
  | None => (Raise OperationalError, db)
  | Some t =>
      if has_column t col
      then (Ok ((λ r, r !!! col) <$> take 1 (tbl_rows t)), db)
      else (Raise OperationalError, db)
  end.

(** [ALTER TABLE name ADD COLUMN c]: the rows already stored read the
    DEFAULT of the new column. *)
Definition alter_table_add_column (name : string) (c : column) : Sql unit :=
  λ db,
  match db !! name with
  | None => (Raise OperationalError, db)
  | Some t =>
      if has_column t (col_name c)
      then (Raise OperationalError, db)
      else (Ok (), <[name := Table (tbl_columns t ++ [c]) (tbl_pkey t)
                              (insert (col_name c) (col_default c) <$> tbl_rows t)]> db)
  end.

(** [INSERT INTO name (c1, ...) VALUES (v1, ...)]. *)
Definition insert_into (name : string) (vals : list (string * value))
  : Sql unit := λ db,
  match db !! name with
  | None => (Raise OperationalError, db)
  | Some t =>
      if negb (has_columns t vals.*1) then (Raise OperationalError, db)
      else if negb (forallb bindable vals.*2) then (Raise OverflowError, db)
      else
        let r := new_row t vals in
        if negb (not_null_ok t r) then (Raise IntegrityError, db)
        else if existsb (key_match (tbl_pkey t) r) (tbl_rows t)
        then (Raise IntegrityError, db)
        else (Ok (), <[name := Table (tbl_columns t) (tbl_pkey t)
                                (tbl_rows t ++ [r])]> db)
  end.

(** [INSERT INTO name (c1, ...) VALUES (v1, ...)
     ON CONFLICT(target) DO UPDATE SET sets].  The conflict target has to name
    a uniqueness constraint of the table, here its primary key.  The SET lists
    of this program assign neither a key column nor a NOT NULL column. *)
Definition insert_on_conflict_do_update (name : string)
  (vals : list (string * value)) (target : list string)
  (sets : list (string * value)) : Sql unit := λ db,
  match db !! name with
  | None => (Raise OperationalError, db)
  | Some t =>
      if negb (has_columns t vals.*1 && has_columns t sets.*1
               && bool_decide (target = tbl_pkey t))
      then (Raise OperationalError, db)
      else if negb (forallb bindable (vals.*2 ++ sets.*2))
      then (Raise OverflowError, db)
      else
        let r := new_row t vals in
        if negb (not_null_ok t r) then (Raise IntegrityError, db)
        else (Ok (), <[name := Table (tbl_columns t) (tbl_pkey t)
                                (upsert_rows (tbl_pkey t) r sets (tbl_rows t))]> db)
  end.

(** [UPDATE name SET sets WHERE cond]. *)
Definition update_set_where (name : string) (sets cond : list (string * value))
  : Sql unit := λ db,
  match db !! name with
  | None => (Raise OperationalError, db)
  | Some t =>
      if negb (has_columns t sets.*1 && has_columns t cond.*1)
      then (Raise OperationalError, db)
      else if negb (forallb bindable (sets.*2 ++ cond.*2))
      then (Raise OverflowError, db)
      else (Ok (), <[name := Table (tbl_columns t) (tbl_pkey t)
                              (update_rows sets cond (tbl_rows t))]> db)
  end.

(** [SELECT cols FROM name WHERE cond]; the rows come back whole, in rowid
    order, and the caller reads the selected columns.  The queries of this
    program bind texts only. *)
Definition select_where (cols : list string) (name : string)
  (cond : list (string * value)) : Sql (list (gmap string value)) := λ db,
  match db !! name with
  | None => (Raise OperationalError, db)
  | Some t =>
      if negb (has_columns t cols && has_columns t cond.*1)
      then (Raise OperationalError, db)
      else (Ok (filter (λ r, row_matches cond r = true) (tbl_rows t)), db)
  end.

(** [SELECT cols FROM name WHERE col IN (v1, ...)].  The rows are given in
    rowid order; the engine may choose another one, which the results on
    [get_playback_batch] below do not depend on. *)
Definition select_where_in (cols : list string) (name col : string)
  (vs : list value) : Sql (list (gmap string value)) := λ db,
  match db !! name with
  | None => (Raise OperationalError, db)
  | Some t =>
      if negb (has_columns t cols && has_column t col)
      then (Raise OperationalError, db)
      else (Ok (filter (λ r, existsb (sql_eq (r !!! col)) vs = true) (tbl_rows t)), db)
  end.

(** [cursor.fetchone()]. *)
Definition fetchone {A : Type} (rows : list A) : option A := head rows.

(** ** Class [VlcDatabase], version 1.2.0 *)

Definition playback_columns : list column :=
  [ Column "filename" VNull false;
    Column "position" VNull false;
    Column "duration" VNull false;
    Column "percent" VNull false;
    Column "status" VNull false;
    Column "series_prefix" VNull false;
    Column "series_suffix" VNull false;
    Column "description" VNull false;
    Column "outro_triggered" (VInt 0) false ].

Definition series_settings_columns : list column :=
  [ Column "series_prefix" VNull true;
    Column "series_suffix" VNull true;
    Column "autoplay" (VInt 0) false;
    Column "skip_intro" (VInt 0) false;
    Column "skip_outro" (VInt 0) false;
    Column "intro_start" VNull false;
    Column "intro_end" VNull false;
    Column "credits_duration" VNull false;
    Column "description" VNull false ].

Definition init_db : Sql bool :=
  try_except
    (create_table_if_not_exists "playback" playback_columns ["filename"];;
     try_except_operational
       (select_limit_1 "outro_triggered" "playback";; mret ())
       (alter_table_add_column "playback"
          (Column "outro_triggered" (VInt 0) false));;
     create_table_if_not_exists "series_settings" series_settings_columns
       ["series_prefix"; "series_suffix"];;
     try_except_operational
       (select_limit_1 "credits_duration" "series_settings";; mret ())
       (try_except_operational
          (select_limit_1 "outro_start" "series_settings";;
           alter_table_add_column "series_settings"
             (Column "credits_duration" VNull false))
          (alter_table_add_column "series_settings"
             (Column "credits_duration" VNull false)));;
     commit;;
     mret true)
    (λ _, mret false).

Definition _calculate_status (percent : Z) : option string :=
  if (90 <=? percent)%Z then Some "watched"
  else if (1 <=? percent)%Z then Some "partial"
  else None.

Definition save_playback (filename : string) (position duration percent : Z)
  (series_prefix series_suffix : option string) : Sql bool :=
  try_except
    (let status := _calculate_status percent in
     insert_on_conflict_do_update "playback"
       [ ("filename", VText filename); ("position", VInt position);
         ("duration", VInt duration); ("percent", VInt percent);
         ("status", opt_text status);
         ("series_prefix", opt_text series_prefix);
         ("series_suffix", opt_text series_suffix) ]
       ["filename"]
       [ ("position", VInt position); ("duration", VInt duration);
         ("percent", VInt percent); ("status", opt_text status);
         ("series_prefix", opt_text series_prefix);
         ("series_suffix", opt_text series_suffix) ];;
     commit;;
     mret true)
    (λ _, mret false).

(** The value returned is [result[0]], which is Python [None] when the stored
    column is NULL. *)
Definition get_playback_percent (filename : string) : Sql value :=
  try_except
    (rows ← select_where ["percent"] "playback" [("filename", VText filename)];
     match fetchone rows with
     | Some result => mret (result !!! "percent")
     | None => mret (VInt 0)
     end)
    (λ _, mret (VInt 0)).

Definition get_playback_status (filename : string) : Sql value :=
  try_except
    (rows ← select_where ["status"] "playback" [("filename", VText filename)];
     match fetchone rows with
     | Some result => mret (result !!! "status")
     | None => mret VNull
     end)
    (λ _, mret VNull).

Definition get_outro_triggered (filename : string) : Sql value :=
  try_except
    (rows ← select_where ["outro_triggered"] "playback"
              [("filename", VText filename)];
     match fetchone rows with
     | Some result => mret (result !!! "outro_triggered")
     | None => mret (VInt 0)
     end)
    (λ _, mret (VInt 0)).

Definition set_outro_triggered (filename : string) (triggered : Z) : Sql bool :=
  try_except
    (insert_on_conflict_do_update "playback"
       [ ("filename", VText filename); ("outro_triggered", VInt triggered) ]
       ["filename"]
       [ ("outro_triggered", VInt triggered) ];;
     commit;;
     mret true)
    (λ _, mret false).

Definition series_settings_exist (series_prefix series_suffix : string)
  : Sql bool :=
  try_except
    (rows ← select_where [] "series_settings"
              [ ("series_prefix", VText series_prefix);
                ("series_suffix", VText series_suffix) ];
     mret (bool_decide (0 < length rows)))
    (λ _, mret false).

Definition get_credits_duration (series_prefix series_suffix : string)
  : Sql value :=
  try_except
    (rows ← select_where ["credits_duration"] "series_settings"
              [ ("series_prefix", VText series_prefix);
                ("series_suffix", VText series_suffix) ];
     match fetchone rows with
     | Some result => mret (result !!! "credits_duration")
     | None => mret VNull
     end)
    (λ _, mret VNull).

Definition set_credits_duration (series_prefix series_suffix : string)
  (duration : Z) : Sql bool :=
  try_except
    (if (duration <? 0)%Z then mret false
     else
       exist ← series_settings_exist series_prefix series_suffix;
       (if negb exist
        then insert_into "series_settings"
               [ ("series_prefix", VText series_prefix);
                 ("series_suffix", VText series_suffix);
                 ("autoplay", VInt 0); ("skip_intro", VInt 0);
                 ("skip_outro", VInt 0); ("credits_duration", VInt duration) ]
        else update_set_where "series_settings"
               [ ("credits_duration", VInt duration) ]
               [ ("series_prefix", VText series_prefix);
                 ("series_suffix", VText series_suffix) ]);;
       commit;;
       mret true)
    (λ _, mret false).

(** [autoplay], [skip_intro] and [skip_outro] are bound as the integers the
    command line passes. *)
Definition save_series_settings (series_prefix series_suffix : string)
  (autoplay skip_intro skip_outro : Z)
  (intro_start intro_end credits_duration : option Z) : Sql bool :=
  try_except
    (insert_on_conflict_do_update "series_settings"
       [ ("series_prefix", VText series_prefix);
         ("series_suffix", VText series_suffix);
         ("autoplay", VInt autoplay); ("skip_intro", VInt skip_intro);
         ("skip_outro", VInt skip_outro);
         ("intro_start", opt_int intro_start);
         ("intro_end", opt_int intro_end);
         ("credits_duration", opt_int credits_duration) ]
       ["series_prefix"; "series_suffix"]
       [ ("autoplay", VInt autoplay); ("skip_intro", VInt skip_intro);
         ("skip_outro", VInt skip_outro);
         ("intro_start", opt_int intro_start);
         ("intro_end", opt_int intro_end);
         ("credits_duration", opt_int credits_duration) ];;
     commit;;
     mret true)
    (λ _, mret false).

(** The dictionary returned, as the triple of its three entries; [None] when
    no row matches. *)
Definition get_skip_markers (series_prefix series_suffix : string)
  : Sql (option (value * value * value)) :=
  try_except
    (rows ← select_where ["intro_start"; "intro_end"; "credits_duration"]
              "series_settings"
              [ ("series_prefix", VText series_prefix);
                ("series_suffix", VText series_suffix) ];
     match fetchone rows with
     | Some result =>
         mret (Some (result !!! "intro_start", result !!! "intro_end",
                     result !!! "credits_duration"))
     | None => mret None
     end)
    (λ _, mret None).

Definition set_intro_markers (series_prefix series_suffix : string)
  (start end_ : Z) : Sql bool :=
  try_except
    (if (start <? 0)%Z || (end_ <? 0)%Z then mret false
     else if (end_ <=? start)%Z then mret false
     else
       exist ← series_settings_exist series_prefix series_suffix;
       (if negb exist
        then insert_into "series_settings"
               [ ("series_prefix", VText series_prefix);
                 ("series_suffix", VText series_suffix);
                 ("autoplay", VInt 0); ("skip_intro", VInt 0);
                 ("skip_outro", VInt 0);
                 ("intro_start", VInt start); ("intro_end", VInt end_) ]
        else update_set_where "series_settings"
               [ ("intro_start", VInt start); ("intro_end", VInt end_) ]
               [ ("series_prefix", VText series_prefix);
                 ("series_suffix", VText series_suffix) ]);;
       commit;;
       mret true)
    (λ _, mret false).

Definition set_outro_marker (series_prefix series_suffix : string) (start : Z)
  : Sql bool :=
  try_except
    (if (start <? 0)%Z then mret false
     else
       exist ← series_settings_exist series_prefix series_suffix;
       (if negb exist
        then insert_into "series_settings"
               [ ("series_prefix", VText series_prefix);
                 ("series_suffix", VText series_suffix);
                 ("autoplay", VInt 0); ("skip_intro", VInt 0);
                 ("skip_outro", VInt 0); ("outro_start", VInt start) ]
        else update_set_where "series_settings"
               [ ("outro_start", VInt start) ]
               [ ("series_prefix", VText series_prefix);
                 ("series_suffix", VText series_suffix) ]);;
       commit;;
       mret true)
    (λ _, mret false).

Definition clear_skip_markers (series_prefix series_suffix marker_type : string)
  : Sql bool :=
  let key := [ ("series_prefix", VText series_prefix);
               ("series_suffix", VText series_suffix) ] in
  try_except
    (if bool_decide (marker_type = "intro")
     then update_set_where "series_settings"
            [ ("intro_start", VNull); ("intro_end", VNull) ] key;;
          commit;; mret true
     else if bool_decide (marker_type = "outro")
     then update_set_where "series_settings" [ ("outro_start", VNull) ] key;;
          commit;; mret true
     else if bool_decide (marker_type = "all")
     then update_set_where "series_settings"
            [ ("intro_start", VNull); ("intro_end", VNull);
              ("outro_start", VNull) ] key;;
          commit;; mret true
     else mret false)
    (λ _, mret false).

(** [s.split(sep)] for a one-character separator: the pieces between the
    occurrences of [sep], empty pieces included; never the empty list. *)
Fixpoint split (sep : Ascii.ascii) (s : string) : list string :=
  match s with
  | EmptyString => [EmptyString]
  | String c s' =>
      if Ascii.eqb c sep then EmptyString :: split sep s'
      else match split sep s' with
           | [] => [String c EmptyString]
           | w :: ws => String c w :: ws
           end
  end.

(** [full_path.split('/')[-1]]. *)
Definition basename (full_path : string) : string :=
  default EmptyString (last (split "/"%char full_path)).

(** The Python string of a column selected by [filename IN (texts)]: such a
    column holds a text. *)
Definition text_of (v : value) : string :=
  match v with
  | VText s => s
  | _ => EmptyString
  end.

Definition get_playback_batch (directory : string) (filenames : list string)
  : Sql (gmap string value) :=
  if bool_decide (filenames = []) then mret ∅
  else
    try_except
      (let full_paths :=
         (λ filename, directory +:+ "/" +:+ filename) <$> filenames in
       rows ← select_where_in ["filename"; "percent"] "playback" "filename"
                (VText <$> full_paths);
       let result :=
         foldl (λ result r,
                  <[basename (text_of (r !!! "filename")) := r !!! "percent"]> result)
               ∅ rows in
       mret (foldl (λ result filename,
                      match result !! filename with
                      | Some _ => result
                      | None => <[filename := VInt 0]> result
                      end)
                   result filenames))
      (λ _, mret (foldl (λ result filename, <[filename := VInt 0]> result)
                        ∅ filenames)).

(** [SELECT DISTINCT]: the first occurrence of every row, in scan order. *)
Fixpoint distinct {A : Type} `{EqDecision A} (l : list A) : list A :=
  match l with
  | [] => []
  | x :: l' => x :: filter (λ y, y ≠ x) (distinct l')
  end.

(** The correlated condition of the two sub-selects of [find_other_versions]:
    [p.series_prefix = p1.series_prefix AND
     COALESCE(p.series_suffix, '') = COALESCE(p1.series_suffix, '')]. *)
Definition same_version (p1 p : gmap string value) : bool :=
  sql_eq (p !!! "series_prefix") (p1 !!! "series_prefix")
  && sql_eq (coalesce (p !!! "series_suffix") (VText ""))
            (coalesce (p1 !!! "series_suffix") (VText "")).

(** [(SELECT filename FROM playback p2 WHERE ... ORDER BY rowid DESC LIMIT 1)]:
    NULL when no row qualifies. *)
Definition last_filename (rows : list (gmap string value))
  (p1 : gmap string value) : value :=
  default VNull
    (last ((λ p2, p2 !!! "filename")
             <$> filter (λ p2, same_version p1 p2 = true) rows)).

(** [(SELECT MAX(percent) FROM playback p3 WHERE ...)]. *)
Definition max_percent (rows : list (gmap string value))
  (p1 : gmap string value) : value :=
  sql_max ((λ p3, p3 !!! "percent")
             <$> filter (λ p3, same_version p1 p3 = true) rows).

(** The outer condition:
    [p1.series_prefix = ? AND COALESCE(p1.series_suffix, '') != COALESCE(?, '')]. *)
Definition other_version (series_prefix current_suffix : value)
  (p1 : gmap string value) : bool :=
  sql_eq (p1 !!! "series_prefix") series_prefix
  && sql_ne (coalesce (p1 !!! "series_suffix") (VText ""))
            (coalesce current_suffix (VText "")).

(** The query of [find_other_versions]. *)
Definition select_other_versions (series_prefix current_suffix : value)
  : Sql (list (value * value * value)) := λ db,
  match db !! "playback" with
  | None => (Raise OperationalError, db)
  | Some t =>
      if negb (has_columns t ["filename"; "percent"; "series_prefix";
                              "series_suffix"])
      then (Raise OperationalError, db)
      else
        let rows := tbl_rows t in
        (Ok (distinct
               ((λ p1, (coalesce (p1 !!! "series_suffix") (VText ""),
                        last_filename rows p1, max_percent rows p1))
                  <$> filter (λ p1, other_version series_prefix current_suffix p1
                                    = true) rows)), db)
  end.

Definition find_other_versions (series_prefix : string)
  (current_suffix : option string) : Sql (list (value * value * value)) :=
  try_except
    (select_other_versions (VText series_prefix) (opt_text current_suffix))
    (λ _, mret []).

(** ** The released version 1.0.0 ([RELIS/vlc_db_RELIS.py])

    Its schema and its writers: the stores that version 1.2.0 migrates. *)
Module RELIS.

Definition playback_columns : list column :=
  [ Column "filename" VNull false;
    Column "position" VNull false;
    Column "duration" VNull false;
    Column "percent" VNull false;
    Column "series_prefix" VNull false;
    Column "series_suffix" VNull false;
    Column "description" VNull false ].

Definition series_settings_columns : list column :=
  [ Column "series_prefix" VNull true;
    Column "series_suffix" VNull true;
    Column "autoplay" (VInt 0) false;
    Column "skip_intro" (VInt 0) false;
    Column "skip_outro" (VInt 0) false;
    Column "intro_start" VNull false;
    Column "intro_end" VNull false;
    Column "outro_start" VNull false;
    Column "description" VNull false ].

Definition init_db : Sql bool :=
  try_except
    (create_table_if_not_exists "playback" playback_columns ["filename"];;
     create_table_if_not_exists "series_settings" series_settings_columns
       ["series_prefix"; "series_suffix"];;
     commit;;
     mret true)
    (λ _, mret false).

Definition save_playback (filename : string) (position duration percent : Z)
  (series_prefix series_suffix : option string) : Sql bool :=
  try_except
    (insert_on_conflict_do_update "playback"
       [ ("filename", VText filename); ("position", VInt position);
         ("duration", VInt duration); ("percent", VInt percent);
         ("series_prefix", opt_text series_prefix);
         ("series_suffix", opt_text series_suffix) ]
       ["filename"]
       [ ("position", VInt position); ("duration", VInt duration);
         ("percent", VInt percent);
         ("series_prefix", opt_text series_prefix);
         ("series_suffix", opt_text series_suffix) ];;
     commit;;
     mret true)
    (λ _, mret false).

Definition save_series_settings (series_prefix series_suffix : string)
  (autoplay skip_intro skip_outro : Z)
  (intro_start intro_end outro_start : option Z) : Sql bool :=
  try_except
    (insert_on_conflict_do_update "series_settings"
       [ ("series_prefix", VText series_prefix);
         ("series_suffix", VText series_suffix);
         ("autoplay", VInt autoplay); ("skip_intro", VInt skip_intro);
         ("skip_outro", VInt skip_outro);
         ("intro_start", opt_int intro_start);
         ("intro_end", opt_int intro_end);
         ("outro_start", opt_int outro_start) ]
       ["series_prefix"; "series_suffix"]
       [ ("autoplay", VInt autoplay); ("skip_intro", VInt skip_intro);
         ("skip_outro", VInt skip_outro);
         ("intro_start", opt_int intro_start);
         ("intro_end", opt_int intro_end);
         ("outro_start", opt_int outro_start) ];;
     commit;;
     mret true)
    (λ _, mret false).

End RELIS.

(** ** Reachable stores

    A store is what a sequence of calls of the writers of either version
    leaves behind, starting from the empty database file that
    [sqlite3.connect] creates. *)

Inductive call : Type :=
  | Init_db
  | Save_playback (filename : string) (position duration percent : Z)
      (series_prefix series_suffix : option string)
  | Set_outro_triggered (filename : string) (triggered : Z)
  | Set_credits_duration (series_prefix series_suffix : string) (duration : Z)
  | Save_series_settings (series_prefix series_suffix : string)
      (autoplay skip_intro skip_outro : Z)
      (intro_start intro_end credits_duration : option Z)
  | Set_intro_markers (series_prefix series_suffix : string) (start end_ : Z)
  | Set_outro_marker (series_prefix series_suffix : string) (start : Z)
  | Clear_skip_markers (series_prefix series_suffix marker_type : string)
  | RELIS_init_db
  | RELIS_save_playback (filename : string) (position duration percent : Z)
      (series_prefix series_suffix : option string)
  | RELIS_save_series_settings (series_prefix series_suffix : string)
      (autoplay skip_intro skip_outro : Z)
      (intro_start intro_end outro_start : option Z).

Definition perform (c : call) : Sql bool :=
  match c with
  | Init_db => init_db
  | Save_playback f p d pc pre suf => save_playback f p d pc pre suf
  | Set_outro_triggered f tr => set_outro_triggered f tr
  | Set_credits_duration pre suf d => set_credits_duration pre suf d
  | Save_series_settings pre suf a si so i_s i_e cd =>
      save_series_settings pre suf a si so i_s i_e cd
  | Set_intro_markers pre suf s e => set_intro_markers pre suf s e
  | Set_outro_marker pre suf s => set_outro_marker pre suf s
  | Clear_skip_markers pre suf mt => clear_skip_markers pre suf mt
  | RELIS_init_db => RELIS.init_db
  | RELIS_save_playback f p d pc pre suf => RELIS.save_playback f p d pc pre suf
  | RELIS_save_series_settings pre suf a si so i_s i_e os =>
      RELIS.save_series_settings pre suf a si so i_s i_e os
  end.

(** The database after a sequence of calls, oldest first. *)
Definition after (calls : list call) (db : gmap string table)
  : gmap string table :=
  foldl (λ db c, (perform c db).2) db calls.

Inductive reachable : gmap string table → Prop :=
  | reachable_empty : reachable ∅
  | reachable_step db c : reachable db → reachable (perform c db).2.

(** The store of a new installation. *)
Definition fresh_db : gmap string table := (init_db ∅).2.

(** The store of a 1.0.0 installation at its first start under 1.2.0. *)
Definition upgraded_db : gmap string table := (init_db (RELIS.init_db ∅).2).2.

(** ** The shape of reachable stores

    The schemas a store can have: the one created by 1.2.0, the one created
    by 1.0.0, and the 1.0.0 one after the migration of 1.2.0.  The rows of
    [playback] carry a text file name each, no two the same, and an integer
    percent unless the row was created by [set_outro_triggered] alone. *)

Definition playback_schema (t : table) : Prop :=
  tbl_pkey t = ["filename"]
  ∧ (tbl_columns t = playback_columns
     ∨ tbl_columns t = RELIS.playback_columns
     ∨ tbl_columns t
       = RELIS.playback_columns ++ [Column "outro_triggered" (VInt 0) false]).

Definition playback_row_ok (r : gmap string value) : Prop :=
  (∃ f, r !!! "filename" = VText f)
  ∧ ((∃ n, r !!! "percent" = VInt n)
     ∨ (r !!! "percent" = VNull ∧ r !!! "series_prefix" = VNull)).

Definition playback_ok (t : table) : Prop :=
  playback_schema t
  ∧ NoDup ((λ r, r !!! "filename") <$> tbl_rows t)
  ∧ Forall playback_row_ok (tbl_rows t).

Definition series_settings_ok (t : table) : Prop :=
  tbl_pkey t = ["series_prefix"; "series_suffix"]
  ∧ (tbl_columns t = series_settings_columns
     ∨ tbl_columns t = RELIS.series_settings_columns
     ∨ tbl_columns t
       = RELIS.series_settings_columns ++ [Column "credits_duration" VNull false]).

Definition store_ok (db : gmap string table) : Prop :=
  (∀ t, db !! "playback" = Some t → playback_ok t)
  ∧ (∀ t, db !! "series_settings" = Some t → series_settings_ok t).

(** The rows of [playback]; none before the table exists. *)
Definition playback_rows (db : gmap string table) : list (gmap string value) :=
  match db !! "playback" with
  | Some t => tbl_rows t
  | None => []
  end.

(** The store holds the [playback] table with the columns of 1.2.0. *)
Definition playback_current (db : gmap string table) : Prop :=
  ∃ t, db !! "playback" = Some t ∧ tbl_columns t = playback_columns.

(** [r] is the settings row of the series [(p, s)]. *)
Definition is_key (p s : string) (r : gmap string value) : Prop :=
  r !!! "series_prefix" = VText p ∧ r !!! "series_suffix" = VText s.

(** What a data-changing statement on table [name] can do to the store: nothing,
    or replace the rows of [name] and keep its columns and key. *)
Definition same_schema_step (name : string) (db db' : gmap string table) : Prop :=
  db' = db
  ∨ ∃ t rows', db !! name = Some t
      ∧ db' = <[name := Table (tbl_columns t) (tbl_pkey t) rows']> db.

(** The effect of the [playback] half of [init_db]: create the table, or add
    the column [outro_triggered] to a table that lacks it. *)
Definition playback_migrated (db : gmap string table) : gmap string table :=
  match db !! "playback" with
  | None => <["playback" := Table playback_columns ["filename"] []]> db
  | Some t =>
      if has_column t "outro_triggered" then db
      else <["playback" :=
               Table (tbl_columns t ++ [Column "outro_triggered" (VInt 0) false])
                     (tbl_pkey t)
                     (insert "outro_triggered" (VInt 0) <$> tbl_rows t)]> db
  end.

(** The effect of the [series_settings] half of [init_db]. *)
Definition series_settings_migrated (db : gmap string table) : gmap string table :=
  match db !! "series_settings" with
  | None => <["series_settings" :=
                Table series_settings_columns ["series_prefix"; "series_suffix"] []]> db
  | Some t =>
      if has_column t "credits_duration" then db
      else <["series_settings" :=
               Table (tbl_columns t ++ [Column "credits_duration" VNull false])
                     (tbl_pkey t)
                     (insert "credits_duration" VNull <$> tbl_rows t)]> db
  end.

(** [c in s] on Python strings. *)
Fixpoint contains (c : Ascii.ascii) (s : string) : bool :=
  match s with
  | EmptyString => false
  | String c' s' => Ascii.eqb c' c || contains c s'
  end.

(** [r] is a playback row of the series [series_prefix] whose suffix, with
    NULL read as the empty text, is [sfx]. *)
Definition in_version (series_prefix : string) (sfx : value)
  (r : gmap string value) : Prop :=
  r !!! "series_prefix" = VText series_prefix
  ∧ coalesce (r !!! "series_suffix") (VText "") = sfx.

(** ** The other readers of version 1.2.0 *)

(** The tuple returned, or [None] when no row matches; a tuple of five entries
    is true in [result if result else None]. *)
Definition get_playback (filename : string)
  : Sql (option (value * value * value * value * value)) :=
  try_except
    (rows ← select_where
              ["position"; "duration"; "percent"; "series_prefix"; "series_suffix"]
              "playback" [("filename", VText filename)];
     match fetchone rows with
     | Some result =>
         mret (Some (result !!! "position", result !!! "duration",
                     result !!! "percent",
                     coalesce (result !!! "series_prefix") (VText ""),
                     coalesce (result !!! "series_suffix") (VText "")))
     | None => mret None
     end)
    (λ _, mret None).

(** The truth value of a fetched column in a Python condition: [None], [0]
    and the empty string are false. *)
Definition truthy (v : value) : bool :=
  match v with
  | VNull => false
  | VInt n => negb (n =? 0)%Z
  | VText s => negb (String.eqb s "")
  end.

(** [directory] is not used: the rows are looked up under the file names as
    given. *)
Definition get_playback_batch_status (directory : string)
  (filenames : list string) : Sql (gmap string value) :=
  if bool_decide (filenames = []) then mret ∅
  else
    try_except
      (rows ← select_where_in ["filename"; "status"] "playback" "filename"
                (VText <$> filenames);
       let result :=
         foldl (λ result r,
                  let status := coalesce (r !!! "status") (VText "") in
                  <[text_of (r !!! "filename") :=
                      if truthy status then status else VText ""]> result)
               ∅ rows in
       mret (foldl (λ result filename,
                      match result !! filename with
                      | Some _ => result
                      | None => <[filename := VText ""]> result
                      end)
                   result filenames))
      (λ _, mret (foldl (λ result filename, <[filename := VText ""]> result)
                        ∅ filenames)).

Definition get_series_settings (series_prefix series_suffix : string)
  : Sql (option (value * value * value * value * value * value)) :=
  try_except
    (rows ← select_where
              ["autoplay"; "skip_intro"; "skip_outro"; "intro_start"; "intro_end";
               "credits_duration"]
              "series_settings"
              [ ("series_prefix", VText series_prefix);
                ("series_suffix", VText series_suffix) ];
     match fetchone rows with
     | Some result =>
         mret (Some (result !!! "autoplay", result !!! "skip_intro",
                     result !!! "skip_outro",
                     coalesce (result !!! "intro_start") (VText ""),
                     coalesce (result !!! "intro_end") (VText ""),
                     coalesce (result !!! "credits_duration") (VText "")))
     | None => mret None
     end)
    (λ _, mret None).

(** The rows of [series_settings]; none before the table exists. *)
Definition series_settings_rows (db : gmap string table)
  : list (gmap string value) :=
  match db !! "series_settings" with
  | Some t => tbl_rows t
  | None => []
  end.

(** [get_series_settings] of version 1.0.0, which reads [outro_start]. *)
Definition RELIS_get_series_settings (series_prefix series_suffix : string)
  : Sql (option (value * value * value * value * value * value)) :=
  try_except
    (rows ← select_where
              ["autoplay"; "skip_intro"; "skip_outro"; "intro_start"; "intro_end";
               "outro_start"]
              "series_settings"
              [ ("series_prefix", VText series_prefix);
                ("series_suffix", VText series_suffix) ];
     match fetchone rows with
     | Some result =>
         mret (Some (result !!! "autoplay", result !!! "skip_intro",
                     result !!! "skip_outro",
                     coalesce (result !!! "intro_start") (VText ""),
                     coalesce (result !!! "intro_end") (VText ""),
                     coalesce (result !!! "outro_start") (VText "")))
     | None => mret None
     end)
    (λ _, mret None).

(** The calls of version 1.2.0. *)
Definition is_current (c : call) : bool :=
  match c with
  | RELIS_init_db
  | RELIS_save_playback _ _ _ _ _ _
  | RELIS_save_series_settings _ _ _ _ _ _ _ _ => false
  | _ => true
  end.

(** The status that [save_playback] stores beside a percent; a row without a
    percent has none. *)
Definition status_of_percent (percent : value) : value :=
  match percent with
  | VInt pc => opt_text (_calculate_status pc)
  | _ => VNull
  end.

(** A method returned True. *)
Definition returned_true (o : outcome bool) : bool :=
  match o with
  | Ok true => true
  | _ => false
  end.

(** The flag that a sequence of calls, oldest first, leaves for the file [f]
    on the store [db] where the flag of [f] read as [flag]: the value of the
    last call [set_outro_triggered f tr] among them that returned True, and
    [flag] when there is none. *)
Fixpoint last_outro_triggered (f : string) (calls : list call)
    (db : gmap string table) (flag : Z) : Z :=
  match calls with
  | [] => flag
  | c :: calls' =>
      last_outro_triggered f calls' (perform c db).2
        match c with
        | Set_outro_triggered f' tr =>
            if bool_decide (f' = f) && returned_true (perform c db).1
            then tr else flag
        | _ => flag
        end
  end.

(** The rows of [series_settings] carry a text prefix and a text suffix each,
    no two rows the same pair. *)
Definition series_settings_keys_ok (rows : list (gmap string value)) : Prop :=
  Forall (λ r, ∃ p s, is_key p s r) rows
  ∧ NoDup ((λ r, (r !!! "series_prefix", r !!! "series_suffix")) <$> rows).

(** ** The command line

    A command returns the pair of what it printed on standard output, one
    string per call of [print], and its exit status.  The messages on
    standard error are not part of it.  [with VlcDatabase() as db] opens the
    database file, which is the store, and commits when the block is left;
    an error that no method caught would leave the block as an exception. *)

(** [str(v)] for a value fetched from the database. *)
Definition str (v : value) : string :=
  match v with
  | VNull => "None"
  | VInt n => pretty n
  | VText s => s
  end.

Definition cli_get_playback (args : list string) : Sql (list string * Z) :=
  match args with
  | [] => mret ([], 1%Z)
  | filename :: _ =>
      result ← get_playback filename;
      match result with
      | Some (position, duration, percent, series_prefix, series_suffix) =>
          mret ([String.concat "|"
                   (str <$> [position; duration; percent;
                             series_prefix; series_suffix])], 0%Z)
      | None => mret ([], 1%Z)
      end
  end.

Definition cli_get_playback_percent (args : list string)
  : Sql (list string * Z) :=
  match args with
  | [] => mret ([], 1%Z)
  | filename :: _ =>
      percent ← get_playback_percent filename;
      mret ([str percent], 0%Z)
  end.

Definition cli_get_playback_status (args : list string)
  : Sql (list string * Z) :=
  match args with
  | [] => mret ([], 1%Z)
  | filename :: _ =>
      status ← get_playback_status filename;
      mret ([if truthy status then str status else ""], 0%Z)
  end.

Definition cli_get_outro_triggered (args : list string)
  : Sql (list string * Z) :=
  match args with
  | [] => mret ([], 1%Z)
  | filename :: _ =>
      triggered ← get_outro_triggered filename;
      mret ([str triggered], 0%Z)
  end.

Definition cli_get_credits_duration (args : list string)
  : Sql (list string * Z) :=
  match args with
  | series_prefix :: series_suffix :: _ =>
      duration ← get_credits_duration series_prefix series_suffix;
      if bool_decide (duration ≠ VNull) then mret ([str duration], 0%Z)
      else mret ([], 1%Z)
  | _ => mret ([], 1%Z)
  end.

(** * Properties *)

(** ** SQL comparisons

    What the boolean comparisons of the model decide. *)

Lemma sql_eq_text v s : sql_eq v (VText s) = true ↔ v = VText s.
Proof.
  destruct v; simpl; try (split; intros; discriminate).
  rewrite bool_decide_eq_true. done.
Qed.

Lemma sql_eq_text_l v s : sql_eq (VText s) v = true ↔ v = VText s.
Proof.
  destruct v; simpl; try (split; intros; discriminate).
  rewrite bool_decide_eq_true. split; congruence.
Qed.

Lemma sql_eq_true a b : sql_eq a b = true ↔ a = b ∧ a ≠ VNull.
Proof.
  destruct a, b; simpl; rewrite ?bool_decide_eq_true; intuition congruence.
Qed.

Lemma sql_ne_true a b : a ≠ VNull → b ≠ VNull → sql_ne a b = true ↔ a ≠ b.
Proof.
  destruct a, b; simpl; rewrite ?bool_decide_eq_true; intuition congruence.
Qed.

Lemma coalesce_not_null v s : coalesce v (VText s) ≠ VNull.
Proof. by destruct v. Qed.

(** ** Lists

    Facts on [filter], [last] and [distinct] used for the queries, and the
    value of [MAX] on a group of integers. *)

Lemma filter_none {A} (P : A → Prop) `{∀ x, Decision (P x)} (l : list A) :
  (∀ x, x ∈ l → ¬ P x) → filter P l = [].
Proof.
  induction l as [|x l IH]; intros Hl; [done|].
  rewrite filter_cons_False by (apply Hl; left). apply IH. intros y Hy. apply Hl. by right.
Qed.

Lemma filter_at_most_one {A B} `{EqDecision B} (g : A → B) (v : B) (l : list A) :
  NoDup (g <$> l) → length (filter (λ x, g x = v) l) ≤ 1.
Proof.
  induction l as [|x l IH]; [simpl; lia|].
  rewrite fmap_cons, NoDup_cons. intros [Hx Hnd]. rewrite filter_cons.
  destruct (decide (g x = v)) as [Hv|Hv]; [|by apply IH].
  assert (filter (λ x, g x = v) l = []) as ->; [|simpl; lia].
  destruct (filter _ l) as [|y l'] eqn:E; [done|]. exfalso. apply Hx.
  assert (y ∈ filter (λ x, g x = v) l) as Hy by (rewrite E; left).
  apply list_elem_of_filter in Hy as [Hy Hin].
  apply list_elem_of_fmap. exists y. split; [congruence|done].
Qed.

Lemma last_filter_lookup {A} (P : A → Prop) `{∀ x, Decision (P x)} (l : list A) x :
  last (filter P l) = Some x →
  ∃ i, l !! i = Some x ∧ P x ∧ ∀ j y, i < j → l !! j = Some y → ¬ P y.
Proof.
  induction l as [|y l IH] using rev_ind; [done|].
  rewrite filter_app, filter_cons, filter_nil.
  destruct (decide (P y)) as [Hy|Hy].
  - rewrite last_snoc. intros [= ->]. exists (length l). split; [|split; [done|]].
    + by rewrite lookup_app_r, Nat.sub_diag.
    + intros j z Hj Hz. apply lookup_lt_Some in Hz. rewrite length_app in Hz.
      simpl in Hz. lia.
  - rewrite app_nil_r. intros Hl. destruct (IH Hl) as (i & Hi & Hx & Hafter).
    exists i. split; [|split; [done|]].
    + rewrite lookup_app_l; [done|]. by eapply lookup_lt_Some.
    + intros j z Hj Hz. destruct (decide (j < length l)) as [Hlt|Hge].
      * rewrite lookup_app_l in Hz by done. by eapply Hafter.
      * rewrite lookup_app_r in Hz by lia.
        destruct (j - length l) as [|n] eqn:E; simpl in Hz; [by injection Hz as <-|].
        by destruct n.
Qed.

Section distinct.
Context {A : Type} `{EqDecision A}.

Lemma elem_of_distinct (l : list A) x : x ∈ distinct l ↔ x ∈ l.
Proof.
  induction l as [|y l IH]; simpl; [done|].
  rewrite !elem_of_cons, list_elem_of_filter, IH.
  destruct (decide (x = y)); tauto.
Qed.

Lemma NoDup_distinct (l : list A) : NoDup (distinct l).
Proof.
  induction l as [|y l IH]; simpl; [constructor|].
  apply NoDup_cons. split; [|by apply NoDup_filter].
  rewrite list_elem_of_filter. tauto.
Qed.

End distinct.

Lemma sql_max_ints (vs : list value) :
  vs ≠ [] →
  Forall (λ v, ∃ n, v = VInt n) vs →
  ∃ m, sql_max vs = VInt m ∧ VInt m ∈ vs ∧ ∀ n, VInt n ∈ vs → (n ≤ m)%Z.
Proof.
  induction vs as [|v vs IH]; [done|]. intros _ Hall.
  apply Forall_cons in Hall as [[n ->] Hall]. simpl.
  destruct vs as [|v' vs'].
  - exists n. simpl. split; [done|]. split; [left|].
    intros n' [[= ->]|?%elem_of_nil]%elem_of_cons; [lia|done].
  - destruct (IH ltac:(done) Hall) as (m & -> & Hin & Hmax). simpl.
    exists (Z.max n m). split; [done|]. split.
    + destruct (Z.max_spec n m) as [[_ ->]|[_ ->]]; [by right|left].
    + intros n' [[= ->]|Hn']%elem_of_cons; [lia|]. specialize (Hmax n' Hn'). lia.
Qed.

(** ** Python strings

    The last piece of [directory + "/" + filename] is [filename] when
    [filename] holds no "/". *)

Lemma split_nonempty sep s : split sep s ≠ [].
Proof.
  destruct s as [|c s]; simpl; [done|].
  destruct (Ascii.eqb c sep); [done|]. by destruct (split sep s).
Qed.

Lemma split_without_sep sep s : contains sep s = false → split sep s = [s].
Proof.
  induction s as [|c s IH]; simpl; [done|].
  intros H. apply orb_false_iff in H as [-> H]. by rewrite (IH H).
Qed.

Lemma split_app_sep sep d f :
  split sep (d +:+ String sep f) = split sep d ++ split sep f.
Proof.
  induction d as [|c d IH]; simpl.
  - by rewrite Ascii.eqb_refl.
  - destruct (Ascii.eqb c sep); [by rewrite IH|].
    rewrite IH. pose proof (split_nonempty sep d).
    by destruct (split sep d).
Qed.

Lemma basename_join d f :
  contains "/" f = false → basename (d +:+ "/" +:+ f) = f.
Proof.
  intros Hf. unfold basename.
  change (d +:+ "/" +:+ f) with (d +:+ String "/" f).
  rewrite split_app_sep, (split_without_sep _ _ Hf), last_snoc. done.
Qed.

Lemma basename_join_any d f : basename (d +:+ "/" +:+ f) = basename f.
Proof.
  unfold basename. change (d +:+ "/" +:+ f) with (d +:+ String "/" f).
  rewrite split_app_sep, last_app. pose proof (split_nonempty "/" f) as Hne.
  destruct (split "/" f) as [|w ws] using rev_ind; [done|]. by rewrite last_snoc.
Qed.

Lemma split_pieces sep s : Forall (λ w, contains sep w = false) (split sep s).
Proof.
  induction s as [|c s IH]; simpl; [by repeat constructor|].
  destruct (Ascii.eqb c sep) eqn:E; [by constructor|].
  destruct (split sep s) as [|w ws]; [by repeat constructor; simpl; rewrite E|].
  apply Forall_cons in IH as [Hw Hws]. constructor; [|done]. simpl. by rewrite E.
Qed.

Lemma basename_no_sep s : contains "/" (basename s) = false.
Proof.
  unfold basename. pose proof (split_pieces "/" s) as Hall.
  pose proof (split_nonempty "/" s) as Hne.
  destruct (split "/" s) as [|w ws] using rev_ind; [done|].
  rewrite last_snoc. simpl. by apply Forall_app in Hall as [_ [Hw _]%Forall_cons].
Qed.

(** ** Rows

    Reading a column after SET, and what an upsert does to the list of rows:
    a second identical upsert changes nothing, a row keeps its place, and the
    rows stored under the key are the assigned old ones or the single new
    one. *)

Ltac row_lookup :=
  repeat first
    [ rewrite lookup_total_insert_eq
    | rewrite lookup_total_insert_ne by discriminate ].

Section rows.
Implicit Types (r : gmap string value) (sets vals cond : list (string * value))
  (rows : list (gmap string value)) (c k : string).

Lemma assign_lookup_ne sets r c : c ∉ sets.*1 → assign sets r !! c = r !! c.
Proof.
  induction sets as [|[c' v] sets IH]; simpl; intros H; [done|].
  apply not_elem_of_cons in H as [? ?]. rewrite lookup_insert_ne; auto.
Qed.

Lemma assign_lookup_total_ne sets r c :
  c ∉ sets.*1 → assign sets r !!! c = r !!! c.
Proof. intros H. by rewrite !lookup_total_alt, assign_lookup_ne. Qed.

Lemma assign_lookup_independent sets r1 r2 c :
  c ∈ sets.*1 → assign sets r1 !! c = assign sets r2 !! c.
Proof.
  induction sets as [|[c' v] sets IH]; simpl; intros H; [by apply elem_of_nil in H|].
  destruct (decide (c' = c)) as [->|Hne].
  - by rewrite !lookup_insert_eq.
  - rewrite !lookup_insert_ne by done. apply IH.
    apply elem_of_cons in H as [?|?]; [congruence|done].
Qed.

Lemma assign_idemp sets r : assign sets (assign sets r) = assign sets r.
Proof.
  apply map_eq; intros c. destruct (decide (c ∈ sets.*1)).
  - by apply assign_lookup_independent.
  - by rewrite assign_lookup_ne.
Qed.

Lemma assign_tail_absorbed kv sets (d : gmap string value) :
  kv.1 ∉ sets.*1 → assign sets (assign (kv :: sets) d) = assign (kv :: sets) d.
Proof.
  intros Hkv. apply map_eq; intros c. destruct (decide (c ∈ sets.*1)) as [Hin|Hout].
  - rewrite (assign_lookup_independent sets _ d c Hin). simpl.
    rewrite lookup_insert_ne; [done|]. intros <-. done.
  - by rewrite assign_lookup_ne.
Qed.

Lemma key_match_assign pk sets r r0 :
  (∀ k, k ∈ pk → k ∉ sets.*1) →
  key_match pk r (assign sets r0) = key_match pk r r0.
Proof.
  intros H. unfold key_match. induction pk as [|k pk IH]; simpl; [done|].
  rewrite assign_lookup_total_ne by (apply H; left).
  f_equal. apply IH. intros k' ?. apply H. by right.
Qed.

Lemma key_match_filename r r0 f :
  r !!! "filename" = VText f →
  key_match ["filename"] r r0 = true ↔ r0 !!! "filename" = VText f.
Proof.
  intros Hf. unfold key_match. simpl. rewrite Hf, andb_true_r.
  destruct (r0 !!! "filename"); simpl; try (split; intros; discriminate).
  rewrite bool_decide_eq_true. split; congruence.
Qed.

Lemma key_match_settings r r0 p s :
  r !!! "series_prefix" = VText p →
  r !!! "series_suffix" = VText s →
  key_match ["series_prefix"; "series_suffix"] r r0 = true ↔ is_key p s r0.
Proof.
  intros Hp Hs. unfold key_match, is_key. simpl.
  rewrite Hp, Hs, andb_true_r, andb_true_iff, !sql_eq_text_l. done.
Qed.

Lemma row_matches_key p s r :
  row_matches [("series_prefix", VText p); ("series_suffix", VText s)] r = true
  ↔ is_key p s r.
Proof.
  unfold row_matches, is_key. simpl.
  rewrite andb_true_r, andb_true_iff, !sql_eq_text. done.
Qed.

Lemma upsert_rows_idemp pk r sets rows :
  (∀ k, k ∈ pk → k ∉ sets.*1) →
  key_match pk r r = true →
  assign sets r = r →
  upsert_rows pk r sets (upsert_rows pk r sets rows) = upsert_rows pk r sets rows.
Proof.
  intros Hpk Hrr Hr. unfold upsert_rows.
  destruct (existsb (key_match pk r) rows) eqn:E.
  - assert (existsb (key_match pk r)
              ((λ r0, if key_match pk r r0 then assign sets r0 else r0) <$> rows) = true) as ->.
    { apply existsb_exists in E as (r0 & Hin & Hm). apply existsb_exists.
      exists (assign sets r0). split.
      - apply list_elem_of_In. apply list_elem_of_In in Hin.
        apply list_elem_of_fmap. exists r0. by rewrite Hm.
      - by rewrite key_match_assign. }
    rewrite <- list_fmap_compose. apply list_fmap_ext. intros i r0 _. simpl.
    destruct (key_match pk r r0) eqn:E0.
    + rewrite key_match_assign, E0 by done. apply assign_idemp.
    + by rewrite E0.
  - rewrite existsb_app. simpl. rewrite Hrr, orb_true_r.
    rewrite fmap_app. simpl. rewrite Hrr, Hr. f_equal.
    rewrite <- (list_fmap_id rows) at 2. apply list_fmap_ext. intros i r0 Hi. simpl.
    destruct (key_match pk r r0) eqn:E0; [|done].
    exfalso. assert (existsb (key_match pk r) rows = true); [|congruence].
    apply existsb_exists. exists r0. split; [|done].
    apply list_elem_of_In, list_elem_of_lookup. eauto.
Qed.



Lemma upsert_rows_filter r sets rows f :
  r !!! "filename" = VText f →
  "filename" ∉ sets.*1 →
  filter (λ x, x !!! "filename" = VText f) (upsert_rows ["filename"] r sets rows)
  = match filter (λ x, x !!! "filename" = VText f) rows with
    | [] => [r]
    | l => assign sets <$> l
    end.
Proof.
  intros Hf Hsets. unfold upsert_rows.
  assert (∀ l : list (gmap string value),
            filter (λ x, x !!! "filename" = VText f)
              ((λ r0, if key_match ["filename"] r r0 then assign sets r0 else r0) <$> l)
            = assign sets <$> filter (λ x, x !!! "filename" = VText f) l) as Hmap.
  { induction l as [|x l IH]; [done|]. rewrite fmap_cons, !filter_cons.
    destruct (key_match ["filename"] r x) eqn:E.
    - apply (key_match_filename _ _ _ Hf) in E as E'.
      rewrite assign_lookup_total_ne by done. rewrite !decide_True by done.
      rewrite fmap_cons. by f_equal.
    - assert (x !!! "filename" ≠ VText f) as Hne.
      { intros H. apply (key_match_filename _ _ _ Hf) in H. congruence. }
      by rewrite !decide_False by done. }
  destruct (existsb _ rows) eqn:E.
  - rewrite Hmap. destruct (filter _ rows) as [|x l] eqn:El; [|done]. exfalso.
    apply existsb_exists in E as (x & Hin & Hx).
    apply (key_match_filename _ _ _ Hf) in Hx.
    assert (x ∈ filter (λ x, x !!! "filename" = VText f) rows) as Hx'.
    { apply list_elem_of_filter. split; [done|by apply list_elem_of_In]. }
    rewrite El in Hx'. by apply elem_of_nil in Hx'.
  - assert (filter (λ x, x !!! "filename" = VText f) rows = []) as Hnil.
    { destruct (filter _ rows) as [|x l] eqn:El; [done|]. exfalso.
      assert (x ∈ filter (λ x, x !!! "filename" = VText f) rows) as Hx
        by (rewrite El; left).
      apply list_elem_of_filter in Hx as [Hx Hin].
      assert (existsb (key_match ["filename"] r) rows = true); [|congruence].
      apply existsb_exists. exists x. split; [by apply list_elem_of_In|].
      by apply (key_match_filename _ _ _ Hf). }
    rewrite filter_app, Hnil. simpl. rewrite filter_cons, decide_True by done. done.
Qed.

End rows.

(** ** Statements and methods as equations

    Each statement either raises and leaves the store alone, or replaces one
    table.  A method that wraps one statement in [try ... except] returns
    True in the second case and False in the first. *)

Lemma bind_ok {A B} (m : Sql A) (f : A → Sql B) db a db' :
  m db = (Ok a, db') → (m ≫= f) db = f a db'.
Proof. unfold mbind, Sql_bind. by intros ->. Qed.

Lemma try_except_ok {A} (body : Sql A) h db a db' :
  body db = (Ok a, db') → try_except body h db = (Ok a, db').
Proof. unfold try_except. by intros ->. Qed.

Lemma create_table_if_not_exists_eq name cols pk db :
  create_table_if_not_exists name cols pk db
  = (Ok (), match db !! name with
            | Some _ => db
            | None => <[name := Table cols pk []]> db
            end).
Proof. unfold create_table_if_not_exists. by destruct (db !! name). Qed.

Lemma probe_or_add name col db t :
  db !! name = Some t →
  try_except_operational (select_limit_1 (col_name col) name;; mret ())
                         (alter_table_add_column name col) db
  = (Ok (), if has_column t (col_name col) then db
            else <[name := Table (tbl_columns t ++ [col]) (tbl_pkey t)
                             (insert (col_name col) (col_default col) <$> tbl_rows t)]> db).
Proof.
  intros Ht.
  unfold try_except_operational, try_except, select_limit_1, alter_table_add_column,
    mbind, Sql_bind, mret, Sql_ret.
  rewrite Ht. destruct (has_column t (col_name col)) eqn:E; [done|].
  by rewrite Ht, E.
Qed.

Lemma probe_probe_or_add name other col db t :
  db !! name = Some t →
  try_except_operational (select_limit_1 (col_name col) name;; mret ())
    (try_except_operational
       (select_limit_1 other name;; alter_table_add_column name col)
       (alter_table_add_column name col)) db
  = (Ok (), if has_column t (col_name col) then db
            else <[name := Table (tbl_columns t ++ [col]) (tbl_pkey t)
                             (insert (col_name col) (col_default col) <$> tbl_rows t)]> db).
Proof.
  intros Ht.
  unfold try_except_operational, try_except, select_limit_1, alter_table_add_column,
    mbind, Sql_bind, mret, Sql_ret.
  rewrite Ht. destruct (has_column t (col_name col)) eqn:E; [done|].
  rewrite Ht. destruct (has_column t other); by rewrite Ht, E.
Qed.

Lemma int64_spec n : int64 n = true ↔ (- 2 ^ 63 ≤ n < 2 ^ 63)%Z.
Proof. unfold int64. rewrite andb_true_iff, Z.leb_le, Z.ltb_lt. done. Qed.

Lemma bindable_opt_text o : bindable (opt_text o) = true.
Proof. by destruct o. Qed.

Lemma forallb_bindable vs :
  Forall (λ v, bindable v = true) vs → forallb bindable vs = true.
Proof. induction 1 as [|v vs Hv _ IH]; [done|]. simpl. by rewrite Hv. Qed.

(** The parameters of a concrete statement can be bound, given that its
    integers are in range. *)
Ltac bindable :=
  try apply forallb_bindable; cbn [fmap list_fmap app snd];
  repeat first [apply Forall_nil_2 | apply Forall_cons_2];
  first [assumption | apply bindable_opt_text | reflexivity].

Lemma insert_into_cases name vals db :
  (∃ e, insert_into name vals db = (Raise e, db))
  ∨ (∃ t, db !! name = Some t
        ∧ has_columns t vals.*1 = true
        ∧ not_null_ok t (new_row t vals) = true
        ∧ existsb (key_match (tbl_pkey t) (new_row t vals)) (tbl_rows t) = false
        ∧ insert_into name vals db
          = (Ok (), <[name := Table (tbl_columns t) (tbl_pkey t)
                                (tbl_rows t ++ [new_row t vals])]> db)).
Proof.
  unfold insert_into. destruct (db !! name) as [t|]; [|left; by eexists].
  destruct (has_columns t vals.*1) eqn:E1; [|left; by eexists].
  destruct (forallb bindable vals.*2); [|left; by eexists].
  destruct (not_null_ok t (new_row t vals)) eqn:E2; [|left; by eexists].
  destruct (existsb _ _) eqn:E3; [left; by eexists|].
  right. by exists t.
Qed.

Lemma update_set_where_cases name sets cond db :
  (∃ e, update_set_where name sets cond db = (Raise e, db))
  ∨ (∃ t, db !! name = Some t
        ∧ has_columns t sets.*1 = true
        ∧ has_columns t cond.*1 = true
        ∧ update_set_where name sets cond db
          = (Ok (), <[name := Table (tbl_columns t) (tbl_pkey t)
                                (update_rows sets cond (tbl_rows t))]> db)).
Proof.
  unfold update_set_where. destruct (db !! name) as [t|]; [|left; by eexists].
  destruct (has_columns t sets.*1) eqn:E1; [|left; by eexists].
  destruct (has_columns t cond.*1) eqn:E2; [|left; by eexists].
  destruct (forallb bindable (sets.*2 ++ cond.*2)); [|left; by eexists].
  right. by exists t.
Qed.

Lemma has_columns_missing t c cs :
  has_column t c = false → c ∈ cs → has_columns t cs = false.
Proof.
  intros Hc Hin. unfold has_columns. apply not_true_is_false. intros Hall.
  rewrite forallb_forall in Hall. specialize (Hall c). rewrite Hc in Hall.
  by discriminate Hall; apply list_elem_of_In.
Qed.

Lemma has_column_eq t cols c :
  tbl_columns t = cols → has_column t c = bool_decide (c ∈ col_name <$> cols).
Proof. intros <-. done. Qed.

Lemma upsert_call_eq name vals target sets db :
  try_except (insert_on_conflict_do_update name vals target sets;; commit;; mret true)
             (λ _, mret false) db
  = match db !! name with
    | Some t =>
        if has_columns t vals.*1 && has_columns t sets.*1
           && bool_decide (target = tbl_pkey t)
        then
          if forallb bindable (vals.*2 ++ sets.*2)
          then
            if not_null_ok t (new_row t vals)
            then (Ok true,
                  <[name := Table (tbl_columns t) (tbl_pkey t)
                              (upsert_rows (tbl_pkey t) (new_row t vals) sets
                                           (tbl_rows t))]> db)
            else (Ok false, db)
          else (Raise OverflowError, db)
        else (Ok false, db)
    | None => (Ok false, db)
    end.
Proof.
  unfold try_except, insert_on_conflict_do_update, commit, mbind, Sql_bind, mret, Sql_ret.
  destruct (db !! name) as [t|]; [|done].
  destruct (has_columns t vals.*1 && has_columns t sets.*1
            && bool_decide (target = tbl_pkey t)); simpl; [|done].
  destruct (forallb bindable (vals.*2 ++ sets.*2)); simpl; [|done].
  by destruct (not_null_ok t (new_row t vals)).
Qed.

Lemma upsert_call_step name vals target sets db :
  same_schema_step name db
    (try_except (insert_on_conflict_do_update name vals target sets;; commit;; mret true)
                (λ _, mret false) db).2.
Proof.
  rewrite upsert_call_eq. destruct (db !! name) as [t|] eqn:Ht; [|by left].
  destruct (_ && _); [|by left].
  destruct (forallb _ _); [|by left].
  destruct (not_null_ok _ _); [|by left]. right. by eexists _, _.
Qed.

Lemma upsert_call_idemp name kv target sets db :
  (∀ t, db !! name = Some t →
        (∀ k, k ∈ tbl_pkey t → k ∉ sets.*1)
        ∧ key_match (tbl_pkey t) (new_row t (kv :: sets)) (new_row t (kv :: sets)) = true) →
  kv.1 ∉ sets.*1 →
  let call := try_except (insert_on_conflict_do_update name (kv :: sets) target sets;;
                          commit;; mret true) (λ _, mret false) in
  call (call db).2 = call db.
Proof.
  intros Hpk Hkv call. unfold call.
  rewrite (upsert_call_eq name (kv :: sets) target sets db).
  destruct (db !! name) as [t|] eqn:Ht; [|cbn [snd]; by rewrite upsert_call_eq, Ht].
  destruct (_ && _) eqn:E; [|cbn [snd]; by rewrite upsert_call_eq, Ht, E].
  destruct (forallb _ _) eqn:Eb; [|cbn [snd]; by rewrite upsert_call_eq, Ht, E, Eb].
  destruct (not_null_ok _ _) eqn:En;
    [|cbn [snd]; by rewrite upsert_call_eq, Ht, E, Eb, En].
  cbn [snd]. rewrite upsert_call_eq, lookup_insert_eq.
  change (has_columns _ ?x) with (has_columns t x).
  change (not_null_ok _ ?x) with (not_null_ok t x).
  change (new_row _ ?x) with (new_row t x).
  cbn [tbl_columns tbl_pkey tbl_rows]. rewrite E, Eb, En.
  destruct (Hpk t eq_refl) as [Hk Hrr].
  rewrite upsert_rows_idemp; [by rewrite insert_insert_eq|done|done|].
  by apply assign_tail_absorbed.
Qed.

Lemma insert_or_update_step (b : bool) name vals sets cond db :
  same_schema_step name db
    (try_except
       ((if b then insert_into name vals else update_set_where name sets cond);;
        commit;; mret true)
       (λ _, mret false) db).2.
Proof.
  unfold try_except, commit, mbind, Sql_bind, mret, Sql_ret. destruct b.
  - destruct (insert_into_cases name vals db) as [[e ->]|(t & Ht & _ & _ & _ & ->)];
      [destruct e; by left|right; by eexists _, _].
  - destruct (update_set_where_cases name sets cond db) as [[e ->]|(t & Ht & _ & _ & ->)];
      [destruct e; by left|right; by eexists _, _].
Qed.

Lemma insert_or_update_missing_column (b : bool) vals sets cond db :
  (∀ t, db !! "series_settings" = Some t →
        has_columns t (if b then vals.*1 else sets.*1) = false) →
  try_except
    ((if b then insert_into "series_settings" vals
      else update_set_where "series_settings" sets cond);;
     commit;; mret true)
    (λ _, mret false) db
  = (Ok false, db).
Proof.
  intros Hmiss.
  unfold try_except, insert_into, update_set_where, commit, mbind, Sql_bind, mret, Sql_ret.
  destruct b; (destruct (db !! "series_settings") as [t|]; [|done]);
    by rewrite (Hmiss t eq_refl).
Qed.

Lemma series_settings_exist_total p s db :
  ∃ b, series_settings_exist p s db = (Ok b, db).
Proof.
  unfold series_settings_exist, try_except, select_where, mbind, Sql_bind, mret, Sql_ret.
  destruct (db !! "series_settings") as [t|]; [|by eexists].
  destruct (negb _); by eexists.
Qed.

Lemma series_settings_exist_true p s db t :
  db !! "series_settings" = Some t →
  has_columns t ["series_prefix"; "series_suffix"] = true →
  series_settings_exist p s db
  = (Ok (bool_decide (Exists (is_key p s) (tbl_rows t))), db).
Proof.
  intros Ht Hc.
  unfold series_settings_exist, try_except, select_where, mbind, Sql_bind, mret, Sql_ret.
  rewrite Ht. 
  change ([("series_prefix", VText p); ("series_suffix", VText s)].*1) with ["series_prefix"; "series_suffix"].
  rewrite Hc. change (negb (has_columns t [] && true)) with false. cbv iota beta.
  do 2 f_equal. apply bool_decide_ext.
  rewrite Exists_exists. split.
  - intros Hlen. destruct (filter _ _) as [|r l] eqn:E; [simpl in Hlen; lia|].
    exists r. assert (r ∈ r :: l) as Hin by left. rewrite <- E in Hin.
    apply list_elem_of_filter in Hin as [Hm Hin]. split; [done|]. by apply row_matches_key.
  - intros (r & Hin & Hk).
    assert (r ∈ filter (λ r, row_matches [("series_prefix", VText p); ("series_suffix", VText s)] r = true) (tbl_rows t)) as Hf.
    { apply list_elem_of_filter. split; [|done]. by apply row_matches_key. }
    destruct (filter _ _); [by apply elem_of_nil in Hf|simpl; lia].
Qed.

Lemma set_intro_markers_step p s start end_ db :
  same_schema_step "series_settings" db (set_intro_markers p s start end_ db).2.
Proof.
  unfold set_intro_markers.
  destruct ((start <? 0)%Z || (end_ <? 0)%Z); [by left|].
  destruct (end_ <=? start)%Z; [by left|].
  unfold try_except at 1, mbind at 1, Sql_bind at 1.
  destruct (series_settings_exist_total p s db) as [b ->].
  apply (insert_or_update_step (negb b)).
Qed.

Lemma set_credits_duration_step p s d db :
  same_schema_step "series_settings" db (set_credits_duration p s d db).2.
Proof.
  unfold set_credits_duration.
  destruct (d <? 0)%Z; [by left|].
  unfold try_except at 1, mbind at 1, Sql_bind at 1.
  destruct (series_settings_exist_total p s db) as [b ->].
  apply (insert_or_update_step (negb b)).
Qed.

Lemma set_outro_marker_step p s start db :
  same_schema_step "series_settings" db (set_outro_marker p s start db).2.
Proof.
  unfold set_outro_marker.
  destruct (start <? 0)%Z; [by left|].
  unfold try_except at 1, mbind at 1, Sql_bind at 1.
  destruct (series_settings_exist_total p s db) as [b ->].
  apply (insert_or_update_step (negb b)).
Qed.

Lemma clear_skip_markers_step p s mt db :
  same_schema_step "series_settings" db (clear_skip_markers p s mt db).2.
Proof.
  unfold clear_skip_markers.
  repeat (case_bool_decide; [apply (insert_or_update_step false _ [])|]).
  by left.
Qed.

(** ** [init_db] in closed form

    [init_db] never fails: it is the composition of the two migrations
    [playback_migrated] and [series_settings_migrated], which are idempotent
    and commute. *)

Lemma playback_migrated_eq db :
  (create_table_if_not_exists "playback" playback_columns ["filename"];;
   try_except_operational
     (select_limit_1 "outro_triggered" "playback";; mret ())
     (alter_table_add_column "playback" (Column "outro_triggered" (VInt 0) false))) db
  = (Ok (), playback_migrated db).
Proof.
  erewrite bind_ok by apply create_table_if_not_exists_eq.
  unfold playback_migrated. destruct (db !! "playback") as [t|] eqn:Ht.
  - exact (probe_or_add "playback" (Column "outro_triggered" (VInt 0) false) db t Ht).
  - etrans; [exact (probe_or_add "playback" (Column "outro_triggered" (VInt 0) false)
                      _ _ (lookup_insert_eq _ _ _))|done].
Qed.

Lemma series_settings_migrated_eq db :
  (create_table_if_not_exists "series_settings" series_settings_columns
     ["series_prefix"; "series_suffix"];;
   try_except_operational
     (select_limit_1 "credits_duration" "series_settings";; mret ())
     (try_except_operational
        (select_limit_1 "outro_start" "series_settings";;
         alter_table_add_column "series_settings"
           (Column "credits_duration" VNull false))
        (alter_table_add_column "series_settings"
           (Column "credits_duration" VNull false)))) db
  = (Ok (), series_settings_migrated db).
Proof.
  erewrite bind_ok by apply create_table_if_not_exists_eq.
  unfold series_settings_migrated. destruct (db !! "series_settings") as [t|] eqn:Ht.
  - exact (probe_probe_or_add "series_settings" "outro_start"
             (Column "credits_duration" VNull false) db t Ht).
  - etrans; [exact (probe_probe_or_add "series_settings" "outro_start"
                      (Column "credits_duration" VNull false)
                      _ _ (lookup_insert_eq _ _ _))|done].
Qed.

Lemma init_db_eq db :
  init_db db = (Ok true, series_settings_migrated (playback_migrated db)).
Proof.
  unfold init_db. apply try_except_ok.
  pose proof (playback_migrated_eq db) as H1.
  pose proof (series_settings_migrated_eq (playback_migrated db)) as H2.
  unfold mbind, Sql_bind in *.
  destruct (create_table_if_not_exists "playback" _ _ db) as [[[]|e] db1];
    [|discriminate H1].
  rewrite H1.
  destruct (create_table_if_not_exists "series_settings" _ _ _) as [[[]|e] db2];
    [|discriminate H2].
  by rewrite H2.
Qed.

Lemma RELIS_init_db_eq db :
  RELIS.init_db db
  = (Ok true,
     let db1 := match db !! "playback" with
                | Some _ => db
                | None => <["playback" := Table RELIS.playback_columns ["filename"] []]> db
                end in
     match db1 !! "series_settings" with
     | Some _ => db1
     | None => <["series_settings" :=
                   Table RELIS.series_settings_columns
                         ["series_prefix"; "series_suffix"] []]> db1
     end).
Proof.
  unfold RELIS.init_db. apply try_except_ok.
  erewrite bind_ok by apply create_table_if_not_exists_eq.
  erewrite bind_ok by apply create_table_if_not_exists_eq.
  done.
Qed.

Lemma playback_migrated_settings db :
  playback_migrated db !! "series_settings" = db !! "series_settings".
Proof.
  unfold playback_migrated. destruct (db !! "playback") as [t|].
  - destruct (has_column t "outro_triggered"); [done|]. by rewrite lookup_insert_ne.
  - by rewrite lookup_insert_ne.
Qed.

Lemma series_settings_migrated_playback db :
  series_settings_migrated db !! "playback" = db !! "playback".
Proof.
  unfold series_settings_migrated. destruct (db !! "series_settings") as [t|].
  - destruct (has_column t "credits_duration"); [done|]. by rewrite lookup_insert_ne.
  - by rewrite lookup_insert_ne.
Qed.

Lemma playback_migrated_idemp db :
  playback_migrated (playback_migrated db) = playback_migrated db.
Proof.
  unfold playback_migrated at 2. destruct (db !! "playback") as [t|] eqn:Ht.
  - destruct (has_column t "outro_triggered") eqn:E.
    + unfold playback_migrated. by rewrite Ht, E.
    + unfold playback_migrated. rewrite lookup_insert_eq.
      assert (has_column (Table (tbl_columns t ++ [Column "outro_triggered" (VInt 0) false])
                                (tbl_pkey t)
                                (insert "outro_triggered" (VInt 0) <$> tbl_rows t))
                         "outro_triggered" = true) as ->; [|by rewrite Ht, E].
      unfold has_column, column_names. apply bool_decide_eq_true. simpl.
      rewrite fmap_app. apply elem_of_app. right. by left.
  - unfold playback_migrated. by rewrite lookup_insert_eq, Ht.
Qed.

Lemma series_settings_migrated_idemp db :
  series_settings_migrated (series_settings_migrated db) = series_settings_migrated db.
Proof.
  unfold series_settings_migrated at 2.
  destruct (db !! "series_settings") as [t|] eqn:Ht.
  - destruct (has_column t "credits_duration") eqn:E.
    + unfold series_settings_migrated. by rewrite Ht, E.
    + unfold series_settings_migrated. rewrite lookup_insert_eq.
      assert (has_column (Table (tbl_columns t ++ [Column "credits_duration" VNull false])
                                (tbl_pkey t)
                                (insert "credits_duration" VNull <$> tbl_rows t))
                         "credits_duration" = true) as ->; [|by rewrite Ht, E].
      unfold has_column, column_names. apply bool_decide_eq_true. simpl.
      rewrite fmap_app. apply elem_of_app. right. by left.
  - unfold series_settings_migrated. by rewrite lookup_insert_eq, Ht.
Qed.

Lemma migrations_commute db :
  playback_migrated (series_settings_migrated db)
  = series_settings_migrated (playback_migrated db).
Proof.
  assert (playback_migrated (series_settings_migrated db)
          = match db !! "playback" with
            | None => <["playback" := Table playback_columns ["filename"] []]>
                        (series_settings_migrated db)
            | Some t =>
                if has_column t "outro_triggered" then series_settings_migrated db
                else <["playback" :=
                         Table (tbl_columns t ++ [Column "outro_triggered" (VInt 0) false])
                               (tbl_pkey t)
                               (insert "outro_triggered" (VInt 0) <$> tbl_rows t)]>
                       (series_settings_migrated db)
            end) as ->.
  { unfold playback_migrated. by rewrite series_settings_migrated_playback. }
  assert (series_settings_migrated (playback_migrated db)
          = match db !! "series_settings" with
            | None => <["series_settings" :=
                          Table series_settings_columns
                                ["series_prefix"; "series_suffix"] []]>
                        (playback_migrated db)
            | Some t =>
                if has_column t "credits_duration" then playback_migrated db
                else <["series_settings" :=
                         Table (tbl_columns t ++ [Column "credits_duration" VNull false])
                               (tbl_pkey t)
                               (insert "credits_duration" VNull <$> tbl_rows t)]>
                       (playback_migrated db)
            end) as ->.
  { unfold series_settings_migrated. by rewrite playback_migrated_settings. }
  unfold playback_migrated, series_settings_migrated.
  destruct (db !! "playback") as [tp|], (db !! "series_settings") as [ts|];
    repeat match goal with |- context [if ?b then _ else _] => destruct b end;
    try done; by rewrite insert_insert_ne.
Qed.

(** ** The shape of reachable stores is an invariant

    Every writer of either version preserves [store_ok], so every reachable
    store satisfies it. *)

Lemma store_ok_insert_playback db t' :
  store_ok db → playback_ok t' → store_ok (<["playback" := t']> db).
Proof.
  intros [Hp Hs] Ht'. split; intros t.
  - rewrite lookup_insert_eq. by intros [= <-].
  - rewrite lookup_insert_ne by discriminate. apply Hs.
Qed.

Lemma store_ok_insert_settings db t' :
  store_ok db → series_settings_ok t' → store_ok (<["series_settings" := t']> db).
Proof.
  intros [Hp Hs] Ht'. split; intros t.
  - rewrite lookup_insert_ne by discriminate. apply Hp.
  - rewrite lookup_insert_eq. by intros [= <-].
Qed.

Lemma store_ok_settings_step db db' :
  store_ok db → same_schema_step "series_settings" db db' → store_ok db'.
Proof.
  intros Hok [->|(t & rows' & Ht & ->)]; [done|].
  apply store_ok_insert_settings; [done|]. by apply Hok in Ht.
Qed.

Lemma playback_default_row t :
  playback_schema t →
  default_row t !!! "percent" = VNull ∧ default_row t !!! "series_prefix" = VNull.
Proof. intros [_ [H|[H|H]]]; unfold default_row; rewrite H; done. Qed.

Lemma playback_row_ok_add_column c v r :
  c ≠ "filename" → c ≠ "percent" → c ≠ "series_prefix" →
  playback_row_ok r → playback_row_ok (<[c := v]> r).
Proof.
  intros ? ? ? H. unfold playback_row_ok in *.
  by rewrite !lookup_total_insert_ne by done.
Qed.

Lemma playback_has_columns t cs :
  playback_schema t →
  forallb (λ c, bool_decide
                  (c ∈ ["filename"; "position"; "duration"; "percent";
                        "series_prefix"; "series_suffix"; "description"]))
          cs = true →
  has_columns t cs = true.
Proof.
  intros [_ Hc] Hsub. unfold has_columns. apply forallb_forall. intros c Hin.
  rewrite forallb_forall in Hsub. apply Hsub, bool_decide_eq_true in Hin.
  unfold has_column, column_names. apply bool_decide_eq_true.
  destruct Hc as [-> | [-> | ->]];
    repeat (apply elem_of_cons in Hin as [->|Hin]; [compute_done|]);
    by apply elem_of_nil in Hin.
Qed.

Lemma series_settings_has_columns t cs :
  series_settings_ok t →
  forallb (λ c, bool_decide
                  (c ∈ ["series_prefix"; "series_suffix"; "autoplay"; "skip_intro";
                        "skip_outro"; "intro_start"; "intro_end"; "description"]))
          cs = true →
  has_columns t cs = true.
Proof.
  intros [_ Hc] Hsub. unfold has_columns. apply forallb_forall. intros c Hin.
  rewrite forallb_forall in Hsub. apply Hsub, bool_decide_eq_true in Hin.
  unfold has_column, column_names. apply bool_decide_eq_true.
  destruct Hc as [-> | [-> | ->]];
    repeat (apply elem_of_cons in Hin as [->|Hin]; [compute_done|]);
    by apply elem_of_nil in Hin.
Qed.

Lemma series_settings_default_row t c :
  series_settings_ok t →
  c ∉ ["autoplay"; "skip_intro"; "skip_outro"] →
  default_row t !!! c = VNull.
Proof.
  intros [_ Hc] Hnotin. unfold default_row.
  destruct Hc as [-> | [-> | ->]]; simpl;
    repeat (rewrite lookup_total_insert; case_decide;
            [subst c; first [done|exfalso; apply Hnotin; compute_done]|]);
    exact (lookup_total_empty (M:=gmap string) c).
Qed.

Lemma series_settings_not_null_ok t r p s :
  series_settings_ok t →
  r !!! "series_prefix" = VText p →
  r !!! "series_suffix" = VText s →
  not_null_ok t r = true.
Proof.
  intros [_ Hc] Hp Hs. unfold not_null_ok.
  destruct Hc as [-> | [-> | ->]]; simpl; by rewrite Hp, Hs.
Qed.

Lemma upsert_rows_playback_ok r sets rows f :
  NoDup ((λ r, r !!! "filename") <$> rows) →
  Forall playback_row_ok rows →
  r !!! "filename" = VText f →
  playback_row_ok r →
  "filename" ∉ sets.*1 →
  (∀ r0, playback_row_ok r0 → playback_row_ok (assign sets r0)) →
  NoDup ((λ r, r !!! "filename") <$> upsert_rows ["filename"] r sets rows)
  ∧ Forall playback_row_ok (upsert_rows ["filename"] r sets rows).
Proof.
  intros Hnd Hall Hf Hr Hsets Hassign. unfold upsert_rows.
  destruct (existsb _ rows) eqn:E.
  - split.
    + rewrite <- list_fmap_compose.
      erewrite list_fmap_ext; [exact Hnd|]. intros i r0 _. unfold compose.
      destruct (key_match _ r r0); [|done]. by apply assign_lookup_total_ne.
    + apply Forall_fmap. eapply Forall_impl; [exact Hall|]. intros r0 Hr0.
      unfold compose. destruct (key_match _ r r0); auto.
  - split; [|apply Forall_app; split; [done|by constructor]].
    rewrite fmap_app. apply NoDup_app. split; [done|]. split; [|apply NoDup_singleton].
    intros v Hv Hv'. apply list_elem_of_singleton in Hv'. subst v.
    apply list_elem_of_fmap in Hv as (r0 & Heq & Hin).
    assert (existsb (key_match ["filename"] r) rows = true); [|congruence].
    apply existsb_exists. exists r0. split; [by apply list_elem_of_In|].
    unfold key_match. simpl. rewrite <- Heq, Hf. simpl. by rewrite bool_decide_eq_true_2.
Qed.

Lemma playback_upsert_ok vals target sets f db :
  store_ok db →
  (∀ t, playback_schema t →
        new_row t vals !!! "filename" = VText f ∧ playback_row_ok (new_row t vals)) →
  "filename" ∉ sets.*1 →
  (∀ r0, playback_row_ok r0 → playback_row_ok (assign sets r0)) →
  store_ok (try_except (insert_on_conflict_do_update "playback" vals target sets;;
                        commit;; mret true) (λ _, mret false) db).2.
Proof.
  intros Hok Hnew Hsets Hassign. rewrite upsert_call_eq.
  destruct (db !! "playback") as [t|] eqn:Ht; [|done].
  destruct (_ && _); [|done].
  destruct (forallb _ _); [|done].
  destruct (not_null_ok _ _); [|done]. simpl.
  apply store_ok_insert_playback; [done|].
  destruct Hok as [Hok _]. destruct (Hok t Ht) as ([Hpk Hcols] & Hnd & Hall).
  destruct (Hnew t (conj Hpk Hcols)) as [Hf Hr].
  split; [by split|]. simpl. rewrite Hpk.
  by apply (upsert_rows_playback_ok _ _ _ f).
Qed.

Lemma save_playback_store_ok f p d pc pre suf db :
  store_ok db → store_ok (save_playback f p d pc pre suf db).2.
Proof.
  intros Hok. unfold save_playback. apply (playback_upsert_ok _ _ _ f); [done|..].
  - intros t _. unfold new_row, playback_row_ok. simpl. row_lookup.
    split; [done|split; [by eexists|left; by eexists]].
  - compute_done.
  - intros r0 [Hf _]. unfold playback_row_ok. simpl. row_lookup.
    split; [done|left; by eexists].
Qed.

Lemma RELIS_save_playback_store_ok f p d pc pre suf db :
  store_ok db → store_ok (RELIS.save_playback f p d pc pre suf db).2.
Proof.
  intros Hok. unfold RELIS.save_playback. apply (playback_upsert_ok _ _ _ f); [done|..].
  - intros t _. unfold new_row, playback_row_ok. simpl. row_lookup.
    split; [done|split; [by eexists|left; by eexists]].
  - compute_done.
  - intros r0 [Hf _]. unfold playback_row_ok. simpl. row_lookup.
    split; [done|left; by eexists].
Qed.

Lemma set_outro_triggered_store_ok f tr db :
  store_ok db → store_ok (set_outro_triggered f tr db).2.
Proof.
  intros Hok. unfold set_outro_triggered. apply (playback_upsert_ok _ _ _ f); [done|..].
  - intros t Ht. destruct (playback_default_row t Ht) as [H1 H2].
    unfold new_row, playback_row_ok. simpl. row_lookup. rewrite H1, H2.
    split; [done|split; [by eexists|by right]].
  - compute_done.
  - intros r0 Hr0. simpl. by apply playback_row_ok_add_column.
Qed.

Lemma playback_migrated_store_ok db :
  store_ok db → store_ok (playback_migrated db).
Proof.
  intros Hok. unfold playback_migrated.
  destruct (db !! "playback") as [t|] eqn:Ht.
  - destruct Hok as [Hp Hs]. destruct (Hp t Ht) as ([Hpk Hcols] & Hnd & Hall).
    destruct Hcols as [Hc|[Hc|Hc]];
      rewrite (has_column_eq t _ _ Hc);
      (change (bool_decide _) with true || change (bool_decide _) with false);
      cbv iota; [by split| |by split].
    apply store_ok_insert_playback; [by split|].
    split; [split; [done|]; right; right; simpl; by rewrite Hc|]. simpl. split.
    + rewrite <- list_fmap_compose. erewrite list_fmap_ext; [exact Hnd|].
      intros i r _. unfold compose. by rewrite lookup_total_insert_ne.
    + apply Forall_fmap. eapply Forall_impl; [exact Hall|]. intros r Hr.
      by apply playback_row_ok_add_column.
  - apply store_ok_insert_playback; [done|].
    split; [split; [done|by left]|]. simpl. split; constructor.
Qed.

Lemma series_settings_migrated_store_ok db :
  store_ok db → store_ok (series_settings_migrated db).
Proof.
  intros Hok. unfold series_settings_migrated.
  destruct (db !! "series_settings") as [t|] eqn:Ht.
  - destruct Hok as [Hp Hs]. destruct (Hs t Ht) as [Hpk Hcols].
    destruct Hcols as [Hc|[Hc|Hc]];
      rewrite (has_column_eq t _ _ Hc);
      (change (bool_decide _) with true || change (bool_decide _) with false);
      cbv iota; [by split| |by split].
    apply store_ok_insert_settings; [by split|].
    split; [done|]. right; right; simpl; by rewrite Hc.
  - apply store_ok_insert_settings; [done|]. split; [done|by left].
Qed.

Lemma RELIS_init_db_store_ok db : store_ok db → store_ok (RELIS.init_db db).2.
Proof.
  intros Hok. rewrite RELIS_init_db_eq. simpl.
  assert (store_ok match db !! "playback" with
                   | Some _ => db
                   | None => <["playback" := Table RELIS.playback_columns ["filename"] []]> db
                   end) as Hok1.
  { destruct (db !! "playback"); [done|].
    apply store_ok_insert_playback; [done|].
    split; [split; [done|right; by left]|]. simpl. split; constructor. }
  destruct (_ !! "series_settings"); [done|].
  apply store_ok_insert_settings; [done|]. split; [done|right; by left].
Qed.

Lemma perform_store_ok c db : store_ok db → store_ok (perform c db).2.
Proof.
  intros Hok. destruct c; simpl.
  - rewrite init_db_eq. simpl.
    by apply series_settings_migrated_store_ok, playback_migrated_store_ok.
  - by apply save_playback_store_ok.
  - by apply set_outro_triggered_store_ok.
  - eapply store_ok_settings_step; [done|apply set_credits_duration_step].
  - eapply store_ok_settings_step; [done|apply upsert_call_step].
  - eapply store_ok_settings_step; [done|apply set_intro_markers_step].
  - eapply store_ok_settings_step; [done|apply set_outro_marker_step].
  - eapply store_ok_settings_step; [done|apply clear_skip_markers_step].
  - by apply RELIS_init_db_store_ok.
  - by apply RELIS_save_playback_store_ok.
  - eapply store_ok_settings_step; [done|apply upsert_call_step].
Qed.

Lemma reachable_store_ok db : reachable db → store_ok db.
Proof.
  induction 1 as [|db c _ IH]; [|by apply perform_store_ok].
  split; intros t; by rewrite lookup_empty.
Qed.

Lemma reachable_after calls : reachable (after calls ∅).
Proof.
  unfold after. induction calls as [|c calls IH] using rev_ind; [constructor|].
  rewrite foldl_snoc. by constructor.
Qed.

Lemma reachable_fresh_db : reachable fresh_db.
Proof. exact (reachable_step ∅ Init_db reachable_empty). Qed.

(** ** C1: the derived status *)

(** C1, as stated, at percent -1: the status is absent although the percent
    is not 0.  Nothing between the command line and [save_playback] rejects a
    negative percent. *)
Lemma calculate_status_absent_below_zero :
  ¬ (_calculate_status (-1) = None ↔ (-1 = 0)%Z).
Proof. intros [H _]. specialize (H eq_refl). discriminate H. Qed.

(** C1 (amended): for every integer percent, the status is 'watched' exactly
    when percent >= 90, 'partial' exactly when 1 <= percent <= 89, and absent
    exactly when percent <= 0. *)
Theorem calculate_status_spec (percent : Z) :
  (_calculate_status percent = Some "watched" ↔ (90 ≤ percent)%Z)
  ∧ (_calculate_status percent = Some "partial" ↔ (1 ≤ percent ≤ 89)%Z)
  ∧ (_calculate_status percent = None ↔ (percent ≤ 0)%Z).
Proof.
  unfold _calculate_status.
  destruct (Z.leb_spec 90 percent); [|destruct (Z.leb_spec 1 percent)];
    repeat split; intros; try discriminate; try lia; reflexivity.
Qed.

(** ** C2: [save_playback] is an idempotent upsert keyed by the file name *)

Lemma save_playback_idemp db f p d pc pre suf :
  store_ok db →
  save_playback f p d pc pre suf (save_playback f p d pc pre suf db).2
  = save_playback f p d pc pre suf db.
Proof.
  intros [Hok _]. unfold save_playback.
  apply (upsert_call_idemp "playback" ("filename", VText f) ["filename"]);
    [|compute_done].
  intros t Ht. destruct (Hok t Ht) as ([-> _] & _). split.
  - intros k Hk. apply list_elem_of_singleton in Hk as ->. compute_done.
  - apply (key_match_filename _ _ f); unfold new_row; simpl; by row_lookup.
Qed.

Lemma save_playback_current db f p d pc pre suf t :
  db !! "playback" = Some t →
  tbl_columns t = playback_columns →
  tbl_pkey t = ["filename"] →
  int64 p = true → int64 d = true → int64 pc = true →
  save_playback f p d pc pre suf db
  = (Ok true,
     <["playback" :=
         Table (tbl_columns t) (tbl_pkey t)
           (upsert_rows (tbl_pkey t)
              (new_row t
                 [ ("filename", VText f); ("position", VInt p);
                   ("duration", VInt d); ("percent", VInt pc);
                   ("status", opt_text (_calculate_status pc));
                   ("series_prefix", opt_text pre);
                   ("series_suffix", opt_text suf) ])
              [ ("position", VInt p); ("duration", VInt d); ("percent", VInt pc);
                ("status", opt_text (_calculate_status pc));
                ("series_prefix", opt_text pre); ("series_suffix", opt_text suf) ]
              (tbl_rows t))]> db).
Proof.
  intros Ht Hc Hpk Hp Hd Hpc. unfold save_playback. rewrite upsert_call_eq, Ht.
  assert (∀ vals : list (string * value), not_null_ok t (new_row t vals) = true) as ->.
  { intros vals. unfold not_null_ok. by rewrite Hc. }
  rewrite (forallb_bindable (_ ++ _)) by bindable.
  unfold has_columns, has_column, column_names. rewrite Hc, Hpk. done.
Qed.

(** C2 (the code at the failing input): on the store of a 1.0.0 installation
    that 1.2.0 has opened, save_playback("a.mkv", 10, 100, 10) and then
    save_playback("a.mkv", 50, 100, 50) both return False and leave the store
    as it was, so that no row exists for "a.mkv" afterwards: [init_db] has
    left [playback] without the column [status] that [save_playback]
    writes. *)
Theorem save_playback_twice_on_upgraded_store :
  upgraded_db = after [ RELIS_init_db; Init_db ] ∅
  ∧ save_playback "a.mkv" 10 100 10 None None upgraded_db = (Ok false, upgraded_db)
  ∧ save_playback "a.mkv" 50 100 50 None None upgraded_db = (Ok false, upgraded_db)
  ∧ filter (λ r, r !!! "filename" = VText "a.mkv")
      (playback_rows
         (after [ Save_playback "a.mkv" 10 100 10 None None;
                  Save_playback "a.mkv" 50 100 50 None None ] upgraded_db))
    = [].
Proof. repeat split; vm_compute; reflexivity. Qed.

(** What holds of the claim.  On every reachable store, calling
    [save_playback] twice with the same arguments leaves the same store (and
    returns the same) as calling it once; on a store whose [playback] table
    has the columns of 1.2.0, save_playback("a.mkv", 10, 100, 10) then
    save_playback("a.mkv", 50, 100, 50) both succeed and leave exactly one row
    for "a.mkv", with position 50, percent 50 and status 'partial'; and no
    reachable store holds two playback rows with the same file name. *)
Theorem save_playback_idempotent_upsert db :
  reachable db →
  (∀ f p d pc pre suf,
     save_playback f p d pc pre suf (save_playback f p d pc pre suf db).2
     = save_playback f p d pc pre suf db)
  ∧ (playback_current db →
     (save_playback "a.mkv" 10 100 10 None None db).1 = Ok true
     ∧ (save_playback "a.mkv" 50 100 50 None None
          (save_playback "a.mkv" 10 100 10 None None db).2).1 = Ok true
     ∧ ∃ r,
       filter (λ r, r !!! "filename" = VText "a.mkv")
         (playback_rows
            (after [ Save_playback "a.mkv" 10 100 10 None None;
                     Save_playback "a.mkv" 50 100 50 None None ] db))
       = [r]
       ∧ r !!! "position" = VInt 50
       ∧ r !!! "percent" = VInt 50
       ∧ r !!! "status" = VText "partial")
  ∧ NoDup ((λ r, r !!! "filename") <$> playback_rows db).
Proof.
  intros Hreach. apply reachable_store_ok in Hreach as Hok.
  assert (NoDup ((λ r, r !!! "filename") <$> playback_rows db)) as Hnd.
  { unfold playback_rows. destruct (db !! "playback") as [t|] eqn:Ht; [|constructor].
    destruct Hok as [Hok _]. by destruct (Hok t Ht) as (_ & Hnd & _). }
  split; [intros; by apply save_playback_idemp|]. split; [|done].
  intros (t & Ht & Hc). destruct Hok as [Hok _]. destruct (Hok t Ht) as ([Hpk _] & _).
  pose proof (filter_at_most_one (λ r : gmap string value, r !!! "filename")
                (VText "a.mkv") _ Hnd) as Hone.
  cbv beta in Hone. unfold playback_rows in Hone. rewrite Ht in Hone.
  unfold after. simpl.
  rewrite (save_playback_current db _ _ _ _ _ _ t Ht Hc Hpk) by done. cbn [snd].
  erewrite !save_playback_current; [|apply lookup_insert_eq|exact Hc|exact Hpk|done..].
  cbn [fst snd].
  do 2 (split; [done|]).
  unfold playback_rows. rewrite lookup_insert_eq. cbn [tbl_rows tbl_pkey tbl_columns].
  rewrite Hpk.
  rewrite !upsert_rows_filter;
    [|unfold new_row; simpl; by row_lookup|compute_done
     |unfold new_row; simpl; by row_lookup|compute_done].
  destruct (filter _ (tbl_rows t)) as [|r0 [|r1 l]]; [| |simpl in Hone; lia].
  - eexists. split; [done|]. unfold new_row. simpl. by row_lookup.
  - eexists. split; [done|]. simpl. by row_lookup.
Qed.

Lemma save_playback_idempotent_upsert_witness :
  reachable fresh_db
  ∧ playback_current fresh_db
  ∧ (save_playback "a.mkv" 10 100 10 None None fresh_db).1 = Ok true
  ∧ (save_playback "a.mkv" 50 100 50 None None
       (save_playback "a.mkv" 10 100 10 None None fresh_db).2).1 = Ok true
  ∧ ∃ r,
      filter (λ r, r !!! "filename" = VText "a.mkv")
        (playback_rows
           (after [ Save_playback "a.mkv" 10 100 10 None None;
                    Save_playback "a.mkv" 50 100 50 None None ] fresh_db))
      = [r]
      ∧ r !!! "position" = VInt 50
      ∧ r !!! "percent" = VInt 50
      ∧ r !!! "status" = VText "partial".
Proof.
  assert (playback_current fresh_db) as Hc.
  { exists (Table playback_columns ["filename"] []). split; vm_compute; reflexivity. }
  split; [exact reachable_fresh_db|]. split; [exact Hc|].
  exact (proj1 (proj2 (save_playback_idempotent_upsert fresh_db reachable_fresh_db)) Hc).
Defined.

(** ** C3: intro markers, then the outro marker, on a new installation *)

(** [set_outro_marker] fails, for every series and every start, on a store
    whose [series_settings] table has no column [outro_start]: the table that
    [init_db] creates. *)
Lemma set_outro_marker_without_outro_start p s start db :
  (∀ t, db !! "series_settings" = Some t → has_column t "outro_start" = false) →
  set_outro_marker p s start db = (Ok false, db).
Proof.
  intros Hmiss. unfold set_outro_marker.
  destruct (start <? 0)%Z; [done|].
  unfold try_except at 1, mbind at 1, Sql_bind at 1.
  destruct (series_settings_exist_total p s db) as [b ->].
  apply (insert_or_update_missing_column (negb b)).
  intros t Ht. specialize (Hmiss t Ht).
  destruct b; apply (has_columns_missing t "outro_start"); try done; compute_done.
Qed.

(** C3 (the code at the failing input): on the store of a new installation,
    set_intro_markers("p", "s", 10, 20) succeeds, and set_outro_marker("p", "s",
    300) then returns False and leaves the store as it was, because the table
    created by [init_db] has [credits_duration] and no [outro_start]. *)
Theorem set_outro_marker_fails_on_fresh_store :
  let db1 := (set_intro_markers "p" "s" 10 20 fresh_db).2 in
  (set_intro_markers "p" "s" 10 20 fresh_db).1 = Ok true
  ∧ set_outro_marker "p" "s" 300 db1 = (Ok false, db1)
  ∧ (get_skip_markers "p" "s" db1).1 = Ok (Some (VInt 10, VInt 20, VNull))
  ∧ (column_names <$> db1 !! "series_settings")
    = Some ["series_prefix"; "series_suffix"; "autoplay"; "skip_intro";
            "skip_outro"; "intro_start"; "intro_end"; "credits_duration";
            "description"].
Proof. cbv zeta. repeat split; vm_compute; reflexivity. Qed.

(** On the store of a 1.0.0 installation migrated by 1.2.0, which keeps the
    column [outro_start], the same two calls succeed and leave 10, 20 and 300
    together. *)
Lemma set_outro_marker_on_upgraded_store :
  let db1 := (set_intro_markers "p" "s" 10 20 upgraded_db).2 in
  let db2 := (set_outro_marker "p" "s" 300 db1).2 in
  (set_intro_markers "p" "s" 10 20 upgraded_db).1 = Ok true
  ∧ (set_outro_marker "p" "s" 300 db1).1 = Ok true
  ∧ (fmap (M := list)
       (λ r, (r !!! "intro_start", r !!! "intro_end", r !!! "outro_start"))
       <$> (tbl_rows <$> db2 !! "series_settings"))
    = Some [(VInt 10, VInt 20, VInt 300)].
Proof. cbv zeta. repeat split; vm_compute; reflexivity. Qed.

(** ** C4: [clear_skip_markers] *)

(** Scopes 'outro' and 'all' fail on a store whose [series_settings] table has
    no column [outro_start]. *)
Lemma clear_skip_markers_without_outro_start p s mt db :
  (∀ t, db !! "series_settings" = Some t → has_column t "outro_start" = false) →
  mt = "outro" ∨ mt = "all" →
  clear_skip_markers p s mt db = (Ok false, db).
Proof.
  intros Hmiss [-> | ->]; unfold clear_skip_markers; simpl;
    apply (insert_or_update_missing_column false []);
    intros t Ht; specialize (Hmiss t Ht);
    apply (has_columns_missing t "outro_start"); try done; compute_done.
Qed.

(** Any scope other than 'intro', 'outro' and 'all' fails and leaves the store
    as it was. *)
Lemma clear_skip_markers_unknown_scope p s mt db :
  mt ≠ "intro" → mt ≠ "outro" → mt ≠ "all" →
  clear_skip_markers p s mt db = (Ok false, db).
Proof.
  intros H1 H2 H3. unfold clear_skip_markers.
  by rewrite !bool_decide_eq_false_2 by done.
Qed.

(** C4 (the code at the failing input): on a new installation holding the
    settings row ("p", "s") with markers 10, 20 and credits 30, scopes 'outro'
    and 'all' return False and change nothing; with 'all' the intro markers are
    still 10 and 20. *)
Theorem clear_skip_markers_fails_on_fresh_store :
  let db := after [ Init_db;
                    Save_series_settings "p" "s" 1 1 1
                      (Some 10%Z) (Some 20%Z) (Some 30%Z) ] ∅ in
  clear_skip_markers "p" "s" "outro" db = (Ok false, db)
  ∧ clear_skip_markers "p" "s" "all" db = (Ok false, db)
  ∧ (get_skip_markers "p" "s" db).1 = Ok (Some (VInt 10, VInt 20, VInt 30)).
Proof. cbv zeta. repeat split; vm_compute; reflexivity. Qed.

(** On a migrated 1.0.0 store the three scopes succeed and clear what the
    claim says. *)
Lemma clear_skip_markers_on_upgraded_store :
  let db := after [ Set_intro_markers "p" "s" 10 20;
                    Set_outro_marker "p" "s" 300 ] upgraded_db in
  let markers db' :=
    fmap (M := list)
      (λ r, (r !!! "intro_start", r !!! "intro_end", r !!! "outro_start"))
      <$> (tbl_rows <$> db' !! "series_settings") in
  (clear_skip_markers "p" "s" "outro" db).1 = Ok true
  ∧ markers (clear_skip_markers "p" "s" "outro" db).2 = Some [(VInt 10, VInt 20, VNull)]
  ∧ (clear_skip_markers "p" "s" "all" db).1 = Ok true
  ∧ markers (clear_skip_markers "p" "s" "all" db).2 = Some [(VNull, VNull, VNull)]
  ∧ (clear_skip_markers "p" "s" "intro" db).1 = Ok true
  ∧ markers (clear_skip_markers "p" "s" "intro" db).2 = Some [(VNull, VNull, VInt 300)].
Proof. cbv zeta. repeat split; vm_compute; reflexivity. Qed.

(** ** C5: [set_intro_markers] *)

Lemma set_intro_markers_valid p s start end_ db t :
  (0 ≤ start < end_)%Z →
  db !! "series_settings" = Some t →
  series_settings_ok t →
  set_intro_markers p s start end_ db
  = try_except
      ((if negb (bool_decide (Exists (is_key p s) (tbl_rows t)))
        then insert_into "series_settings"
               [ ("series_prefix", VText p); ("series_suffix", VText s);
                 ("autoplay", VInt 0); ("skip_intro", VInt 0);
                 ("skip_outro", VInt 0);
                 ("intro_start", VInt start); ("intro_end", VInt end_) ]
        else update_set_where "series_settings"
               [ ("intro_start", VInt start); ("intro_end", VInt end_) ]
               [ ("series_prefix", VText p); ("series_suffix", VText s) ]);;
       commit;; mret true)
      (λ _, mret false) db.
Proof.
  intros Hgood Ht Hok.
  assert (has_columns t ["series_prefix"; "series_suffix"] = true) as Hkeycols
    by (by apply series_settings_has_columns).
  unfold set_intro_markers.
  destruct (Z.ltb_spec start 0); [lia|].
  destruct (Z.ltb_spec end_ 0); [lia|].
  destruct (Z.leb_spec end_ start); [lia|]. cbn [orb].
  unfold try_except at 1, mbind at 1, Sql_bind at 1.
  by rewrite (series_settings_exist_true p s db t Ht Hkeycols).
Qed.

(** An end that cannot be bound: the validation passes, the statement is
    prepared, and the binding raises. *)
Lemma set_intro_markers_overflow p s start end_ db t :
  (0 ≤ start < end_)%Z →
  db !! "series_settings" = Some t →
  series_settings_ok t →
  int64 end_ = false →
  set_intro_markers p s start end_ db = (Raise OverflowError, db).
Proof.
  intros Hgood Ht Hok Hend.
  rewrite (set_intro_markers_valid p s start end_ db t Hgood Ht Hok).
  destruct (negb (bool_decide _));
    unfold try_except, insert_into, update_set_where, mbind, Sql_bind;
    rewrite Ht.
  - rewrite (series_settings_has_columns t) by done.
    cbn [fmap list_fmap snd forallb bindable]. rewrite Hend.
    by rewrite !andb_false_r.
  - rewrite !(series_settings_has_columns t) by done.
    cbn [fmap list_fmap snd app forallb bindable]. rewrite Hend.
    by rewrite !andb_false_r.
Qed.




(** ** C6: [get_playback_batch] *)

Lemma foldl_fill_lookup (fs : list string) (result : gmap string value) k :
  foldl (λ result filename,
           match result !! filename with
           | Some _ => result
           | None => <[filename := VInt 0]> result
           end) result fs !! k
  = match result !! k with
    | Some v => Some v
    | None => if decide (k ∈ fs) then Some (VInt 0) else None
    end.
Proof.
  revert result. induction fs as [|f fs IH]; intros result; simpl.
  - by destruct (result !! k).
  - rewrite IH. destruct (result !! f) eqn:Ef.
    + destruct (result !! k) eqn:Ek; [done|].
      destruct (decide (k ∈ fs)), (decide (k ∈ f :: fs)); try done.
      * exfalso. apply n. by right.
      * apply elem_of_cons in e as [->|?]; [congruence|done].
    + destruct (decide (f = k)) as [->|Hne].
      * rewrite lookup_insert_eq, Ef. rewrite decide_True by left. done.
      * rewrite lookup_insert_ne by done. destruct (result !! k); [done|].
        destruct (decide (k ∈ fs)), (decide (k ∈ f :: fs)); try done.
        -- exfalso. apply n. by right.
        -- apply elem_of_cons in e as [->|?]; [congruence|done].
Qed.

Lemma foldl_zero_lookup (fs : list string) (result : gmap string value) k :
  k ∈ fs →
  foldl (λ result filename, <[filename := VInt 0]> result) result fs !! k
  = Some (VInt 0).
Proof.
  induction fs as [|f fs IH] using rev_ind; [by intros ?%elem_of_nil|].
  rewrite foldl_snoc. intros [Hin|Hin%list_elem_of_singleton]%elem_of_app.
  - destruct (decide (f = k)) as [->|Hne]; [by rewrite lookup_insert_eq|].
    rewrite lookup_insert_ne by done. by apply IH.
  - subst. by rewrite lookup_insert_eq.
Qed.

Lemma foldl_zero_lookup_None (fs : list string) (acc : gmap string value) k :
  k ∉ fs → acc !! k = None →
  foldl (λ result filename, <[filename := VInt 0]> result) acc fs !! k = None.
Proof.
  revert acc. induction fs as [|f fs IH]; intros acc Hk Hacc; simpl; [done|].
  apply not_elem_of_cons in Hk as [? ?]. apply IH; [done|].
  by rewrite lookup_insert_ne.
Qed.

Lemma existsb_sql_eq_text v (paths : list string) :
  existsb (sql_eq v) (VText <$> paths) = true ↔ ∃ path, path ∈ paths ∧ v = VText path.
Proof.
  rewrite existsb_exists. split.
  - intros (x & Hin & Hx). apply list_elem_of_In, list_elem_of_fmap in Hin as (path & -> & Hin).
    exists path. split; [done|]. by apply sql_eq_text.
  - intros (path & Hin & ->). exists (VText path). split.
    + apply list_elem_of_In, list_elem_of_fmap. eauto.
    + by apply sql_eq_text.
Qed.

Lemma get_playback_batch_no_table directory filenames db :
  db !! "playback" = None →
  filenames ≠ [] →
  get_playback_batch directory filenames db
  = (Ok (foldl (λ result filename, <[filename := VInt 0]> result) ∅ filenames), db).
Proof.
  intros Ht Hne. unfold get_playback_batch.
  rewrite bool_decide_eq_false_2 by done.
  unfold try_except, select_where_in, mbind, Sql_bind. by rewrite Ht.
Qed.

Lemma get_playback_batch_table directory filenames db t :
  db !! "playback" = Some t →
  playback_schema t →
  filenames ≠ [] →
  get_playback_batch directory filenames db
  = (Ok (foldl (λ result filename,
                  match result !! filename with
                  | Some _ => result
                  | None => <[filename := VInt 0]> result
                  end)
               (foldl (λ result r,
                         <[basename (text_of (r !!! "filename")) := r !!! "percent"]> result)
                      ∅
                      (filter (λ r, existsb (sql_eq (r !!! "filename"))
                                      (VText <$> ((λ filename, directory +:+ "/" +:+ filename)
                                                    <$> filenames)) = true)
                              (tbl_rows t)))
               filenames), db).
Proof.
  intros Ht Hs Hne. unfold get_playback_batch.
  rewrite bool_decide_eq_false_2 by done.
  unfold try_except, select_where_in, mbind, Sql_bind. rewrite Ht.
  rewrite (playback_has_columns t ["filename"; "percent"] Hs) by done.
  pose proof (playback_has_columns t ["filename"] Hs eq_refl) as Hf.
  unfold has_columns in Hf. simpl in Hf. rewrite andb_true_r in Hf. rewrite Hf.
  done.
Qed.

Lemma foldl_ins_lookup (key : gmap string value → string)
    (rows : list (gmap string value)) (acc : gmap string value) k :
  foldl (λ result r, <[key r := r !!! "percent"]> result) acc rows !! k
  = match last (filter (λ r, key r = k) rows) with
    | Some r => Some (r !!! "percent")
    | None => acc !! k
    end.
Proof.
  induction rows as [|r rows IH] using rev_ind; [done|].
  rewrite foldl_snoc, filter_app, filter_cons, filter_nil.
  destruct (decide (key r = k)) as [<-|Hne].
  - by rewrite lookup_insert_eq, last_snoc.
  - by rewrite lookup_insert_ne, app_nil_r.
Qed.

(** SQL does not fix the order in which the rows of the [IN] query come back.
    When no requested filename contains "/", the rows selected have pairwise
    different last path components, and the dictionary built from them does
    not depend on their order. *)
Lemma foldl_ins_permutation (key : gmap string value → string)
    (rows rows' : list (gmap string value)) (acc : gmap string value) :
  rows ≡ₚ rows' →
  NoDup (key <$> rows) →
  foldl (λ result r, <[key r := r !!! "percent"]> result) acc rows
  = foldl (λ result r, <[key r := r !!! "percent"]> result) acc rows'.
Proof.
  intros Hperm Hnd. apply map_eq. intros k. rewrite !foldl_ins_lookup.
  assert (filter (λ r, key r = k) rows = filter (λ r, key r = k) rows') as ->; [|done].
  pose proof (filter_at_most_one key k rows Hnd) as Hlen.
  assert (filter (λ r, key r = k) rows ≡ₚ filter (λ r, key r = k) rows') as Hf
    by (by rewrite Hperm).
  destruct (filter (λ r, key r = k) rows) as [|x [|y l]]; [| |simpl in Hlen; lia].
  - by apply Permutation_nil_l in Hf.
  - by apply Permutation_singleton_l in Hf.
Qed.

Lemma selected_basenames_NoDup directory filenames (rows : list (gmap string value)) :
  Forall (λ f, contains "/" f = false) filenames →
  NoDup ((λ r, r !!! "filename") <$> rows) →
  NoDup ((λ r, basename (text_of (r !!! "filename")))
           <$> filter (λ r, existsb (sql_eq (r !!! "filename"))
                              (VText <$> ((λ filename, directory +:+ "/" +:+ filename)
                                            <$> filenames)) = true) rows).
Proof.
  intros Hfree Hnd. rewrite Forall_forall in Hfree.
  apply NoDup_fmap_2_strong.
  - intros r1 r2 [(p1 & Hp1 & Hr1)%existsb_sql_eq_text Hin1]%list_elem_of_filter
                 [(p2 & Hp2 & Hr2)%existsb_sql_eq_text Hin2]%list_elem_of_filter.
    apply list_elem_of_fmap in Hp1 as (g1 & -> & Hg1).
    apply list_elem_of_fmap in Hp2 as (g2 & -> & Hg2).
    rewrite Hr1, Hr2. simpl. rewrite !basename_join by auto. intros ->.
    apply list_elem_of_lookup in Hin1 as [i Hi]. apply list_elem_of_lookup in Hin2 as [j Hj].
    assert (i = j) as ->; [|congruence].
    eapply NoDup_lookup; [exact Hnd| |]; rewrite list_lookup_fmap.
    + by rewrite Hi.
    + rewrite Hj. simpl. congruence.
  - apply NoDup_filter. by eapply NoDup_fmap_1.
Qed.

(** C6 (the code at the failing input): at directory "d" and filenames
    ["x"; "a/x"] on a store that holds only "d/a/x" (at 50 percent), no record
    is stored under "d/x", yet "x" is reported at 50, because the match for
    "a/x" is filed under its last path component; "a/x", whose record is
    stored, is reported at 0. *)
Theorem get_playback_batch_basename_collision :
  let db := after [ Init_db; Save_playback "d/a/x" 50 100 50 None None ] ∅ in
  (λ r, r !!! "filename") <$> playback_rows db = [VText "d/a/x"]
  ∧ Forall (λ r, r !!! "filename" ≠ VText ("d" +:+ "/" +:+ "x")) (playback_rows db)
  ∧ get_playback_percent "d/a/x" db = (Ok (VInt 50), db)
  ∧ get_playback_batch "d" ["x"; "a/x"] db
    = (Ok (<["x" := VInt 50]> (<["a/x" := VInt 0]> ∅)), db).
Proof.
  split; [vm_compute; reflexivity|]. split; [compute_done|].
  split; vm_compute; reflexivity.
Qed.

(** What holds of the claim.  On every reachable store, for every directory
    and every list of requested filenames, [get_playback_batch] returns a map
    with an entry for every requested filename.  A requested filename maps to
    0 when no record is stored under the joined path
    directory + "/" + g of any requested g whose last path component it is;
    so does every requested filename that contains "/".  A requested filename
    without "/" that is the last path component of no other requested
    filename maps to the percent of the record stored under its joined path.
    When no requested filename contains "/", the map has no other entry. *)
Theorem get_playback_batch_spec db directory filenames :
  reachable db →
  ∃ result,
    get_playback_batch directory filenames db = (Ok result, db)
    ∧ (∀ f, f ∈ filenames → is_Some (result !! f))
    ∧ (∀ f, f ∈ filenames →
         ((∀ g r, g ∈ filenames → basename g = f → r ∈ playback_rows db →
                  r !!! "filename" ≠ VText (directory +:+ "/" +:+ g)) →
          result !! f = Some (VInt 0))
         ∧ (contains "/" f = true → result !! f = Some (VInt 0))
         ∧ (contains "/" f = false →
            (∀ g, g ∈ filenames → basename g = f → g = f) →
            ∀ r, r ∈ playback_rows db →
                 r !!! "filename" = VText (directory +:+ "/" +:+ f) →
                 result !! f = Some (r !!! "percent")))
    ∧ (Forall (λ f, contains "/" f = false) filenames →
       ∀ k, is_Some (result !! k) → k ∈ filenames).
Proof.
  intros Hreach. apply reachable_store_ok in Hreach as [Hok _].
  destruct (decide (filenames = [])) as [->|Hne].
  { exists ∅. unfold get_playback_batch. simpl. split; [done|].
    split; [by intros f ?%elem_of_nil|]. split; [by intros f ?%elem_of_nil|].
    intros _ k [v Hv]. by rewrite lookup_empty in Hv. }
  unfold playback_rows. destruct (db !! "playback") as [t|] eqn:Ht.
  2:{ eexists. split; [by apply get_playback_batch_no_table|].
      split; [intros f Hf; by rewrite foldl_zero_lookup|]. split.
      - intros f Hf. split; [intros _; by rewrite foldl_zero_lookup|].
        split; [intros _; by rewrite foldl_zero_lookup|].
        by intros _ _ r ?%elem_of_nil.
      - intros _ k [v Hv]. destruct (decide (k ∈ filenames)) as [|Hk]; [done|].
        by rewrite foldl_zero_lookup_None in Hv. }
  destruct (Hok t eq_refl) as (Hs & Hnd & _).
  eexists. split; [by apply get_playback_batch_table|].
  set (paths := (λ filename, directory +:+ "/" +:+ filename) <$> filenames).
  set (key := λ r : gmap string value, basename (text_of (r !!! "filename"))).
  set (selected := filter (λ r, existsb (sql_eq (r !!! "filename")) (VText <$> paths) = true)
                          (tbl_rows t)).
  assert (∀ r, existsb (sql_eq (r !!! "filename")) (VText <$> paths) = true →
               ∃ g, g ∈ filenames
                    ∧ r !!! "filename" = VText (directory +:+ "/" +:+ g)
                    ∧ key r = basename g) as Hkey.
  { intros r (path & Hin & Hr)%existsb_sql_eq_text.
    apply list_elem_of_fmap in Hin as (g & -> & Hg). exists g.
    split; [done|]. split; [done|]. unfold key. rewrite Hr. simpl.
    apply basename_join_any. }
  assert (∀ f, f ∈ filenames →
               (∀ g r, g ∈ filenames → basename g = f → r ∈ tbl_rows t →
                       r !!! "filename" ≠ VText (directory +:+ "/" +:+ g)) →
               foldl (λ result filename,
                        match result !! filename with
                        | Some _ => result
                        | None => <[filename := VInt 0]> result
                        end)
                     (foldl (λ (result : gmap string value) r,
                               <[key r := r !!! "percent"]> result) ∅ selected)
                     filenames !! f
               = Some (VInt 0)) as Hzero.
  { intros f Hf Hnone. rewrite foldl_fill_lookup, (foldl_ins_lookup key).
    rewrite filter_none; [simpl; by rewrite lookup_empty, decide_True|].
    intros r [Hsel Hin]%list_elem_of_filter Hb.
    destruct (Hkey r Hsel) as (g & Hg & Hr & Hbg).
    apply (Hnone g r); [done|congruence|done|done]. }
  split.
  { intros f Hf. rewrite foldl_fill_lookup. destruct (_ !! f); [done|].
    by rewrite decide_True. }
  split.
  - intros f Hf. split; [by apply Hzero|]. split.
    + intros Hslash. apply Hzero; [done|]. intros g r _ Hb.
      rewrite <- Hb, basename_no_sep in Hslash. discriminate Hslash.
    + intros Hslash Hown r Hin Hr.
      fold key. rewrite foldl_fill_lookup, (foldl_ins_lookup key).
      assert (filter (λ r, key r = f) selected
              = filter (λ r, r !!! "filename" = VText (directory +:+ "/" +:+ f))
                       (tbl_rows t)) as ->.
      { unfold selected. rewrite list_filter_filter. apply list_filter_iff.
        intros r0. split.
        - intros [Hb Hsel]. destruct (Hkey r0 Hsel) as (g & Hg & Hr0 & Hbg).
          rewrite Hr0. do 3 f_equal. apply Hown; [done|congruence].
        - intros Hr0. split.
          + unfold key. rewrite Hr0. simpl. by apply basename_join.
          + apply existsb_sql_eq_text. eexists. split; [|done].
            apply list_elem_of_fmap. eauto. }
      pose proof (filter_at_most_one (λ r : gmap string value, r !!! "filename")
                    (VText (directory +:+ "/" +:+ f)) (tbl_rows t) Hnd) as Hone.
      cbv beta in Hone.
      assert (r ∈ filter (λ r, r !!! "filename" = VText (directory +:+ "/" +:+ f))
                         (tbl_rows t)) as Hrf by (by apply list_elem_of_filter).
      destruct (filter (λ r, r !!! "filename" = VText (directory +:+ "/" +:+ f))
                       (tbl_rows t)) as [|r0 [|r1 l]];
        [by apply elem_of_nil in Hrf| |simpl in Hone; lia].
      apply list_elem_of_singleton in Hrf as ->. done.
  - intros Hfree k [v Hv]. rewrite Forall_forall in Hfree.
    fold key in Hv. rewrite foldl_fill_lookup, (foldl_ins_lookup key) in Hv.
    destruct (last (filter (λ r, key r = k) selected)) as [r|] eqn:El.
    + apply last_Some_elem_of, list_elem_of_filter in El as [Hb Hin].
      apply list_elem_of_filter in Hin as [Hsel _].
      destruct (Hkey r Hsel) as (g & Hg & _ & Hbg).
      assert (basename g = g) as Hgg.
      { unfold basename. by rewrite split_without_sep by auto. }
      congruence.
    + rewrite lookup_empty in Hv. destruct (decide (k ∈ filenames)); [done|discriminate].
Qed.

Lemma get_playback_batch_spec_witness :
  let db := after [ Init_db; Save_playback "d/x" 30 100 30 None None ] ∅ in
  reachable db
  ∧ ∃ result,
      get_playback_batch "d" ["x"; "sub/y"] db = (Ok result, db)
      ∧ result !! "x" = Some (VInt 30)
      ∧ result !! "sub/y" = Some (VInt 0).
Proof.
  intros db.
  assert (reachable db) as Hr
    by apply (reachable_after [ Init_db; Save_playback "d/x" 30 100 30 None None ]).
  split; [exact Hr|].
  destruct (get_playback_batch_spec db "d" ["x"; "sub/y"] Hr)
    as (result & Heq & _ & Hvalues & _).
  exists result. split; [exact Heq|]. split.
  - destruct (Hvalues "x") as (_ & _ & Hstored); [compute_done|].
    assert (Exists (λ r, r !!! "filename" = VText ("d" +:+ "/" +:+ "x")
                         ∧ r !!! "percent" = VInt 30) (playback_rows db))
      as (r & Hin & Hf & Hpc)%Exists_exists by compute_done.
    rewrite <- Hpc. apply Hstored; [reflexivity| |exact Hin|exact Hf].
    intros g Hg Hb.
    apply elem_of_cons in Hg as [->|Hg]; [reflexivity|].
    apply list_elem_of_singleton in Hg as ->. vm_compute in Hb. discriminate Hb.
  - destruct (Hvalues "sub/y") as (_ & Hslash & _); [compute_done|].
    apply Hslash. reflexivity.
Defined.

(** ** C7: [get_playback_percent] *)

(** [get_playback_percent] never raises and never changes the store. *)
Lemma get_playback_percent_total f db :
  ∃ v, get_playback_percent f db = (Ok v, db).
Proof.
  unfold get_playback_percent, try_except, select_where, mbind, Sql_bind, mret, Sql_ret.
  destruct (db !! "playback") as [t|]; [|by eexists].
  destruct (negb _); [by eexists|]. destruct (fetchone _); by eexists.
Qed.

(** It returns 0 when no record is stored under the file name. *)
Lemma get_playback_percent_no_record f db :
  (∀ r, r ∈ playback_rows db → r !!! "filename" ≠ VText f) →
  get_playback_percent f db = (Ok (VInt 0), db).
Proof.
  intros Hnone. unfold playback_rows in Hnone.
  unfold get_playback_percent, try_except, select_where, mbind, Sql_bind, mret, Sql_ret.
  destruct (db !! "playback") as [t|]; [|done].
  destruct (negb _); [done|].
  rewrite filter_none; [done|]. intros r Hin Hm. apply (Hnone r Hin).
  unfold row_matches in Hm. simpl in Hm. rewrite andb_true_r in Hm.
  by apply sql_eq_text.
Qed.

(** C7 (the code at the failing input): after init_db() and
    set_outro_triggered("a.mkv", 1) on a new database file, the row of "a.mkv"
    holds NULL in [percent], and get_playback_percent("a.mkv") returns None,
    not an integer. *)
Theorem get_playback_percent_after_set_outro_triggered :
  let db := after [ Init_db; Set_outro_triggered "a.mkv" 1 ] ∅ in
  (set_outro_triggered "a.mkv" 1 fresh_db).1 = Ok true
  ∧ get_playback_percent "a.mkv" db = (Ok VNull, db).
Proof. cbv zeta. repeat split; vm_compute; reflexivity. Qed.

(** ** C8: [find_other_versions] *)

Lemma other_version_true prefix excl r :
  other_version (VText prefix) excl r = true
  ↔ r !!! "series_prefix" = VText prefix
    ∧ coalesce (r !!! "series_suffix") (VText "") ≠ coalesce excl (VText "").
Proof.
  unfold other_version.
  rewrite andb_true_iff, sql_eq_text, sql_ne_true by apply coalesce_not_null. done.
Qed.

Lemma same_version_true prefix p1 p :
  p1 !!! "series_prefix" = VText prefix →
  same_version p1 p = true
  ↔ in_version prefix (coalesce (p1 !!! "series_suffix") (VText "")) p.
Proof.
  intros Hp1. unfold same_version, in_version.
  rewrite Hp1, andb_true_iff, sql_eq_text, sql_eq_true.
  pose proof (coalesce_not_null (p !!! "series_suffix") ""). intuition congruence.
Qed.

Lemma find_other_versions_no_table prefix exclude db :
  db !! "playback" = None → find_other_versions prefix exclude db = (Ok [], db).
Proof.
  intros Ht. unfold find_other_versions, try_except, select_other_versions. by rewrite Ht.
Qed.

Lemma find_other_versions_table prefix exclude db t :
  db !! "playback" = Some t →
  playback_ok t →
  find_other_versions prefix exclude db
  = (Ok (distinct
           ((λ sfx, (sfx,
                     default VNull
                       (last ((λ r, r !!! "filename")
                                <$> filter (in_version prefix sfx) (tbl_rows t))),
                     sql_max ((λ r, r !!! "percent")
                                <$> filter (in_version prefix sfx) (tbl_rows t))))
              <$> ((λ r, coalesce (r !!! "series_suffix") (VText ""))
                     <$> filter (λ r, other_version (VText prefix) (opt_text exclude) r
                                      = true) (tbl_rows t)))), db).
Proof.
  intros Ht [Hs _]. unfold find_other_versions, try_except, select_other_versions.
  rewrite Ht. rewrite (playback_has_columns t _ Hs) by done. cbn [negb].
  do 3 f_equal. rewrite <- list_fmap_compose. apply list_fmap_ext.
  intros i p1 Hi. unfold compose.
  assert (p1 !!! "series_prefix" = VText prefix) as Hp1.
  { apply list_elem_of_lookup_2, list_elem_of_filter in Hi as [Hp1 _].
    by apply other_version_true in Hp1 as [? _]. }
  unfold last_filename, max_percent.
  by rewrite (list_filter_iff _ _ _ (λ p, same_version_true prefix p1 p Hp1)).
Qed.

(** C8: on every reachable store, [find_other_versions] returns one entry per
    suffix: no suffix occurs twice, and a suffix (NULL read as the empty text)
    occurs exactly when it differs from the excluded one and some playback row
    has the prefix and that suffix; the file name of its entry is that of the
    last such row in insertion order, and its percent is an integer that is the
    percent of one such row and is not below the percent of any such row. *)
Theorem find_other_versions_spec db prefix exclude :
  reachable db →
  ∃ res,
    find_other_versions prefix exclude db = (Ok res, db)
    ∧ NoDup ((λ e, e.1.1) <$> res)
    ∧ (∀ sfx, sfx ∈ (λ e, e.1.1) <$> res
              ↔ sfx ≠ coalesce (opt_text exclude) (VText "")
                ∧ ∃ r, r ∈ playback_rows db ∧ in_version prefix sfx r)
    ∧ (∀ sfx fn mx, (sfx, fn, mx) ∈ res →
         (∃ i r, playback_rows db !! i = Some r
                 ∧ in_version prefix sfx r
                 ∧ fn = r !!! "filename"
                 ∧ ∀ j r', i < j → playback_rows db !! j = Some r' →
                           ¬ in_version prefix sfx r')
         ∧ ∃ m, mx = VInt m
                ∧ (∃ r, r ∈ playback_rows db ∧ in_version prefix sfx r
                        ∧ r !!! "percent" = VInt m)
                ∧ (∀ r, r ∈ playback_rows db → in_version prefix sfx r →
                        ∃ n, r !!! "percent" = VInt n ∧ (n ≤ m)%Z)).
Proof.
  intros Hreach. apply reachable_store_ok in Hreach as [Hok _].
  unfold playback_rows. destruct (db !! "playback") as [t|] eqn:Ht.
  2:{ exists []. split; [by apply find_other_versions_no_table|].
      split; [constructor|]. split.
      - intros sfx. split; [by intros ?%elem_of_nil|].
        by intros (_ & r & ?%elem_of_nil & _).
      - by intros sfx fn mx ?%elem_of_nil. }
  specialize (Hok t eq_refl). destruct Hok as (Hs & Hnd & Hrows).
  eexists. split; [exact (find_other_versions_table _ _ _ t Ht (conj Hs (conj Hnd Hrows)))|].
  set (rows := tbl_rows t) in *.
  set (entry := λ sfx : value,
         (sfx,
          default VNull (last ((λ r, r !!! "filename") <$> filter (in_version prefix sfx) rows)),
          sql_max ((λ r, r !!! "percent") <$> filter (in_version prefix sfx) rows))).
  set (others := (λ r, coalesce (r !!! "series_suffix") (VText ""))
                   <$> filter (λ r, other_version (VText prefix) (opt_text exclude) r = true)
                              rows).
  assert (∀ sfx, sfx ∈ others
                 ↔ sfx ≠ coalesce (opt_text exclude) (VText "")
                   ∧ ∃ r, r ∈ rows ∧ in_version prefix sfx r) as Hothers.
  { intros sfx. unfold others. rewrite list_elem_of_fmap. split.
    - intros (r & -> & [Ho Hin]%list_elem_of_filter).
      apply other_version_true in Ho as [Hp Hne]. split; [done|].
      exists r. by repeat split.
    - intros (Hne & r & Hin & Hp & <-). exists r. split; [done|].
      apply list_elem_of_filter. split; [|done]. by apply other_version_true. }
  split; [|split].
  - apply NoDup_fmap_2_strong; [|apply NoDup_distinct].
    intros e1 e2 [s1 [-> _]]%elem_of_distinct%list_elem_of_fmap
                 [s2 [-> _]]%elem_of_distinct%list_elem_of_fmap. simpl. by intros ->.
  - intros sfx. rewrite <- Hothers, list_elem_of_fmap. split.
    + by intros (e & -> & [s [-> Hs']]%elem_of_distinct%list_elem_of_fmap).
    + intros Hin. exists (entry sfx). split; [done|].
      apply elem_of_distinct, list_elem_of_fmap. eauto.
  - intros sfx fn mx [s [[= -> -> ->] Hin]]%elem_of_distinct%list_elem_of_fmap.
    apply Hothers in Hin as (_ & r0 & Hr0 & Hv0).
    set (group := filter (in_version prefix s) rows).
    assert (r0 ∈ group) as Hr0g by (by apply list_elem_of_filter).
    split.
    + destruct (last group) as [rl|] eqn:Hl.
      2:{ apply last_None in Hl. rewrite Hl in Hr0g. by apply elem_of_nil in Hr0g. }
      destruct (last_filter_lookup _ _ _ Hl) as (i & Hi & Hv & Hafter).
      exists i, rl. repeat split; try done; try apply Hv.
      apply last_Some in Hl as [l' Hl']. rewrite Hl', fmap_app. simpl. by rewrite last_snoc.
    + assert (Forall (λ v, ∃ n, v = VInt n) ((λ r, r !!! "percent") <$> group)) as Hints.
      { apply Forall_fmap, Forall_forall. intros r [[Hp _] Hin]%list_elem_of_filter.
        rewrite Forall_forall in Hrows. destruct (Hrows r Hin) as [_ [Hn|[_ Hnull]]]; [done|].
        congruence. }
      destruct (sql_max_ints ((λ r, r !!! "percent") <$> group)) as (m & Hm & Hin & Hmax);
        [|done|].
      { destruct group; [by apply elem_of_nil in Hr0g|done]. }
      exists m. split; [done|]. split.
      * apply list_elem_of_fmap in Hin as (r & Hr & [Hv Hin]%list_elem_of_filter).
        exists r. split; [done|]. split; [done|]. by symmetry.
      * intros r Hin' Hv. rewrite Forall_fmap, Forall_forall in Hints.
        destruct (Hints r) as [n Hn]; [by apply list_elem_of_filter|].
        exists n. split; [done|]. apply Hmax. apply list_elem_of_fmap.
        exists r. split; [done|]. by apply list_elem_of_filter.
Qed.

Lemma find_other_versions_spec_witness :
  let db := after [ Init_db;
                    Save_playback "e1.1080" 1 100 10 (Some "Show.S01") (Some "1080p.mkv");
                    Save_playback "e1.720" 1 100 30 (Some "Show.S01") (Some "720p.mkv");
                    Save_playback "e2.720" 1 100 95 (Some "Show.S01") (Some "720p.mkv") ] ∅ in
  reachable db
  ∧ ∃ res,
      find_other_versions "Show.S01" (Some "1080p.mkv") db = (Ok res, db)
      ∧ NoDup ((λ e, e.1.1) <$> res)
      ∧ VText "720p.mkv" ∈ (λ e, e.1.1) <$> res.
Proof.
  intros db.
  assert (reachable db) as Hr
    by apply (reachable_after
                [ Init_db;
                  Save_playback "e1.1080" 1 100 10 (Some "Show.S01") (Some "1080p.mkv");
                  Save_playback "e1.720" 1 100 30 (Some "Show.S01") (Some "720p.mkv");
                  Save_playback "e2.720" 1 100 95 (Some "Show.S01") (Some "720p.mkv") ]).
  split; [exact Hr|].
  destruct (find_other_versions_spec db "Show.S01" (Some "1080p.mkv") Hr)
    as (res & Heq & Hnd & Hiff & _).
  exists res. split; [exact Heq|]. split; [exact Hnd|].
  apply Hiff. split; [discriminate|].
  apply (Exists_exists (λ r, in_version "Show.S01" (VText "720p.mkv") r) (playback_rows db)).
  apply Exists_cons_tl, Exists_cons_hd. split; vm_compute; reflexivity.
Defined.

(** ** C9: [init_db] as a migration *)

(** [init_db] returns True on every store. *)
Lemma init_db_succeeds db : (init_db db).1 = Ok true.
Proof. by rewrite init_db_eq. Qed.

(** Running [init_db] a second time changes nothing. *)
Lemma init_db_idempotent db : init_db (init_db db).2 = init_db db.
Proof.
  rewrite !init_db_eq. cbn [snd]. f_equal.
  by rewrite migrations_commute, series_settings_migrated_idemp,
    playback_migrated_idemp.
Qed.

(** A [playback] table without [outro_triggered] gets the column, at the end,
    with 0 in every row already stored; nothing else of the table changes. *)
Lemma init_db_adds_outro_triggered db t :
  db !! "playback" = Some t →
  has_column t "outro_triggered" = false →
  (init_db db).2 !! "playback"
  = Some (Table (tbl_columns t ++ [Column "outro_triggered" (VInt 0) false])
                (tbl_pkey t)
                (insert "outro_triggered" (VInt 0) <$> tbl_rows t)).
Proof.
  intros Ht Hc. rewrite init_db_eq. cbn [snd].
  rewrite series_settings_migrated_playback. unfold playback_migrated.
  by rewrite Ht, Hc, lookup_insert_eq.
Qed.

(** A [series_settings] table without [credits_duration] gets the column, with
    NULL in every row already stored. *)
Lemma init_db_adds_credits_duration db t :
  db !! "series_settings" = Some t →
  has_column t "credits_duration" = false →
  (init_db db).2 !! "series_settings"
  = Some (Table (tbl_columns t ++ [Column "credits_duration" VNull false])
                (tbl_pkey t)
                (insert "credits_duration" VNull <$> tbl_rows t)).
Proof.
  intros Ht Hc. rewrite init_db_eq. cbn [snd].
  unfold series_settings_migrated.
  by rewrite playback_migrated_settings, Ht, Hc, lookup_insert_eq.
Qed.

(** C9 (the code at the failing input): the [playback] table of a 1.0.0
    installation has no column [status]; [init_db] of 1.2.0 succeeds on it and
    adds [outro_triggered], but not [status], and every [save_playback]
    afterwards returns False and stores nothing. *)
Theorem init_db_leaves_status_missing :
  (column_names <$> (RELIS.init_db ∅).2 !! "playback")
  = Some ["filename"; "position"; "duration"; "percent"; "series_prefix";
          "series_suffix"; "description"]
  ∧ (init_db (RELIS.init_db ∅).2).1 = Ok true
  ∧ (column_names <$> upgraded_db !! "playback")
    = Some ["filename"; "position"; "duration"; "percent"; "series_prefix";
            "series_suffix"; "description"; "outro_triggered"]
  ∧ save_playback "a.mkv" 10 100 10 None None upgraded_db = (Ok false, upgraded_db).
Proof. cbv zeta. repeat split; vm_compute; reflexivity. Qed.

(** ** C10: what [save_playback] leaves alone *)



(** * Further properties of the code

    ** Reading the [playback] table

    On a reachable store the readers that select by file name see the rows
    whose [filename] is the given text; the first of them is the one
    [fetchone] returns. *)

Lemma filter_filename (f : string) (rows : list (gmap string value)) :
  filter (λ r, row_matches [("filename", VText f)] r = true) rows
  = filter (λ r, r !!! "filename" = VText f) rows.
Proof.
  apply list_filter_iff. intros r. unfold row_matches. simpl.
  rewrite andb_true_r. apply sql_eq_text.
Qed.

Lemma select_playback_by_filename cols f db t :
  db !! "playback" = Some t →
  playback_schema t →
  select_where cols "playback" [("filename", VText f)] db
  = if has_columns t cols
    then (Ok (filter (λ r, r !!! "filename" = VText f) (tbl_rows t)), db)
    else (Raise OperationalError, db).
Proof.
  intros Ht Hs. unfold select_where. rewrite Ht.
  assert (has_columns t [("filename", VText f)].*1 = true) as ->
    by (by apply playback_has_columns).
  rewrite andb_true_r. destruct (has_columns t cols); [|done].
  by rewrite filter_filename.
Qed.

Lemma get_playback_eq f db t :
  db !! "playback" = Some t →
  playback_schema t →
  get_playback f db
  = (Ok ((λ r, (r !!! "position", r !!! "duration", r !!! "percent",
                coalesce (r !!! "series_prefix") (VText ""),
                coalesce (r !!! "series_suffix") (VText "")))
           <$> head (filter (λ r, r !!! "filename" = VText f) (tbl_rows t))), db).
Proof.
  intros Ht Hs. unfold get_playback, try_except, mbind, Sql_bind.
  rewrite (select_playback_by_filename _ f db t Ht Hs).
  rewrite (playback_has_columns t _ Hs) by done.
  unfold fetchone. by destruct (head _).
Qed.

Lemma get_playback_no_table f db :
  db !! "playback" = None → get_playback f db = (Ok None, db).
Proof.
  intros Ht. unfold get_playback, try_except, mbind, Sql_bind, select_where.
  by rewrite Ht.
Qed.

Lemma get_playback_percent_eq f db t :
  db !! "playback" = Some t →
  playback_schema t →
  get_playback_percent f db
  = (Ok (default (VInt 0)
           ((λ r, r !!! "percent")
              <$> head (filter (λ r, r !!! "filename" = VText f) (tbl_rows t)))), db).
Proof.
  intros Ht Hs. unfold get_playback_percent, try_except, mbind, Sql_bind.
  rewrite (select_playback_by_filename _ f db t Ht Hs).
  rewrite (playback_has_columns t _ Hs) by done.
  unfold fetchone. by destruct (head _).
Qed.

Lemma get_playback_status_eq f db t :
  db !! "playback" = Some t →
  playback_schema t →
  get_playback_status f db
  = (Ok (if has_column t "status"
         then default VNull
                ((λ r, r !!! "status")
                   <$> head (filter (λ r, r !!! "filename" = VText f) (tbl_rows t)))
         else VNull), db).
Proof.
  intros Ht Hs. unfold get_playback_status, try_except, mbind, Sql_bind.
  rewrite (select_playback_by_filename _ f db t Ht Hs).
  unfold has_columns. simpl. rewrite andb_true_r.
  destruct (has_column t "status"); [|done].
  unfold fetchone. by destruct (head _).
Qed.

Lemma get_outro_triggered_eq f db t :
  db !! "playback" = Some t →
  playback_schema t →
  get_outro_triggered f db
  = (Ok (if has_column t "outro_triggered"
         then default (VInt 0)
                ((λ r, r !!! "outro_triggered")
                   <$> head (filter (λ r, r !!! "filename" = VText f) (tbl_rows t)))
         else VInt 0), db).
Proof.
  intros Ht Hs. unfold get_outro_triggered, try_except, mbind, Sql_bind.
  rewrite (select_playback_by_filename _ f db t Ht Hs).
  unfold has_columns. simpl. rewrite andb_true_r.
  destruct (has_column t "outro_triggered"); [|done].
  unfold fetchone. by destruct (head _).
Qed.

(** The rows of another file name are not touched by an upsert. *)
Lemma upsert_rows_filter_other r sets rows f f' :
  r !!! "filename" = VText f →
  f' ≠ f →
  "filename" ∉ sets.*1 →
  filter (λ x, x !!! "filename" = VText f') (upsert_rows ["filename"] r sets rows)
  = filter (λ x, x !!! "filename" = VText f') rows.
Proof.
  intros Hf Hne Hsets. unfold upsert_rows. destruct (existsb _ rows).
  - induction rows as [|x rows IH]; [done|]. rewrite fmap_cons, !filter_cons.
    destruct (key_match ["filename"] r x) eqn:E.
    + apply (key_match_filename _ _ _ Hf) in E as E'.
      rewrite assign_lookup_total_ne by done.
      rewrite !decide_False by congruence. done.
    + destruct (decide (x !!! "filename" = VText f')); by rewrite IH.
  - rewrite filter_app, filter_cons, decide_False by congruence.
    by rewrite filter_nil, app_nil_r.
Qed.

(** [set_outro_triggered] in closed form. *)
Lemma set_outro_triggered_eq db f tr t :
  db !! "playback" = Some t →
  playback_schema t →
  set_outro_triggered f tr db
  = if has_column t "outro_triggered"
    then
      if int64 tr
      then (Ok true,
            <["playback" :=
                Table (tbl_columns t) (tbl_pkey t)
                  (upsert_rows ["filename"]
                     (new_row t [("filename", VText f); ("outro_triggered", VInt tr)])
                     [("outro_triggered", VInt tr)] (tbl_rows t))]> db)
      else (Raise OverflowError, db)
    else (Ok false, db).
Proof.
  intros Ht Hs. unfold set_outro_triggered. rewrite upsert_call_eq, Ht.
  destruct Hs as [Hpk Hc]. rewrite Hpk.
  assert (∀ vals : list (string * value), not_null_ok t (new_row t vals) = true) as ->.
  { intros vals. unfold not_null_ok. by destruct Hc as [-> | [-> | ->]]. }
  rewrite bool_decide_eq_true_2 by done. rewrite !andb_true_r.
  unfold has_columns. simpl. rewrite !andb_true_r.
  assert (has_column t "filename" = true) as ->.
  { unfold has_column, column_names. by destruct Hc as [-> | [-> | ->]]. }
  simpl. destruct (has_column t "outro_triggered"); [|done].
  by destruct (int64 tr).
Qed.

(** ** X1: what [save_playback] stores is what the readers return *)

(** X1: on every reachable store whose [playback] table has the columns of
    1.2.0, [save_playback] with a position, a duration and a percent in the
    64-bit range succeeds, and afterwards [get_playback] returns the position,
    duration and percent just saved, with the prefix and the suffix (the empty
    text for [None]), [get_playback_percent] returns the percent, and
    [get_playback_status] returns the status derived from the percent. *)
Theorem readers_after_save_playback db f p d pc pre suf :
  reachable db →
  playback_current db →
  int64 p = true → int64 d = true → int64 pc = true →
  let db' := (save_playback f p d pc pre suf db).2 in
  (save_playback f p d pc pre suf db).1 = Ok true
  ∧ get_playback f db'
    = (Ok (Some (VInt p, VInt d, VInt pc,
                 VText (default "" pre), VText (default "" suf))), db')
  ∧ get_playback_percent f db' = (Ok (VInt pc), db')
  ∧ get_playback_status f db' = (Ok (opt_text (_calculate_status pc)), db').
Proof.
  intros Hreach (t & Ht & Hc) Hp Hd Hpc db'.
  apply reachable_store_ok in Hreach as Hok.
  destruct (proj1 Hok t Ht) as ([Hpk Hcols] & _ & _).
  assert (store_ok db') as Hok' by (by apply save_playback_store_ok).
  unfold db' in *.
  rewrite (save_playback_current db _ _ _ _ _ _ t Ht Hc Hpk Hp Hd Hpc) in *.
  cbn [fst snd] in *. split; [done|].
  set (t' := Table _ _ _).
  assert (<["playback" := t']> db !! "playback" = Some t') as Ht'
    by apply lookup_insert_eq.
  destruct (proj1 Hok' t' Ht') as (Hs' & _ & _).
  rewrite (get_playback_eq f _ t' Ht' Hs'), (get_playback_percent_eq f _ t' Ht' Hs'),
    (get_playback_status_eq f _ t' Ht' Hs').
  assert (has_column t' "status" = true) as ->.
  { unfold has_column, column_names, t'. cbn [tbl_columns]. by rewrite Hc. }
  unfold t'. cbn [tbl_rows]. rewrite Hpk.
  rewrite upsert_rows_filter;
    [|unfold new_row; simpl; by row_lookup|compute_done].
  destruct (filter _ (tbl_rows t)) as [|r0 l]; cbn [head fmap option_fmap option_map list_fmap].
  - unfold new_row. simpl. row_lookup. by destruct pre, suf.
  - simpl. row_lookup. by destruct pre, suf.
Qed.

Lemma readers_after_save_playback_witness :
  reachable fresh_db
  ∧ playback_current fresh_db
  ∧ int64 120 = true ∧ int64 3600 = true ∧ int64 3 = true
  ∧ (save_playback "a.mkv" 120 3600 3 (Some "Show") None fresh_db).1 = Ok true
  ∧ (get_playback "a.mkv" (save_playback "a.mkv" 120 3600 3 (Some "Show") None fresh_db).2).1
    = Ok (Some (VInt 120, VInt 3600, VInt 3, VText "Show", VText ""))
  ∧ (get_playback_status "a.mkv"
       (save_playback "a.mkv" 120 3600 3 (Some "Show") None fresh_db).2).1
    = Ok (VText "partial").
Proof.
  assert (playback_current fresh_db) as Hc.
  { exists (Table playback_columns ["filename"] []). split; vm_compute; reflexivity. }
  split; [exact reachable_fresh_db|]. split; [exact Hc|].
  do 3 (split; [reflexivity|]).
  pose proof (readers_after_save_playback fresh_db "a.mkv" 120 3600 3 (Some "Show") None
                reachable_fresh_db Hc eq_refl eq_refl eq_refl) as (H0 & H & _ & Hst).
  cbv zeta in H, Hst. split; [exact H0|]. split; [by rewrite H|by rewrite Hst].
Defined.

(** ** X2: [save_playback] leaves the other files alone *)

Lemma save_playback_frame db f p d pc pre suf f' :
  store_ok db →
  f' ≠ f →
  let db' := (save_playback f p d pc pre suf db).2 in
  (get_playback f' db').1 = (get_playback f' db).1
  ∧ (get_playback_percent f' db').1 = (get_playback_percent f' db).1
  ∧ (get_playback_status f' db').1 = (get_playback_status f' db).1
  ∧ (get_outro_triggered f' db').1 = (get_outro_triggered f' db).1.
Proof.
  intros Hok Hne db'.
  assert (store_ok db') as Hok' by (by apply save_playback_store_ok).
  unfold db' in *. unfold save_playback in *. rewrite upsert_call_eq in *.
  destruct (db !! "playback") as [t|] eqn:Ht; [|done].
  destruct (_ && _); [|done].
  destruct (forallb _ _); [|done].
  destruct (not_null_ok _ _); [|done]. cbn [snd] in *.
  set (t' := Table _ _ _) in *.
  assert (<["playback" := t']> db !! "playback" = Some t') as Ht'
    by apply lookup_insert_eq.
  destruct (proj1 Hok t Ht) as ([Hpk Hcols] & _ & _).
  destruct (proj1 Hok' t' Ht') as (Hs' & _ & _).
  rewrite (get_playback_eq f' _ t' Ht' Hs'), (get_playback_percent_eq f' _ t' Ht' Hs'),
    (get_playback_status_eq f' _ t' Ht' Hs'), (get_outro_triggered_eq f' _ t' Ht' Hs').
  rewrite (get_playback_eq f' _ t Ht (conj Hpk Hcols)),
    (get_playback_percent_eq f' _ t Ht (conj Hpk Hcols)),
    (get_playback_status_eq f' _ t Ht (conj Hpk Hcols)),
    (get_outro_triggered_eq f' _ t Ht (conj Hpk Hcols)).
  change (has_column t' ?c) with (has_column t c).
  unfold t'. cbn [tbl_rows fst]. rewrite Hpk.
  rewrite (upsert_rows_filter_other _ _ _ f f');
    [done|unfold new_row; simpl; by row_lookup|done|compute_done].
Qed.

(** X2: on every reachable store, [save_playback] for one file changes the
    answer of no reader for any other file: [get_playback],
    [get_playback_percent], [get_playback_status] and [get_outro_triggered]
    return for [f'] what they returned before. *)
Theorem save_playback_other_file db f p d pc pre suf f' :
  reachable db →
  f' ≠ f →
  let db' := (save_playback f p d pc pre suf db).2 in
  (get_playback f' db').1 = (get_playback f' db).1
  ∧ (get_playback_percent f' db').1 = (get_playback_percent f' db).1
  ∧ (get_playback_status f' db').1 = (get_playback_status f' db).1
  ∧ (get_outro_triggered f' db').1 = (get_outro_triggered f' db).1.
Proof.
  intros Hreach Hne. by apply save_playback_frame; [apply reachable_store_ok|].
Qed.

Lemma save_playback_other_file_witness :
  let db := after [ Init_db; Save_playback "b.mkv" 5 10 50 None None ] ∅ in
  reachable db
  ∧ "b.mkv" ≠ "a.mkv"
  ∧ (get_playback "b.mkv" (save_playback "a.mkv" 1 2 3 None None db).2).1
    = Ok (Some (VInt 5, VInt 10, VInt 50, VText "", VText "")).
Proof.
  intros db. assert (reachable db) as Hr by apply reachable_after.
  assert ("b.mkv" ≠ "a.mkv") as Hne by discriminate.
  split; [exact Hr|]. split; [exact Hne|].
  rewrite (proj1 (save_playback_other_file db "a.mkv" 1 2 3 None None "b.mkv" Hr Hne)).
  vm_compute. reflexivity.
Defined.

(** ** X3: the flag [outro_triggered] *)

Lemma playback_default_row_null t c :
  playback_schema t → c ≠ "outro_triggered" → default_row t !!! c = VNull.
Proof.
  intros [_ Hc] Hne. unfold default_row.
  destruct Hc as [-> | [-> | ->]]; simpl;
    repeat (rewrite lookup_total_insert; case_decide; [subst c; done|]);
    exact (lookup_total_empty (M:=gmap string) c).
Qed.

(** X3: on every reachable store whose [playback] table has the column
    [outro_triggered], [set_outro_triggered] with a value in the 64-bit range
    succeeds and [get_outro_triggered] then returns the value set; the flag
    and the record of every other file are as before; the record of the file
    itself is as before when there was one, and otherwise a record is created
    in which position, duration and percent are [None] and prefix and suffix
    read as the empty text. *)
Theorem set_outro_triggered_spec db f tr :
  reachable db →
  (∃ t, db !! "playback" = Some t ∧ has_column t "outro_triggered" = true) →
  int64 tr = true →
  let db' := (set_outro_triggered f tr db).2 in
  (set_outro_triggered f tr db).1 = Ok true
  ∧ get_outro_triggered f db' = (Ok (VInt tr), db')
  ∧ (∀ f', f' ≠ f →
       (get_outro_triggered f' db').1 = (get_outro_triggered f' db).1
       ∧ (get_playback f' db').1 = (get_playback f' db).1)
  ∧ ∃ o, (get_playback f db).1 = Ok o
         ∧ (get_playback f db').1
           = Ok (Some (default (VNull, VNull, VNull, VText "", VText "") o)).
Proof.
  intros Hreach (t & Ht & Hcol) Htr db'. apply reachable_store_ok in Hreach as Hok.
  assert (store_ok db') as Hok' by (by apply set_outro_triggered_store_ok).
  destruct (proj1 Hok t Ht) as (Hs & _ & _).
  unfold db' in *. rewrite (set_outro_triggered_eq db f tr t Ht Hs), Hcol, Htr in *.
  cbn [fst snd] in *. split; [done|].
  set (t' := Table _ _ _) in *.
  assert (<["playback" := t']> db !! "playback" = Some t') as Ht'
    by apply lookup_insert_eq.
  destruct (proj1 Hok' t' Ht') as (Hs' & _ & _).
  assert (has_column t' "outro_triggered" = true) as Hcol' by exact Hcol.
  assert (new_row t [("filename", VText f); ("outro_triggered", VInt tr)] !!! "filename"
          = VText f) as Hnew by (unfold new_row; simpl; by row_lookup).
  split; [|split].
  - rewrite (get_outro_triggered_eq f _ t' Ht' Hs'), Hcol'. unfold t'. cbn [tbl_rows].
    rewrite upsert_rows_filter; [|done|compute_done].
    destruct (filter _ (tbl_rows t)) as [|r0 l]; simpl; unfold new_row; simpl; by row_lookup.
  - intros f' Hne.
    rewrite (get_outro_triggered_eq f' _ t' Ht' Hs'), (get_playback_eq f' _ t' Ht' Hs'),
      (get_outro_triggered_eq f' _ t Ht Hs), (get_playback_eq f' _ t Ht Hs), Hcol, Hcol'.
    unfold t'. cbn [tbl_rows fst].
    by rewrite (upsert_rows_filter_other _ _ _ f f') by (done || compute_done).
  - rewrite (get_playback_eq f _ t' Ht' Hs'), (get_playback_eq f _ t Ht Hs).
    eexists. split; [done|]. unfold t'. cbn [tbl_rows fst].
    rewrite upsert_rows_filter; [|done|compute_done].
    destruct (filter _ (tbl_rows t)) as [|r0 l]; simpl.
    + unfold new_row. simpl. row_lookup.
      by rewrite !(playback_default_row_null t) by done.
    + by row_lookup.
Qed.

Lemma set_outro_triggered_spec_witness :
  let db := after [ Init_db; Save_playback "a.mkv" 10 100 10 None None ] ∅ in
  reachable db
  ∧ (∃ t, db !! "playback" = Some t ∧ has_column t "outro_triggered" = true)
  ∧ int64 1 = true
  ∧ (set_outro_triggered "a.mkv" 1 db).1 = Ok true
  ∧ (get_outro_triggered "a.mkv" (set_outro_triggered "a.mkv" 1 db).2).1 = Ok (VInt 1)
  ∧ (get_playback "a.mkv" (set_outro_triggered "a.mkv" 1 db).2).1
    = Ok (Some (VInt 10, VInt 100, VInt 10, VText "", VText "")).
Proof.
  intros db.
  assert (reachable db) as Hr by apply reachable_after.
  assert (∃ t, db !! "playback" = Some t ∧ has_column t "outro_triggered" = true) as Hc.
  { eexists. split; vm_compute; reflexivity. }
  split; [exact Hr|]. split; [exact Hc|]. split; [reflexivity|].
  destruct (set_outro_triggered_spec db "a.mkv" 1 Hr Hc eq_refl)
    as (Hret & Hget & _ & o & Ho & Ho').
  split; [exact Hret|]. split; [by rewrite Hget|]. rewrite Ho'.
  assert (o = Some (VInt 10, VInt 100, VInt 10, VText "", VText "")) as ->; [|done].
  assert ((get_playback "a.mkv" db).1
          = Ok (Some (VInt 10, VInt 100, VInt 10, VText "", VText ""))) as Hv
    by (vm_compute; reflexivity).
  rewrite Ho in Hv. by injection Hv.
Defined.

(** ** X4: no call deletes, renames or reorders a record *)

Lemma upsert_rows_prefix {B} (g : gmap string value → B) pk r sets
    (rows : list (gmap string value)) :
  (∀ r0, g (assign sets r0) = g r0) →
  (g <$> rows) `prefix_of` (g <$> upsert_rows pk r sets rows).
Proof.
  intros Hg. unfold upsert_rows. destruct (existsb _ rows).
  - rewrite <- list_fmap_compose.
    erewrite (list_fmap_ext (g ∘ _) g); [done|].
    intros i r0 _. unfold compose. by destruct (key_match pk r r0).
  - rewrite fmap_app. by apply prefix_app_r.
Qed.

Lemma update_rows_fmap {B} (g : gmap string value → B) sets cond
    (rows : list (gmap string value)) :
  (∀ r0, g (assign sets r0) = g r0) →
  g <$> update_rows sets cond rows = g <$> rows.
Proof.
  intros Hg. unfold update_rows. rewrite <- list_fmap_compose.
  apply list_fmap_ext. intros i r0 _. unfold compose. by destruct (row_matches cond r0).
Qed.

Lemma assign_keeps_filename sets (r0 : gmap string value) :
  "filename" ∉ sets.*1 → assign sets r0 !!! "filename" = r0 !!! "filename".
Proof. apply assign_lookup_total_ne. Qed.

Lemma assign_keeps_key sets (r0 : gmap string value) :
  "series_prefix" ∉ sets.*1 → "series_suffix" ∉ sets.*1 →
  (assign sets r0 !!! "series_prefix", assign sets r0 !!! "series_suffix")
  = (r0 !!! "series_prefix", r0 !!! "series_suffix").
Proof. intros ? ?. by rewrite !assign_lookup_total_ne. Qed.

(** What a call that writes [playback] by an upsert leaves. *)
Lemma playback_upsert_keeps vals target sets db :
  "filename" ∉ sets.*1 →
  let db' := (try_except (insert_on_conflict_do_update "playback" vals target sets;;
                          commit;; mret true) (λ _, mret false) db).2 in
  ((λ r, r !!! "filename") <$> playback_rows db)
    `prefix_of` ((λ r, r !!! "filename") <$> playback_rows db')
  ∧ series_settings_rows db' = series_settings_rows db.
Proof.
  intros Hsets db'. unfold db'. rewrite upsert_call_eq.
  destruct (db !! "playback") as [t|] eqn:Ht; [|done].
  destruct (_ && _); [|done].
  destruct (forallb _ _); [|done].
  destruct (not_null_ok _ _); [|done]. cbn [snd]. split.
  - unfold playback_rows. rewrite lookup_insert_eq, Ht. cbn [tbl_rows].
    apply upsert_rows_prefix. intros r0. by apply assign_keeps_filename.
  - unfold series_settings_rows. by rewrite lookup_insert_ne.
Qed.

(** What a call that writes [series_settings] by an upsert leaves. *)
Lemma settings_upsert_keeps vals target sets db :
  "series_prefix" ∉ sets.*1 → "series_suffix" ∉ sets.*1 →
  let db' := (try_except (insert_on_conflict_do_update "series_settings" vals target sets;;
                          commit;; mret true) (λ _, mret false) db).2 in
  playback_rows db' = playback_rows db
  ∧ ((λ r, (r !!! "series_prefix", r !!! "series_suffix")) <$> series_settings_rows db)
      `prefix_of`
    ((λ r, (r !!! "series_prefix", r !!! "series_suffix")) <$> series_settings_rows db').
Proof.
  intros Hp Hs db'. unfold db'. rewrite upsert_call_eq.
  destruct (db !! "series_settings") as [t|] eqn:Ht; [|done].
  destruct (_ && _); [|done].
  destruct (forallb _ _); [|done].
  destruct (not_null_ok _ _); [|done]. cbn [snd]. split.
  - unfold playback_rows. by rewrite lookup_insert_ne.
  - unfold series_settings_rows. rewrite lookup_insert_eq, Ht. cbn [tbl_rows].
    apply upsert_rows_prefix. intros r0. by apply assign_keeps_key.
Qed.

(** What the insert-or-update of the marker setters leaves. *)
Lemma settings_insert_or_update_keeps (b : bool) vals sets cond db :
  "series_prefix" ∉ sets.*1 → "series_suffix" ∉ sets.*1 →
  let db' := (try_except
                ((if b then insert_into "series_settings" vals
                  else update_set_where "series_settings" sets cond);;
                 commit;; mret true)
                (λ _, mret false) db).2 in
  playback_rows db' = playback_rows db
  ∧ ((λ r, (r !!! "series_prefix", r !!! "series_suffix")) <$> series_settings_rows db)
      `prefix_of`
    ((λ r, (r !!! "series_prefix", r !!! "series_suffix")) <$> series_settings_rows db').
Proof.
  intros Hp Hs db'. unfold db', try_except, commit, mbind, Sql_bind, mret, Sql_ret.
  destruct b.
  - destruct (insert_into_cases "series_settings" vals db)
      as [[e ->]|(t & Ht & _ & _ & _ & ->)]; [by destruct e|]. cbn [snd]. split.
    + unfold playback_rows. by rewrite lookup_insert_ne.
    + unfold series_settings_rows. rewrite lookup_insert_eq, Ht. cbn [tbl_rows].
      rewrite fmap_app. by apply prefix_app_r.
  - destruct (update_set_where_cases "series_settings" sets cond db)
      as [[e ->]|(t & Ht & _ & _ & ->)]; [by destruct e|]. cbn [snd]. split.
    + unfold playback_rows. by rewrite lookup_insert_ne.
    + unfold series_settings_rows. rewrite lookup_insert_eq, Ht. cbn [tbl_rows].
      rewrite update_rows_fmap; [done|]. intros r0. by apply assign_keeps_key.
Qed.

Lemma playback_migrated_rows db :
  (λ r, r !!! "filename") <$> playback_rows (playback_migrated db)
  = (λ r, r !!! "filename") <$> playback_rows db.
Proof.
  unfold playback_migrated, playback_rows.
  destruct (db !! "playback") as [t|] eqn:Ht.
  - destruct (has_column t "outro_triggered"); [by rewrite Ht|].
    rewrite lookup_insert_eq. cbn [tbl_rows]. rewrite <- list_fmap_compose.
    apply list_fmap_ext. intros i r _. unfold compose.
    by rewrite lookup_total_insert_ne.
  - by rewrite lookup_insert_eq.
Qed.

Lemma series_settings_migrated_rows db :
  (λ r, (r !!! "series_prefix", r !!! "series_suffix"))
    <$> series_settings_rows (series_settings_migrated db)
  = (λ r, (r !!! "series_prefix", r !!! "series_suffix")) <$> series_settings_rows db.
Proof.
  unfold series_settings_migrated, series_settings_rows.
  destruct (db !! "series_settings") as [t|] eqn:Ht.
  - destruct (has_column t "credits_duration"); [by rewrite Ht|].
    rewrite lookup_insert_eq. cbn [tbl_rows]. rewrite <- list_fmap_compose.
    apply list_fmap_ext. intros i r _. unfold compose.
    by rewrite !lookup_total_insert_ne.
  - by rewrite lookup_insert_eq.
Qed.

Lemma set_credits_duration_cases p s d db :
  (set_credits_duration p s d db).2 = db
  ∨ ∃ b : bool,
      set_credits_duration p s d db
      = try_except
          ((if b
            then insert_into "series_settings"
                   [ ("series_prefix", VText p); ("series_suffix", VText s);
                     ("autoplay", VInt 0); ("skip_intro", VInt 0);
                     ("skip_outro", VInt 0); ("credits_duration", VInt d) ]
            else update_set_where "series_settings"
                   [ ("credits_duration", VInt d) ]
                   [ ("series_prefix", VText p); ("series_suffix", VText s) ]);;
           commit;; mret true)
          (λ _, mret false) db.
Proof.
  unfold set_credits_duration. destruct (d <? 0)%Z; [by left|]. right.
  unfold try_except at 1, mbind at 1, Sql_bind at 1.
  destruct (series_settings_exist_total p s db) as [b ->]. by exists (negb b).
Qed.

Lemma set_intro_markers_cases p s start end_ db :
  (set_intro_markers p s start end_ db).2 = db
  ∨ ∃ b : bool,
      set_intro_markers p s start end_ db
      = try_except
          ((if b
            then insert_into "series_settings"
                   [ ("series_prefix", VText p); ("series_suffix", VText s);
                     ("autoplay", VInt 0); ("skip_intro", VInt 0);
                     ("skip_outro", VInt 0);
                     ("intro_start", VInt start); ("intro_end", VInt end_) ]
            else update_set_where "series_settings"
                   [ ("intro_start", VInt start); ("intro_end", VInt end_) ]
                   [ ("series_prefix", VText p); ("series_suffix", VText s) ]);;
           commit;; mret true)
          (λ _, mret false) db.
Proof.
  unfold set_intro_markers.
  destruct ((start <? 0)%Z || (end_ <? 0)%Z); [by left|].
  destruct (end_ <=? start)%Z; [by left|]. right.
  unfold try_except at 1, mbind at 1, Sql_bind at 1.
  destruct (series_settings_exist_total p s db) as [b ->]. by exists (negb b).
Qed.

Lemma set_outro_marker_cases p s start db :
  (set_outro_marker p s start db).2 = db
  ∨ ∃ b : bool,
      set_outro_marker p s start db
      = try_except
          ((if b
            then insert_into "series_settings"
                   [ ("series_prefix", VText p); ("series_suffix", VText s);
                     ("autoplay", VInt 0); ("skip_intro", VInt 0);
                     ("skip_outro", VInt 0); ("outro_start", VInt start) ]
            else update_set_where "series_settings"
                   [ ("outro_start", VInt start) ]
                   [ ("series_prefix", VText p); ("series_suffix", VText s) ]);;
           commit;; mret true)
          (λ _, mret false) db.
Proof.
  unfold set_outro_marker. destruct (start <? 0)%Z; [by left|]. right.
  unfold try_except at 1, mbind at 1, Sql_bind at 1.
  destruct (series_settings_exist_total p s db) as [b ->]. by exists (negb b).
Qed.

Lemma clear_skip_markers_cases p s mt db :
  (clear_skip_markers p s mt db).2 = db
  ∨ ∃ sets,
      ("series_prefix" ∉ sets.*1) ∧ ("series_suffix" ∉ sets.*1)
      ∧ clear_skip_markers p s mt db
        = try_except
            (update_set_where "series_settings" sets
               [ ("series_prefix", VText p); ("series_suffix", VText s) ];;
             commit;; mret true)
            (λ _, mret false) db.
Proof.
  unfold clear_skip_markers.
  repeat (case_bool_decide;
          [right; eexists; split; [|split; [|reflexivity]]; compute_done|]).
  by left.
Qed.

Lemma perform_keeps_records c db :
  ((λ r, r !!! "filename") <$> playback_rows db)
    `prefix_of` ((λ r, r !!! "filename") <$> playback_rows (perform c db).2)
  ∧ ((λ r, (r !!! "series_prefix", r !!! "series_suffix")) <$> series_settings_rows db)
      `prefix_of`
    ((λ r, (r !!! "series_prefix", r !!! "series_suffix"))
       <$> series_settings_rows (perform c db).2).
Proof.
  assert (∀ db', playback_rows db' = playback_rows db →
            ((λ r, r !!! "filename") <$> playback_rows db)
              `prefix_of` ((λ r, r !!! "filename") <$> playback_rows db')) as Hsame
    by (by intros db' ->).
  assert (∀ db', series_settings_rows db' = series_settings_rows db →
            ((λ r, (r !!! "series_prefix", r !!! "series_suffix"))
               <$> series_settings_rows db)
              `prefix_of`
            ((λ r, (r !!! "series_prefix", r !!! "series_suffix"))
               <$> series_settings_rows db')) as Hsame'
    by (by intros db' ->).
  destruct c; cbn [perform].
  - rewrite init_db_eq. cbn [snd]. split.
    + unfold playback_rows at 2. rewrite series_settings_migrated_playback.
      fold (playback_rows (playback_migrated db)). by rewrite playback_migrated_rows.
    + rewrite series_settings_migrated_rows. unfold series_settings_rows at 2.
      by rewrite playback_migrated_settings.
  - unfold save_playback.
    match goal with
    | |- context [insert_on_conflict_do_update _ ?vals ?target ?sets] =>
        destruct (playback_upsert_keeps vals target sets db) as [H1 H2]; [compute_done|]
    end.
    split; [exact H1|by apply Hsame'].
  - unfold set_outro_triggered.
    match goal with
    | |- context [insert_on_conflict_do_update _ ?vals ?target ?sets] =>
        destruct (playback_upsert_keeps vals target sets db) as [H1 H2]; [compute_done|]
    end.
    split; [exact H1|by apply Hsame'].
  - destruct (set_credits_duration_cases series_prefix series_suffix duration db)
      as [-> | [b ->]]; [done|].
    match goal with
    | |- context [update_set_where _ ?sets ?cond] =>
        match goal with
        | |- context [insert_into _ ?vals] =>
            destruct (settings_insert_or_update_keeps b vals sets cond db) as [H1 H2];
              [compute_done|compute_done|]
        end
    end.
    split; [by apply Hsame|exact H2].
  - unfold save_series_settings.
    match goal with
    | |- context [insert_on_conflict_do_update _ ?vals ?target ?sets] =>
        destruct (settings_upsert_keeps vals target sets db) as [H1 H2];
          [compute_done|compute_done|]
    end.
    split; [by apply Hsame|exact H2].
  - destruct (set_intro_markers_cases series_prefix series_suffix start end_ db)
      as [-> | [b ->]]; [done|].
    match goal with
    | |- context [update_set_where _ ?sets ?cond] =>
        match goal with
        | |- context [insert_into _ ?vals] =>
            destruct (settings_insert_or_update_keeps b vals sets cond db) as [H1 H2];
              [compute_done|compute_done|]
        end
    end.
    split; [by apply Hsame|exact H2].
  - destruct (set_outro_marker_cases series_prefix series_suffix start db)
      as [-> | [b ->]]; [done|].
    match goal with
    | |- context [update_set_where _ ?sets ?cond] =>
        match goal with
        | |- context [insert_into _ ?vals] =>
            destruct (settings_insert_or_update_keeps b vals sets cond db) as [H1 H2];
              [compute_done|compute_done|]
        end
    end.
    split; [by apply Hsame|exact H2].
  - destruct (clear_skip_markers_cases series_prefix series_suffix marker_type db)
      as [-> | (sets & Hp & Hs & ->)]; [done|].
    destruct (settings_insert_or_update_keeps false [] sets
                [ ("series_prefix", VText series_prefix);
                  ("series_suffix", VText series_suffix) ] db Hp Hs) as [H1 H2].
    split; [by apply Hsame|exact H2].
  - rewrite RELIS_init_db_eq. cbn [snd]. unfold playback_rows, series_settings_rows.
    destruct (db !! "playback") as [tp|] eqn:Hp,
             (db !! "series_settings") as [ts|] eqn:Hs;
      rewrite ?lookup_insert_eq, ?lookup_insert_ne, ?Hp, ?Hs by done;
      rewrite ?lookup_insert_eq, ?lookup_insert_ne, ?Hp, ?Hs by done;
      split; try done; apply prefix_nil.
  - unfold RELIS.save_playback.
    match goal with
    | |- context [insert_on_conflict_do_update _ ?vals ?target ?sets] =>
        destruct (playback_upsert_keeps vals target sets db) as [H1 H2]; [compute_done|]
    end.
    split; [exact H1|by apply Hsame'].
  - unfold RELIS.save_series_settings.
    match goal with
    | |- context [insert_on_conflict_do_update _ ?vals ?target ?sets] =>
        destruct (settings_upsert_keeps vals target sets db) as [H1 H2];
          [compute_done|compute_done|]
    end.
    split; [by apply Hsame|exact H2].
Qed.

(** X4: whatever the store, after any sequence of calls of the writers of
    either version, the file names of the [playback] rows, in rowid order,
    start with the file names that were there before, and so do the
    (prefix, suffix) keys of the [series_settings] rows: no call deletes a
    record, renames it or moves it. *)
Theorem calls_keep_records calls db :
  ((λ r, r !!! "filename") <$> playback_rows db)
    `prefix_of` ((λ r, r !!! "filename") <$> playback_rows (after calls db))
  ∧ ((λ r, (r !!! "series_prefix", r !!! "series_suffix")) <$> series_settings_rows db)
      `prefix_of`
    ((λ r, (r !!! "series_prefix", r !!! "series_suffix"))
       <$> series_settings_rows (after calls db)).
Proof.
  unfold after. induction calls as [|c calls IH] using rev_ind; [done|].
  rewrite foldl_snoc. destruct IH as [IH1 IH2].
  destruct (perform_keeps_records c (foldl (λ db c, (perform c db).2) db calls))
    as [H1 H2].
  split; etrans; eauto.
Qed.

(** ** X5: [get_playback_batch_status] *)

Lemma foldl_fill_default_lookup (d : value) (fs : list string)
    (result : gmap string value) k :
  foldl (λ result filename,
           match result !! filename with
           | Some _ => result
           | None => <[filename := d]> result
           end) result fs !! k
  = match result !! k with
    | Some v => Some v
    | None => if decide (k ∈ fs) then Some d else None
    end.
Proof.
  revert result. induction fs as [|f fs IH]; intros result; simpl.
  - by destruct (result !! k).
  - rewrite IH. destruct (result !! f) eqn:Ef.
    + destruct (result !! k) eqn:Ek; [done|].
      destruct (decide (k ∈ fs)), (decide (k ∈ f :: fs)); try done.
      * exfalso. apply n. by right.
      * apply elem_of_cons in e as [->|?]; [congruence|done].
    + destruct (decide (f = k)) as [->|Hne].
      * rewrite lookup_insert_eq, Ef. rewrite decide_True by left. done.
      * rewrite lookup_insert_ne by done. destruct (result !! k); [done|].
        destruct (decide (k ∈ fs)), (decide (k ∈ f :: fs)); try done.
        -- exfalso. apply n. by right.
        -- apply elem_of_cons in e as [->|?]; [congruence|done].
Qed.

Lemma foldl_const_lookup (d : value) (fs : list string) (acc : gmap string value) k :
  foldl (λ result filename, <[filename := d]> result) acc fs !! k
  = if decide (k ∈ fs) then Some d else acc !! k.
Proof.
  induction fs as [|f fs IH] using rev_ind; [done|].
  rewrite foldl_snoc. destruct (decide (f = k)) as [->|Hne].
  - rewrite lookup_insert_eq, decide_True; [done|]. apply elem_of_app. right. left.
  - rewrite lookup_insert_ne, IH by done.
    destruct (decide (k ∈ fs)), (decide (k ∈ fs ++ [f])) as [Hin|Hout]; try done.
    + exfalso. apply Hout, elem_of_app. by left.
    + apply elem_of_app in Hin as [?|Hin%list_elem_of_singleton]; congruence.
Qed.

Lemma foldl_insert_lookup (key : gmap string value → string)
    (val : gmap string value → value)
    (rows : list (gmap string value)) (acc : gmap string value) k :
  foldl (λ result r, <[key r := val r]> result) acc rows !! k
  = match last (filter (λ r, key r = k) rows) with
    | Some r => Some (val r)
    | None => acc !! k
    end.
Proof.
  induction rows as [|r rows IH] using rev_ind; [done|].
  rewrite foldl_snoc, filter_app, filter_cons, filter_nil.
  destruct (decide (key r = k)) as [<-|Hne].
  - by rewrite lookup_insert_eq, last_snoc.
  - by rewrite lookup_insert_ne, app_nil_r.
Qed.

(** The rows that [filename IN (filenames)] selects and that are filed under
    the key [f] are the rows stored under [f]. *)
Lemma filter_selected_filename (filenames : list string) f
    (rows : list (gmap string value)) :
  f ∈ filenames →
  filter (λ r, text_of (r !!! "filename") = f)
    (filter (λ r, existsb (sql_eq (r !!! "filename")) (VText <$> filenames) = true) rows)
  = filter (λ r, r !!! "filename" = VText f) rows.
Proof.
  intros Hin. rewrite list_filter_filter. apply list_filter_iff. intros r.
  rewrite existsb_sql_eq_text. split.
  - intros [<- (g & _ & ->)]. done.
  - intros Hr. rewrite Hr. split; [done|]. by exists f.
Qed.

Lemma get_playback_status_no_table f db :
  db !! "playback" = None → get_playback_status f db = (Ok VNull, db).
Proof.
  intros Ht. unfold get_playback_status, try_except, mbind, Sql_bind, select_where.
  by rewrite Ht.
Qed.

Lemma truthy_coalesce v :
  (if truthy (coalesce v (VText "")) then coalesce v (VText "") else VText "")
  = (if truthy v then v else VText "").
Proof. by destruct v. Qed.

Lemma get_playback_batch_status_agrees db directory filenames :
  store_ok db →
  ∃ result,
    get_playback_batch_status directory filenames db = (Ok result, db)
    ∧ (∀ k, is_Some (result !! k) ↔ k ∈ filenames)
    ∧ ∀ f, f ∈ filenames →
        ∃ status,
          get_playback_status f db = (Ok status, db)
          ∧ result !! f = Some (if truthy status then status else VText "").
Proof.
  intros [Hok _].
  unfold get_playback_batch_status. case_bool_decide as Hnil.
  { subst. exists ∅. split; [done|]. split.
    - intros k. rewrite lookup_empty. split; [by intros [? ?]|by intros ?%elem_of_nil].
    - by intros f ?%elem_of_nil. }
  assert (∀ k, is_Some (foldl (λ result filename, <[filename := VText ""]> result)
                          (∅ : gmap string value) filenames !! k) ↔ k ∈ filenames)
    as Hdom.
  { intros k. rewrite foldl_const_lookup, lookup_empty.
    destruct (decide (k ∈ filenames)); split; try done; by intros [? ?]. }
  unfold try_except, select_where_in, mbind, Sql_bind.
  destruct (db !! "playback") as [t|] eqn:Ht.
  2:{ eexists. split; [done|]. split; [exact Hdom|]. intros f Hin.
      exists VNull. split; [by apply get_playback_status_no_table|].
      by rewrite foldl_const_lookup, decide_True. }
  destruct (Hok t eq_refl) as (Hs & Hnd & _).
  assert (has_column t "filename" = true) as Hf.
  { pose proof (playback_has_columns t ["filename"] Hs eq_refl) as Hf.
    unfold has_columns in Hf. simpl in Hf. by rewrite andb_true_r in Hf. }
  unfold has_columns. simpl. rewrite Hf. simpl. rewrite !andb_true_r.
  destruct (has_column t "status") eqn:Hst; simpl.
  2:{ eexists. split; [done|]. split; [exact Hdom|]. intros f Hin.
      exists VNull. split.
      - by rewrite (get_playback_status_eq f db t Ht Hs), Hst.
      - by rewrite foldl_const_lookup, decide_True. }
  eexists. split; [done|]. split.
  - intros k. rewrite foldl_fill_default_lookup. rewrite foldl_insert_lookup, lookup_empty.
    destruct (last _) as [r|] eqn:Hl.
    + split; [intros _|by eexists].
      apply last_Some in Hl as [l' Hl'].
      assert (r ∈ filter (λ r, text_of (r !!! "filename") = k)
                    (filter (λ r, existsb (sql_eq (r !!! "filename"))
                                    (VText <$> filenames) = true) (tbl_rows t))) as Hr.
      { rewrite Hl'. apply elem_of_app. right. left. }
      apply list_elem_of_filter in Hr as [<- [Hsel _]%list_elem_of_filter].
      apply existsb_sql_eq_text in Hsel as (g & Hg & ->). done.
    + destruct (decide (k ∈ filenames)); split; try done; by intros [? ?].
  - intros f Hin. eexists. split; [by rewrite (get_playback_status_eq f db t Ht Hs), Hst|].
    rewrite foldl_fill_default_lookup. rewrite foldl_insert_lookup, lookup_empty.
    rewrite (filter_selected_filename filenames f _ Hin).
    pose proof (filter_at_most_one (λ r : gmap string value, r !!! "filename")
                  (VText f) _ Hnd) as Hone. cbv beta in Hone.
    destruct (filter _ (tbl_rows t)) as [|r [|r' l]]; [| |simpl in Hone; lia]; simpl.
    + by rewrite decide_True.
    + by rewrite truthy_coalesce.
Qed.

(** X5: on every reachable store, for every directory and every list of file
    names, [get_playback_batch_status] returns a dictionary whose keys are
    exactly the file names given, and the entry of each is what
    [get_playback_status] returns for that file name, with the empty text in
    place of [None]: the stored status of the record kept under the file name
    as given (the directory plays no part), and the empty text when there is
    no such record, no status, or the table or its column [status] is
    missing. *)
Theorem get_playback_batch_status_spec db directory filenames :
  reachable db →
  ∃ result,
    get_playback_batch_status directory filenames db = (Ok result, db)
    ∧ (∀ k, is_Some (result !! k) ↔ k ∈ filenames)
    ∧ ∀ f, f ∈ filenames →
        ∃ status,
          get_playback_status f db = (Ok status, db)
          ∧ result !! f = Some (if truthy status then status else VText "").
Proof. intros Hreach. by apply get_playback_batch_status_agrees, reachable_store_ok. Qed.

Lemma get_playback_batch_status_spec_witness :
  let db := after [ Init_db; Save_playback "a.mkv" 95 100 95 None None ] ∅ in
  reachable db
  ∧ ∃ result,
      get_playback_batch_status "/d" ["a.mkv"; "b.mkv"] db = (Ok result, db)
      ∧ is_Some (result !! "a.mkv")
      ∧ is_Some (result !! "b.mkv")
      ∧ result !! "c.mkv" = None.
Proof.
  intros db. assert (reachable db) as Hr by apply reachable_after.
  split; [exact Hr|].
  destruct (get_playback_batch_status_spec db "/d" ["a.mkv"; "b.mkv"] Hr)
    as (result & Heq & Hdom & _).
  exists result. split; [exact Heq|].
  split; [apply Hdom; compute_done|]. split; [apply Hdom; compute_done|].
  apply eq_None_not_Some. rewrite Hdom. compute_done.
Defined.

(** ** Reading and writing the [series_settings] table

    The readers select by the key (prefix, suffix) and return the first row
    found.  A writer either appends the row of a key that has none, or
    assigns its SET list to the rows of the key; the rows of another key stay
    as they are. *)

Lemma series_settings_has_columns_credits t cs :
  series_settings_ok t →
  has_column t "credits_duration" = true →
  forallb (λ c, bool_decide
                  (c ∈ ["series_prefix"; "series_suffix"; "autoplay"; "skip_intro";
                        "skip_outro"; "intro_start"; "intro_end"; "description";
                        "credits_duration"]))
          cs = true →
  has_columns t cs = true.
Proof.
  intros Hok Hcd Hsub. unfold has_columns. apply forallb_forall. intros c Hin.
  rewrite forallb_forall in Hsub. apply Hsub, bool_decide_eq_true in Hin.
  destruct (decide (c = "credits_duration")) as [->|Hne]; [done|].
  pose proof (series_settings_has_columns t [c] Hok) as H.
  unfold has_columns in H. simpl in H. rewrite !andb_true_r in H. apply H.
  apply bool_decide_eq_true.
  repeat (apply elem_of_cons in Hin as [->|Hin]; [compute_done || done|]).
  by apply elem_of_nil in Hin.
Qed.

Lemma filter_key p s (rows : list (gmap string value)) :
  filter (λ r, row_matches [("series_prefix", VText p); ("series_suffix", VText s)] r
               = true) rows
  = filter (is_key p s) rows.
Proof. apply list_filter_iff. intros r. apply row_matches_key. Qed.

Lemma select_settings_by_key cols p s db t :
  db !! "series_settings" = Some t →
  series_settings_ok t →
  select_where cols "series_settings"
    [("series_prefix", VText p); ("series_suffix", VText s)] db
  = if has_columns t cols
    then (Ok (filter (is_key p s) (tbl_rows t)), db)
    else (Raise OperationalError, db).
Proof.
  intros Ht Hok. unfold select_where. rewrite Ht.
  assert (has_columns t [("series_prefix", VText p); ("series_suffix", VText s)].*1
          = true) as -> by (by apply series_settings_has_columns).
  rewrite andb_true_r. destruct (has_columns t cols); [|done].
  by rewrite filter_key.
Qed.

Lemma get_series_settings_eq p s db t :
  db !! "series_settings" = Some t →
  series_settings_ok t →
  has_column t "credits_duration" = true →
  get_series_settings p s db
  = (Ok ((λ r, (r !!! "autoplay", r !!! "skip_intro", r !!! "skip_outro",
                coalesce (r !!! "intro_start") (VText ""),
                coalesce (r !!! "intro_end") (VText ""),
                coalesce (r !!! "credits_duration") (VText "")))
           <$> head (filter (is_key p s) (tbl_rows t))), db).
Proof.
  intros Ht Hok Hcd. unfold get_series_settings, try_except, mbind, Sql_bind.
  rewrite (select_settings_by_key _ p s db t Ht Hok).
  rewrite (series_settings_has_columns_credits t _ Hok Hcd) by done.
  unfold fetchone. by destruct (head _).
Qed.

Lemma get_skip_markers_eq p s db t :
  db !! "series_settings" = Some t →
  series_settings_ok t →
  has_column t "credits_duration" = true →
  get_skip_markers p s db
  = (Ok ((λ r, (r !!! "intro_start", r !!! "intro_end", r !!! "credits_duration"))
           <$> head (filter (is_key p s) (tbl_rows t))), db).
Proof.
  intros Ht Hok Hcd. unfold get_skip_markers, try_except, mbind, Sql_bind.
  rewrite (select_settings_by_key _ p s db t Ht Hok).
  rewrite (series_settings_has_columns_credits t _ Hok Hcd) by done.
  unfold fetchone. by destruct (head _).
Qed.

Lemma get_credits_duration_eq p s db t :
  db !! "series_settings" = Some t →
  series_settings_ok t →
  has_column t "credits_duration" = true →
  get_credits_duration p s db
  = (Ok (default VNull
           ((λ r, r !!! "credits_duration")
              <$> head (filter (is_key p s) (tbl_rows t)))), db).
Proof.
  intros Ht Hok Hcd. unfold get_credits_duration, try_except, mbind, Sql_bind.
  rewrite (select_settings_by_key _ p s db t Ht Hok).
  rewrite (series_settings_has_columns_credits t _ Hok Hcd) by done.
  unfold fetchone. by destruct (head _).
Qed.

Lemma series_settings_exist_eq p s db t :
  db !! "series_settings" = Some t →
  series_settings_ok t →
  series_settings_exist p s db
  = (Ok (bool_decide (filter (is_key p s) (tbl_rows t) ≠ [])), db).
Proof.
  intros Ht Hok. unfold series_settings_exist, try_except, mbind, Sql_bind.
  rewrite (select_settings_by_key _ p s db t Ht Hok).
  change (has_columns t []) with true. cbv iota. unfold mret, Sql_ret. do 2 f_equal.
  destruct (filter _ _); [done|].
  rewrite (bool_decide_eq_true_2 (_ ≠ _)) by done.
  apply bool_decide_eq_true. simpl. lia.
Qed.

Section settings_rows.
Implicit Types (r : gmap string value) (sets vals cond : list (string * value))
  (rows : list (gmap string value)).

Lemma is_key_assign sets r p s :
  "series_prefix" ∉ sets.*1 → "series_suffix" ∉ sets.*1 →
  is_key p s (assign sets r) ↔ is_key p s r.
Proof. intros ? ?. unfold is_key. by rewrite !assign_lookup_total_ne. Qed.

Lemma is_key_inj p s p' s' r : is_key p s r → is_key p' s' r → p' = p ∧ s' = s.
Proof. intros [H1 H2] [H1' H2']. split; congruence. Qed.

(** The rows of key (p, s) after the rows of that key were assigned [sets]. *)
Lemma filter_key_assigned (sel : gmap string value → bool) sets rows p s :
  "series_prefix" ∉ sets.*1 → "series_suffix" ∉ sets.*1 →
  (∀ r, sel r = true ↔ is_key p s r) →
  filter (is_key p s) ((λ r, if sel r then assign sets r else r) <$> rows)
  = assign sets <$> filter (is_key p s) rows.
Proof.
  intros Hp Hs Hsel. induction rows as [|x rows IH]; [done|].
  rewrite fmap_cons, !filter_cons. destruct (sel x) eqn:E.
  - apply Hsel in E as E'. rewrite !decide_True by (by rewrite ?is_key_assign).
    rewrite fmap_cons. by f_equal.
  - assert (¬ is_key p s x) by (rewrite <- Hsel; congruence).
    by rewrite !decide_False.
Qed.

(** The rows of another key. *)
Lemma filter_key_other (sel : gmap string value → bool) sets rows p s p' s' :
  "series_prefix" ∉ sets.*1 → "series_suffix" ∉ sets.*1 →
  (∀ r, sel r = true → is_key p s r) →
  ¬ (p' = p ∧ s' = s) →
  filter (is_key p' s') ((λ r, if sel r then assign sets r else r) <$> rows)
  = filter (is_key p' s') rows.
Proof.
  intros Hp Hs Hsel Hne. induction rows as [|x rows IH]; [done|].
  rewrite fmap_cons, !filter_cons. destruct (sel x) eqn:E.
  - apply Hsel in E. rewrite !decide_False; [done| |].
    + intros H. by apply Hne, (is_key_inj _ _ _ _ x).
    + rewrite is_key_assign by done. intros H. by apply Hne, (is_key_inj _ _ _ _ x).
  - destruct (decide (is_key p' s' x)); by rewrite IH.
Qed.

Lemma existsb_key_match r rows p s :
  (∀ r0, key_match ["series_prefix"; "series_suffix"] r r0 = true ↔ is_key p s r0) →
  existsb (key_match ["series_prefix"; "series_suffix"] r) rows
  = bool_decide (filter (is_key p s) rows ≠ []).
Proof.
  intros Hk. destruct (existsb _ rows) eqn:E; symmetry.
  - apply bool_decide_eq_true. apply existsb_exists in E as (r0 & Hin & Hm).
    intros Hnil. assert (r0 ∈ filter (is_key p s) rows) as H.
    { apply list_elem_of_filter. split; [by apply Hk|by apply list_elem_of_In]. }
    rewrite Hnil in H. by apply elem_of_nil in H.
  - apply bool_decide_eq_false. intros Hne. apply Hne.
    apply filter_none. intros r0 Hin Hr0.
    assert (existsb (key_match ["series_prefix"; "series_suffix"] r) rows = true);
      [|congruence].
    apply existsb_exists. exists r0. split; [by apply list_elem_of_In|by apply Hk].
Qed.

Lemma upsert_rows_filter_key r sets rows p s :
  is_key p s r →
  "series_prefix" ∉ sets.*1 → "series_suffix" ∉ sets.*1 →
  filter (is_key p s) (upsert_rows ["series_prefix"; "series_suffix"] r sets rows)
  = match filter (is_key p s) rows with
    | [] => [r]
    | l => assign sets <$> l
    end.
Proof.
  intros [Hrp Hrs] Hp Hs. unfold upsert_rows.
  rewrite (existsb_key_match r rows p s) by (intros r0; by apply key_match_settings).
  case_bool_decide as Hne.
  - rewrite (filter_key_assigned _ sets rows p s) by
      (done || intros r0; by apply key_match_settings).
    by destruct (filter _ rows).
  - rewrite filter_app, Hne. simpl.
    by rewrite filter_cons, decide_True.
Qed.

Lemma upsert_rows_filter_other_key r sets rows p s p' s' :
  is_key p s r →
  "series_prefix" ∉ sets.*1 → "series_suffix" ∉ sets.*1 →
  ¬ (p' = p ∧ s' = s) →
  filter (is_key p' s') (upsert_rows ["series_prefix"; "series_suffix"] r sets rows)
  = filter (is_key p' s') rows.
Proof.
  intros [Hrp Hrs] Hp Hs Hne. unfold upsert_rows. destruct (existsb _ rows).
  - apply (filter_key_other _ sets rows p s); try done.
    intros r0. by apply key_match_settings.
  - rewrite filter_app, filter_cons, decide_False, filter_nil, app_nil_r; [done|].
    intros H. by apply Hne, (is_key_inj _ _ _ _ r).
Qed.

End settings_rows.

(** The store after a successful upsert on [series_settings]. *)
Lemma save_series_settings_eq p s a si so i_s i_e cd db t :
  db !! "series_settings" = Some t →
  series_settings_ok t →
  has_column t "credits_duration" = true →
  int64 a = true → int64 si = true → int64 so = true →
  opt_int64 i_s = true → opt_int64 i_e = true → opt_int64 cd = true →
  save_series_settings p s a si so i_s i_e cd db
  = (Ok true,
     <["series_settings" :=
         Table (tbl_columns t) (tbl_pkey t)
           (upsert_rows ["series_prefix"; "series_suffix"]
              (new_row t
                 [ ("series_prefix", VText p); ("series_suffix", VText s);
                   ("autoplay", VInt a); ("skip_intro", VInt si);
                   ("skip_outro", VInt so); ("intro_start", opt_int i_s);
                   ("intro_end", opt_int i_e); ("credits_duration", opt_int cd) ])
              [ ("autoplay", VInt a); ("skip_intro", VInt si);
                ("skip_outro", VInt so); ("intro_start", opt_int i_s);
                ("intro_end", opt_int i_e); ("credits_duration", opt_int cd) ]
              (tbl_rows t))]> db).
Proof.
  intros Ht Hok Hcd Ha Hsi Hso His Hie Hcd64.
  unfold save_series_settings. rewrite upsert_call_eq, Ht.
  rewrite !(series_settings_has_columns_credits t _ Hok Hcd) by done.
  rewrite (forallb_bindable (_ ++ _)) by bindable.
  rewrite (series_settings_not_null_ok t _ p s Hok)
    by (unfold new_row; simpl; by row_lookup).
  destruct Hok as [-> _]. by rewrite bool_decide_eq_true_2.
Qed.

(** ** X6: what [save_series_settings] stores is what the readers return *)

(** X6: on every reachable store whose [series_settings] table has the column
    [credits_duration], [save_series_settings] with flags and optional values
    in the 64-bit range succeeds, and afterwards
    [get_series_settings] returns the three flags and the three optional
    values just saved (the empty text for [None]), [get_skip_markers] and
    [get_credits_duration] return the optional values as saved, and
    [series_settings_exist] is true: the call replaces whatever markers the
    series had.  What [get_series_settings] returns for any other series is
    as before. *)
Theorem readers_after_save_series_settings db p s a si so i_s i_e cd :
  reachable db →
  (∃ t, db !! "series_settings" = Some t ∧ has_column t "credits_duration" = true) →
  int64 a = true → int64 si = true → int64 so = true →
  opt_int64 i_s = true → opt_int64 i_e = true → opt_int64 cd = true →
  let db' := (save_series_settings p s a si so i_s i_e cd db).2 in
  (save_series_settings p s a si so i_s i_e cd db).1 = Ok true
  ∧ get_series_settings p s db'
    = (Ok (Some (VInt a, VInt si, VInt so,
                 coalesce (opt_int i_s) (VText ""), coalesce (opt_int i_e) (VText ""),
                 coalesce (opt_int cd) (VText ""))), db')
  ∧ get_skip_markers p s db' = (Ok (Some (opt_int i_s, opt_int i_e, opt_int cd)), db')
  ∧ get_credits_duration p s db' = (Ok (opt_int cd), db')
  ∧ series_settings_exist p s db' = (Ok true, db')
  ∧ ∀ p' s', ¬ (p' = p ∧ s' = s) →
      (get_series_settings p' s' db').1 = (get_series_settings p' s' db).1.
Proof.
  intros Hreach (t & Ht & Hcd) Ha Hsi Hso His Hie Hcd64 db'.
  apply reachable_store_ok in Hreach as [_ Hok].
  specialize (Hok t Ht).
  unfold db'.
  rewrite (save_series_settings_eq p s a si so i_s i_e cd db t Ht Hok Hcd) by done.
  cbn [fst snd]. split; [done|].
  set (t' := Table _ _ _).
  assert (<["series_settings" := t']> db !! "series_settings" = Some t') as Ht'
    by apply lookup_insert_eq.
  assert (series_settings_ok t') as Hok' by exact Hok.
  assert (has_column t' "credits_duration" = true) as Hcd' by exact Hcd.
  rewrite (get_series_settings_eq p s _ t' Ht' Hok' Hcd'),
    (get_skip_markers_eq p s _ t' Ht' Hok' Hcd'),
    (get_credits_duration_eq p s _ t' Ht' Hok' Hcd'),
    (series_settings_exist_eq p s _ t' Ht' Hok').
  assert (is_key p s
            (new_row t
               [ ("series_prefix", VText p); ("series_suffix", VText s);
                 ("autoplay", VInt a); ("skip_intro", VInt si);
                 ("skip_outro", VInt so); ("intro_start", opt_int i_s);
                 ("intro_end", opt_int i_e); ("credits_duration", opt_int cd) ])) as Hkey
    by (split; unfold new_row; simpl; by row_lookup).
  assert (filter (is_key p s) (tbl_rows t') ≠ []
          ∧ ∀ r, head (filter (is_key p s) (tbl_rows t')) = Some r →
                 r !!! "autoplay" = VInt a ∧ r !!! "skip_intro" = VInt si
                 ∧ r !!! "skip_outro" = VInt so ∧ r !!! "intro_start" = opt_int i_s
                 ∧ r !!! "intro_end" = opt_int i_e
                 ∧ r !!! "credits_duration" = opt_int cd) as [Hne Hrow].
  { unfold t'. cbn [tbl_rows].
    rewrite upsert_rows_filter_key; [|done|compute_done|compute_done].
    destruct (filter _ (tbl_rows t)) as [|r0 l]; (split; [done|]);
      intros r [= <-]; unfold new_row; simpl; by row_lookup. }
  destruct (filter (is_key p s) (tbl_rows t')) as [|r l]; [done|].
  destruct (Hrow r eq_refl) as (H1 & H2 & H3 & H4 & H5 & H6).
  cbn [head fmap option_fmap option_map default].
  rewrite H1, H2, H3, H4, H5, H6. do 4 (split; [done|]).
  intros p' s' Hne'.
    rewrite (get_series_settings_eq p' s' _ t' Ht' Hok' Hcd'),
      (get_series_settings_eq p' s' _ t Ht Hok Hcd).
    unfold t'. cbn [tbl_rows fst].
    by rewrite (upsert_rows_filter_other_key _ _ _ p s p' s') by (done || compute_done).
Qed.

Lemma readers_after_save_series_settings_witness :
  reachable fresh_db
  ∧ (∃ t, fresh_db !! "series_settings" = Some t
          ∧ has_column t "credits_duration" = true)
  ∧ int64 1 = true ∧ int64 0 = true
  ∧ opt_int64 (Some 30%Z) = true ∧ opt_int64 (Some 90%Z) = true
  ∧ opt_int64 None = true
  ∧ (save_series_settings "Show" "S01" 1 0 1 (Some 30%Z) (Some 90%Z) None fresh_db).1
    = Ok true
  ∧ (get_series_settings "Show" "S01"
       (save_series_settings "Show" "S01" 1 0 1 (Some 30%Z) (Some 90%Z) None fresh_db).2).1
    = Ok (Some (VInt 1, VInt 0, VInt 1, VInt 30, VInt 90, VText "")).
Proof.
  assert (∃ t, fresh_db !! "series_settings" = Some t
               ∧ has_column t "credits_duration" = true) as Hc.
  { eexists. split; vm_compute; reflexivity. }
  split; [exact reachable_fresh_db|]. split; [exact Hc|].
  do 5 (split; [reflexivity|]).
  pose proof (readers_after_save_series_settings fresh_db "Show" "S01" 1 0 1
                (Some 30%Z) (Some 90%Z) None reachable_fresh_db Hc
                eq_refl eq_refl eq_refl eq_refl eq_refl eq_refl) as (H0 & H & _).
  cbv zeta in H. split; [exact H0|]. by rewrite H.
Defined.

(** The insert-or-update of the marker setters, on a table that has the
    columns named and with values that can be bound: it succeeds, the row of
    a key that had none is the new one, the rows of a key that had some are
    assigned [sets]. *)
Lemma settings_setter_eq p s vals sets db t :
  db !! "series_settings" = Some t →
  series_settings_ok t →
  has_columns t vals.*1 = true →
  has_columns t sets.*1 = true →
  forallb bindable vals.*2 = true →
  forallb bindable sets.*2 = true →
  is_key p s (new_row t vals) →
  "series_prefix" ∉ sets.*1 → "series_suffix" ∉ sets.*1 →
  ∃ rows',
    try_except
      (exist ← series_settings_exist p s;
       (if negb exist then insert_into "series_settings" vals
        else update_set_where "series_settings" sets
               [ ("series_prefix", VText p); ("series_suffix", VText s) ]);;
       commit;; mret true)
      (λ _, mret false) db
    = (Ok true, <["series_settings" := Table (tbl_columns t) (tbl_pkey t) rows']> db)
    ∧ filter (is_key p s) rows'
      = match filter (is_key p s) (tbl_rows t) with
        | [] => [new_row t vals]
        | l => assign sets <$> l
        end
    ∧ ∀ p' s', ¬ (p' = p ∧ s' = s) →
        filter (is_key p' s') rows' = filter (is_key p' s') (tbl_rows t).
Proof.
  intros Ht Hok Hvals Hsets Hvals64 Hsets64 Hkey Hp Hs.
  unfold try_except, mbind, Sql_bind.
  rewrite (series_settings_exist_eq p s db t Ht Hok).
  case_bool_decide as Hne; cbn [negb].
  - exists (update_rows sets [("series_prefix", VText p); ("series_suffix", VText s)]
              (tbl_rows t)). split; [|split].
    + unfold update_set_where, commit, mret, Sql_ret. rewrite Ht, Hsets.
      rewrite (series_settings_has_columns t _ Hok) by done.
      by rewrite forallb_app, Hsets64.
    + unfold update_rows.
      rewrite (filter_key_assigned _ sets _ p s) by (done || apply row_matches_key).
      by destruct (filter _ (tbl_rows t)).
    + intros p' s' Hne'. unfold update_rows.
      apply (filter_key_other _ sets _ p s); try done. intros r. apply row_matches_key.
  - exists (tbl_rows t ++ [new_row t vals]). split; [|split].
    + unfold insert_into, commit, mret, Sql_ret. rewrite Ht, Hvals, Hvals64.
      destruct Hkey as [Hkp Hks].
      rewrite (series_settings_not_null_ok t _ p s Hok Hkp Hks).
      destruct Hok as [Hpk _]. rewrite Hpk.
      rewrite (existsb_key_match _ _ p s) by (intros r0; by apply key_match_settings).
      by rewrite bool_decide_eq_false_2 by (by intros []).
    + rewrite filter_app, Hne. simpl. by rewrite filter_cons, decide_True.
    + intros p' s' Hne'.
      rewrite filter_app, filter_cons, decide_False, filter_nil, app_nil_r; [done|].
      intros H. by apply Hne', (is_key_inj _ _ _ _ (new_row t vals)).
Qed.

(** ** X7: [set_credits_duration] *)

(** X7: a negative duration is refused: [set_credits_duration] returns False
    and leaves the store as it was.  With a duration >= 0 in the 64-bit
    range, on every reachable store whose [series_settings] table has the
    column [credits_duration], it succeeds and [get_credits_duration] then returns the duration; the
    flags and the intro markers of the series read as before when the series
    had a row, and as 0, 0, 0 and no markers when the row is created by this
    call; the settings of every other series read as before. *)
Theorem set_credits_duration_spec db p s d :
  reachable db →
  ((d < 0)%Z → set_credits_duration p s d db = (Ok false, db))
  ∧ ((0 ≤ d)%Z →
     int64 d = true →
     (∃ t, db !! "series_settings" = Some t ∧ has_column t "credits_duration" = true) →
     let db' := (set_credits_duration p s d db).2 in
     (set_credits_duration p s d db).1 = Ok true
     ∧ get_credits_duration p s db' = (Ok (VInt d), db')
     ∧ (∃ o, get_series_settings p s db = (Ok o, db)
             ∧ get_series_settings p s db'
               = (Ok (Some match o with
                           | Some (a, si, so, i_s, i_e, _) => (a, si, so, i_s, i_e, VInt d)
                           | None => (VInt 0, VInt 0, VInt 0, VText "", VText "", VInt d)
                           end), db'))
     ∧ ∀ p' s', ¬ (p' = p ∧ s' = s) →
         (get_series_settings p' s' db').1 = (get_series_settings p' s' db).1).
Proof.
  intros Hreach. split.
  { intros Hneg. unfold set_credits_duration.
    by destruct (Z.ltb_spec d 0); [|lia]. }
  intros Hpos Hd (t & Ht & Hcd) db'. apply reachable_store_ok in Hreach as [_ Hok].
  specialize (Hok t Ht).
  destruct (settings_setter_eq p s
              [ ("series_prefix", VText p); ("series_suffix", VText s);
                ("autoplay", VInt 0); ("skip_intro", VInt 0);
                ("skip_outro", VInt 0); ("credits_duration", VInt d) ]
              [ ("credits_duration", VInt d) ] db t Ht Hok)
    as (rows' & Heq & Hown & Hother).
  { by apply series_settings_has_columns_credits. }
  { by apply series_settings_has_columns_credits. }
  { bindable. }
  { bindable. }
  { split; unfold new_row; simpl; by row_lookup. }
  { compute_done. }
  { compute_done. }
  assert (set_credits_duration p s d db
          = (Ok true, <["series_settings" := Table (tbl_columns t) (tbl_pkey t) rows']> db))
    as Hcall.
  { unfold set_credits_duration. destruct (Z.ltb_spec d 0); [lia|]. exact Heq. }
  unfold db'. rewrite Hcall. cbn [fst snd]. split; [done|].
  set (t' := Table _ _ _).
  assert (<["series_settings" := t']> db !! "series_settings" = Some t') as Ht'
    by apply lookup_insert_eq.
  assert (series_settings_ok t') as Hok' by exact Hok.
  assert (has_column t' "credits_duration" = true) as Hcd' by exact Hcd.
  rewrite (get_credits_duration_eq p s _ t' Ht' Hok' Hcd'),
    (get_series_settings_eq p s _ t' Ht' Hok' Hcd'),
    (get_series_settings_eq p s _ t Ht Hok Hcd).
  change (tbl_rows t') with rows'. rewrite Hown. split; [|split].
  - destruct (filter _ (tbl_rows t)) as [|r0 l]; simpl; unfold new_row; simpl;
      by row_lookup.
  - eexists. split; [done|].
    destruct (filter _ (tbl_rows t)) as [|r0 l]; simpl; [|by row_lookup].
    unfold new_row. simpl. row_lookup.
    by rewrite !(series_settings_default_row t) by (done || compute_done).
  - intros p' s' Hne.
    rewrite (get_series_settings_eq p' s' _ t' Ht' Hok' Hcd'),
      (get_series_settings_eq p' s' _ t Ht Hok Hcd).
    change (tbl_rows t') with rows'. cbn [fst]. by rewrite Hother.
Qed.

Lemma set_credits_duration_spec_witness :
  reachable fresh_db
  ∧ (-1 < 0)%Z
  ∧ set_credits_duration "Show" "S01" (-1) fresh_db = (Ok false, fresh_db)
  ∧ (0 ≤ 120)%Z
  ∧ int64 120 = true
  ∧ (∃ t, fresh_db !! "series_settings" = Some t
          ∧ has_column t "credits_duration" = true)
  ∧ (set_credits_duration "Show" "S01" 120 fresh_db).1 = Ok true
  ∧ get_credits_duration "Show" "S01" (set_credits_duration "Show" "S01" 120 fresh_db).2
    = (Ok (VInt 120), (set_credits_duration "Show" "S01" 120 fresh_db).2).
Proof.
  assert (-1 < 0)%Z as Hneg by lia. assert (0 ≤ 120)%Z as Hpos by lia.
  assert (∃ t, fresh_db !! "series_settings" = Some t
               ∧ has_column t "credits_duration" = true) as Hc.
  { eexists. split; vm_compute; reflexivity. }
  split; [exact reachable_fresh_db|]. split; [exact Hneg|].
  split; [exact (proj1 (set_credits_duration_spec fresh_db "Show" "S01" (-1)
                          reachable_fresh_db) Hneg)|].
  split; [exact Hpos|]. split; [reflexivity|]. split; [exact Hc|].
  destruct (proj2 (set_credits_duration_spec fresh_db "Show" "S01" 120
                     reachable_fresh_db) Hpos eq_refl Hc) as (Hres & Hget & _).
  split; [exact Hres|exact Hget].
Defined.

(** ** X8: intro markers and credits duration are independent partial updates *)

Lemma set_intro_markers_markers db p s start end_ t :
  store_ok db →
  (0 ≤ start < end_)%Z →
  int64 end_ = true →
  db !! "series_settings" = Some t →
  has_column t "credits_duration" = true →
  let db' := (set_intro_markers p s start end_ db).2 in
  (set_intro_markers p s start end_ db).1 = Ok true
  ∧ (∃ t', db' !! "series_settings" = Some t'
           ∧ has_column t' "credits_duration" = true)
  ∧ ∃ o, get_skip_markers p s db = (Ok o, db)
         ∧ get_skip_markers p s db'
           = (Ok (Some (VInt start, VInt end_,
                        match o with Some (_, _, c) => c | None => VNull end)), db').
Proof.
  intros [_ Hok] Hgood Hend Ht Hcd db'. specialize (Hok t Ht).
  assert (int64 start = true) as Hstart.
  { apply int64_spec in Hend. apply int64_spec. lia. }
  destruct (settings_setter_eq p s
              [ ("series_prefix", VText p); ("series_suffix", VText s);
                ("autoplay", VInt 0); ("skip_intro", VInt 0);
                ("skip_outro", VInt 0);
                ("intro_start", VInt start); ("intro_end", VInt end_) ]
              [ ("intro_start", VInt start); ("intro_end", VInt end_) ] db t Ht Hok)
    as (rows' & Heq & Hown & _).
  { by apply series_settings_has_columns. }
  { by apply series_settings_has_columns. }
  { bindable. }
  { bindable. }
  { split; unfold new_row; simpl; by row_lookup. }
  { compute_done. }
  { compute_done. }
  assert (set_intro_markers p s start end_ db
          = (Ok true, <["series_settings" := Table (tbl_columns t) (tbl_pkey t) rows']> db))
    as Hcall.
  { unfold set_intro_markers.
    destruct (Z.ltb_spec start 0); [lia|]. destruct (Z.ltb_spec end_ 0); [lia|].
    destruct (Z.leb_spec end_ start); [lia|]. exact Heq. }
  unfold db'. rewrite Hcall. cbn [fst snd]. split; [done|].
  set (t' := Table _ _ _).
  assert (<["series_settings" := t']> db !! "series_settings" = Some t') as Ht'
    by apply lookup_insert_eq.
  assert (series_settings_ok t') as Hok' by exact Hok.
  assert (has_column t' "credits_duration" = true) as Hcd' by exact Hcd.
  split; [by exists t'|].
  rewrite (get_skip_markers_eq p s _ t' Ht' Hok' Hcd'),
    (get_skip_markers_eq p s _ t Ht Hok Hcd).
  unfold t'. cbn [tbl_rows]. rewrite Hown. eexists. split; [done|].
  destruct (filter _ (tbl_rows t)) as [|r0 l]; simpl; [|by row_lookup].
  unfold new_row. simpl. row_lookup.
  by rewrite !(series_settings_default_row t) by (done || compute_done).
Qed.

Lemma set_credits_duration_markers db p s d t :
  store_ok db →
  (0 ≤ d)%Z →
  int64 d = true →
  db !! "series_settings" = Some t →
  has_column t "credits_duration" = true →
  let db' := (set_credits_duration p s d db).2 in
  (set_credits_duration p s d db).1 = Ok true
  ∧ (∃ t', db' !! "series_settings" = Some t'
           ∧ has_column t' "credits_duration" = true)
  ∧ ∃ o, get_skip_markers p s db = (Ok o, db)
         ∧ get_skip_markers p s db'
           = (Ok (Some (match o with Some (i_s, _, _) => i_s | None => VNull end,
                        match o with Some (_, i_e, _) => i_e | None => VNull end,
                        VInt d)), db').
Proof.
  intros [_ Hok] Hgood Hd Ht Hcd db'. specialize (Hok t Ht).
  destruct (settings_setter_eq p s
              [ ("series_prefix", VText p); ("series_suffix", VText s);
                ("autoplay", VInt 0); ("skip_intro", VInt 0);
                ("skip_outro", VInt 0); ("credits_duration", VInt d) ]
              [ ("credits_duration", VInt d) ] db t Ht Hok)
    as (rows' & Heq & Hown & _).
  { by apply series_settings_has_columns_credits. }
  { by apply series_settings_has_columns_credits. }
  { bindable. }
  { bindable. }
  { split; unfold new_row; simpl; by row_lookup. }
  { compute_done. }
  { compute_done. }
  assert (set_credits_duration p s d db
          = (Ok true, <["series_settings" := Table (tbl_columns t) (tbl_pkey t) rows']> db))
    as Hcall.
  { unfold set_credits_duration. destruct (Z.ltb_spec d 0); [lia|]. exact Heq. }
  unfold db'. rewrite Hcall. cbn [fst snd]. split; [done|].
  set (t' := Table _ _ _).
  assert (<["series_settings" := t']> db !! "series_settings" = Some t') as Ht'
    by apply lookup_insert_eq.
  assert (series_settings_ok t') as Hok' by exact Hok.
  assert (has_column t' "credits_duration" = true) as Hcd' by exact Hcd.
  split; [by exists t'|].
  rewrite (get_skip_markers_eq p s _ t' Ht' Hok' Hcd'),
    (get_skip_markers_eq p s _ t Ht Hok Hcd).
  unfold t'. cbn [tbl_rows]. rewrite Hown. eexists. split; [done|].
  destruct (filter _ (tbl_rows t)) as [|r0 l]; simpl; [|by row_lookup].
  unfold new_row. simpl. row_lookup.
  by rewrite !(series_settings_default_row t) by (done || compute_done).
Qed.

(** X8: on every reachable store whose [series_settings] table has the column
    [credits_duration], for 0 <= start < end and duration >= 0, end and
    duration in the 64-bit range, [set_intro_markers] and
    [set_credits_duration] for the same series both succeed, in either order,
    and [get_skip_markers] then returns the three values together: neither
    call overwrites what the other stored. *)
Theorem intro_markers_and_credits_duration db p s start end_ d :
  reachable db →
  (∃ t, db !! "series_settings" = Some t ∧ has_column t "credits_duration" = true) →
  (0 ≤ start < end_)%Z →
  (0 ≤ d)%Z →
  int64 end_ = true →
  int64 d = true →
  let db1 := (set_intro_markers p s start end_ db).2 in
  let db2 := (set_credits_duration p s d db).2 in
  (set_intro_markers p s start end_ db).1 = Ok true
  ∧ (set_credits_duration p s d db1).1 = Ok true
  ∧ (get_skip_markers p s (set_credits_duration p s d db1).2).1
    = Ok (Some (VInt start, VInt end_, VInt d))
  ∧ (set_credits_duration p s d db).1 = Ok true
  ∧ (set_intro_markers p s start end_ db2).1 = Ok true
  ∧ (get_skip_markers p s (set_intro_markers p s start end_ db2).2).1
    = Ok (Some (VInt start, VInt end_, VInt d)).
Proof.
  intros Hreach (t & Ht & Hcd) Hgood Hpos Hend Hd db1 db2.
  apply reachable_store_ok in Hreach as Hok.
  destruct (set_intro_markers_markers db p s start end_ t Hok Hgood Hend Ht Hcd)
    as (Hi & (t1 & Ht1 & Hcd1) & o1 & _ & Ho1).
  destruct (set_credits_duration_markers db p s d t Hok Hpos Hd Ht Hcd)
    as (Hc & (t2 & Ht2 & Hcd2) & o2 & _ & Ho2).
  fold db1 in Ht1, Ho1. fold db2 in Ht2, Ho2.
  assert (store_ok db1) as Hok1 by apply (perform_store_ok (Set_intro_markers _ _ _ _) _ Hok).
  assert (store_ok db2) as Hok2
    by apply (perform_store_ok (Set_credits_duration _ _ _) _ Hok).
  destruct (set_credits_duration_markers db1 p s d t1 Hok1 Hpos Hd Ht1 Hcd1)
    as (Hc' & _ & o1' & Ho1' & Hfin1).
  destruct (set_intro_markers_markers db2 p s start end_ t2 Hok2 Hgood Hend Ht2 Hcd2)
    as (Hi' & _ & o2' & Ho2' & Hfin2).
  rewrite Ho1 in Ho1'. injection Ho1' as <-.
  rewrite Ho2 in Ho2'. injection Ho2' as <-.
  rewrite Hfin1, Hfin2. done.
Qed.

Lemma intro_markers_and_credits_duration_witness :
  reachable fresh_db
  ∧ (∃ t, fresh_db !! "series_settings" = Some t
          ∧ has_column t "credits_duration" = true)
  ∧ (0 ≤ 30 < 90)%Z
  ∧ (0 ≤ 120)%Z
  ∧ int64 90 = true
  ∧ int64 120 = true
  ∧ (get_skip_markers "Show" "S01"
       (set_credits_duration "Show" "S01" 120
          (set_intro_markers "Show" "S01" 30 90 fresh_db).2).2).1
    = Ok (Some (VInt 30, VInt 90, VInt 120))
  ∧ (get_skip_markers "Show" "S01"
       (set_intro_markers "Show" "S01" 30 90
          (set_credits_duration "Show" "S01" 120 fresh_db).2).2).1
    = Ok (Some (VInt 30, VInt 90, VInt 120)).
Proof.
  assert (∃ t, fresh_db !! "series_settings" = Some t
               ∧ has_column t "credits_duration" = true) as Hc.
  { eexists. split; vm_compute; reflexivity. }
  assert (0 ≤ 30 < 90)%Z as Hgood by lia. assert (0 ≤ 120)%Z as Hpos by lia.
  split; [exact reachable_fresh_db|]. split; [exact Hc|].
  split; [exact Hgood|]. split; [exact Hpos|]. do 2 (split; [reflexivity|]).
  destruct (intro_markers_and_credits_duration fresh_db "Show" "S01"
              30 90 120 reachable_fresh_db Hc Hgood Hpos eq_refl eq_refl)
    as (_ & _ & H1 & _ & _ & H2).
  split; [exact H1|exact H2].
Defined.

(** ** X9: [clear_skip_markers] with scope 'intro' *)

(** X9: on every reachable store that has the [series_settings] table,
    clear_skip_markers(prefix, suffix, 'intro') succeeds, whether or not the
    series has a row, and creates none; when the table has the column
    [credits_duration], [get_skip_markers] then returns no intro markers and
    the credits duration as before for a series that had a row, still [None]
    for one that had none, and for every other series what it returned
    before. *)
Theorem clear_intro_markers_spec db p s :
  reachable db →
  (∃ t, db !! "series_settings" = Some t) →
  let db' := (clear_skip_markers p s "intro" db).2 in
  (clear_skip_markers p s "intro" db).1 = Ok true
  ∧ (series_settings_exist p s db').1 = (series_settings_exist p s db).1
  ∧ ((∃ t, db !! "series_settings" = Some t ∧ has_column t "credits_duration" = true) →
     (∃ o, get_skip_markers p s db = (Ok o, db)
           ∧ get_skip_markers p s db'
             = (Ok match o with
                   | Some (_, _, c) => Some (VNull, VNull, c)
                   | None => None
                   end, db'))
     ∧ ∀ p' s', ¬ (p' = p ∧ s' = s) →
         (get_skip_markers p' s' db').1 = (get_skip_markers p' s' db).1).
Proof.
  intros Hreach (t & Ht) db'. apply reachable_store_ok in Hreach as [_ Hok].
  specialize (Hok t Ht).
  assert (clear_skip_markers p s "intro" db
          = (Ok true,
             <["series_settings" :=
                 Table (tbl_columns t) (tbl_pkey t)
                   (update_rows [("intro_start", VNull); ("intro_end", VNull)]
                      [("series_prefix", VText p); ("series_suffix", VText s)]
                      (tbl_rows t))]> db)) as Hcall.
  { unfold clear_skip_markers. cbn [bool_decide decide_rel].
    rewrite bool_decide_eq_true_2 by done.
    unfold try_except, update_set_where, mbind, Sql_bind, commit, mret, Sql_ret.
    rewrite Ht. by rewrite !(series_settings_has_columns t _ Hok) by done. }
  unfold db'. rewrite Hcall. cbn [fst snd]. split; [done|].
  set (t' := Table _ _ _).
  assert (<["series_settings" := t']> db !! "series_settings" = Some t') as Ht'
    by apply lookup_insert_eq.
  assert (series_settings_ok t') as Hok' by exact Hok.
  assert (filter (is_key p s) (tbl_rows t')
          = assign [("intro_start", VNull); ("intro_end", VNull)]
              <$> filter (is_key p s) (tbl_rows t)) as Hown.
  { unfold t', update_rows. cbn [tbl_rows].
    apply (filter_key_assigned _ _ _ p s); try compute_done. apply row_matches_key. }
  split.
  { rewrite (series_settings_exist_eq p s _ t' Ht' Hok'),
      (series_settings_exist_eq p s _ t Ht Hok), Hown. cbn [fst].
    by destruct (filter _ (tbl_rows t)). }
  intros (t0 & Ht0 & Hcd). rewrite Ht in Ht0. injection Ht0 as <-.
  assert (has_column t' "credits_duration" = true) as Hcd' by exact Hcd.
  split.
  - rewrite (get_skip_markers_eq p s _ t' Ht' Hok' Hcd'),
      (get_skip_markers_eq p s _ t Ht Hok Hcd), Hown.
    eexists. split; [done|].
    destruct (filter _ (tbl_rows t)) as [|r0 l]; simpl; [done|]. by row_lookup.
  - intros p' s' Hne.
    rewrite (get_skip_markers_eq p' s' _ t' Ht' Hok' Hcd'),
      (get_skip_markers_eq p' s' _ t Ht Hok Hcd).
    unfold t', update_rows. cbn [tbl_rows fst].
    rewrite (filter_key_other _ _ _ p s p' s'); try done; try compute_done.
    intros r. apply row_matches_key.
Qed.

Lemma clear_intro_markers_spec_witness :
  let db := after [ Init_db;
                    Save_series_settings "Show" "S01" 1 1 1
                      (Some 30%Z) (Some 90%Z) (Some 120%Z);
                    Save_series_settings "Show" "S02" 0 0 0
                      (Some 40%Z) (Some 80%Z) None ] ∅ in
  reachable db
  ∧ (∃ t, db !! "series_settings" = Some t)
  ∧ (get_skip_markers "Show" "S01" db).1 = Ok (Some (VInt 30, VInt 90, VInt 120))
  ∧ (clear_skip_markers "Show" "S01" "intro" db).1 = Ok true
  ∧ (get_skip_markers "Show" "S01" (clear_skip_markers "Show" "S01" "intro" db).2).1
    = Ok (Some (VNull, VNull, VInt 120))
  ∧ (get_skip_markers "Show" "S02" (clear_skip_markers "Show" "S01" "intro" db).2).1
    = Ok (Some (VInt 40, VInt 80, VNull)).
Proof.
  intros db. assert (reachable db) as Hr by apply reachable_after.
  assert (∃ t, db !! "series_settings" = Some t ∧ has_column t "credits_duration" = true)
    as Hc by (eexists; split; vm_compute; reflexivity).
  assert (∃ t, db !! "series_settings" = Some t) as Ht
    by (destruct Hc as (t & Ht & _); by exists t).
  assert ((get_skip_markers "Show" "S01" db).1
          = Ok (Some (VInt 30, VInt 90, VInt 120))) as Hv by (vm_compute; reflexivity).
  assert ((get_skip_markers "Show" "S02" db).1
          = Ok (Some (VInt 40, VInt 80, VNull))) as Hv' by (vm_compute; reflexivity).
  split; [exact Hr|]. split; [exact Ht|]. split; [exact Hv|].
  destruct (clear_intro_markers_spec db "Show" "S01" Hr Ht) as (Hres & _ & Hmarkers).
  destruct (Hmarkers Hc) as [(o & Ho & Ho') Hother].
  split; [exact Hres|]. split.
  - rewrite Ho'. rewrite Ho in Hv. cbn [fst] in Hv. injection Hv as ->. reflexivity.
  - rewrite Hother; [exact Hv'|]. intros [_ [=]].
Defined.

(** ** X10: [init_db] on an arbitrary store *)

Lemma has_column_app t c col rows pk :
  has_column (Table (tbl_columns t ++ [col]) pk rows) c
  = has_column t c || bool_decide (c = col_name col).
Proof.
  unfold has_column, column_names. cbn [tbl_columns]. rewrite fmap_app. simpl.
  apply eq_true_iff_eq. rewrite orb_true_iff, !bool_decide_eq_true, elem_of_app.
  by rewrite list_elem_of_singleton.
Qed.

Lemma has_columns_app t cs col rows pk :
  col_name col ∉ cs →
  has_columns (Table (tbl_columns t ++ [col]) pk rows) cs = has_columns t cs.
Proof.
  intros Hnotin. unfold has_columns. induction cs as [|c cs IH]; [done|].
  apply not_elem_of_cons in Hnotin as [Hne Hnotin]. simpl.
  rewrite has_column_app, (bool_decide_eq_false_2 (c = _)) by done.
  by rewrite orb_false_r, IH.
Qed.

Lemma row_matches_insert cond c v (r : gmap string value) :
  c ∉ cond.*1 → row_matches cond (<[c := v]> r) = row_matches cond r.
Proof.
  intros Hnotin. unfold row_matches. induction cond as [|[c' v'] cond IH]; [done|].
  apply not_elem_of_cons in Hnotin as [Hne Hnotin]. simpl in *.
  by rewrite lookup_total_insert_ne, IH.
Qed.

Lemma filter_row_matches_insert cond c v (rows : list (gmap string value)) :
  c ∉ cond.*1 →
  filter (λ r, row_matches cond r = true) (insert c v <$> rows)
  = insert c v <$> filter (λ r, row_matches cond r = true) rows.
Proof.
  intros Hnotin. induction rows as [|r rows IH]; [done|].
  rewrite fmap_cons, !filter_cons, row_matches_insert by done.
  destruct (decide (row_matches cond r = true)); by rewrite IH.
Qed.

(** A selection by columns other than the one a migration adds: the rows
    selected are the old ones with the new column filled in. *)
Lemma select_where_added_column cols name cond col db t :
  db !! name = Some t →
  col_name col ∉ cols → col_name col ∉ cond.*1 →
  select_where cols name cond
    (<[name := Table (tbl_columns t ++ [col]) (tbl_pkey t)
                 (insert (col_name col) (col_default col) <$> tbl_rows t)]> db)
  = match select_where cols name cond db with
    | (Ok rows, _) =>
        (Ok (insert (col_name col) (col_default col) <$> rows),
         <[name := Table (tbl_columns t ++ [col]) (tbl_pkey t)
                     (insert (col_name col) (col_default col) <$> tbl_rows t)]> db)
    | (Raise e, _) =>
        (Raise e,
         <[name := Table (tbl_columns t ++ [col]) (tbl_pkey t)
                     (insert (col_name col) (col_default col) <$> tbl_rows t)]> db)
    end.
Proof.
  intros Ht Hcols Hcond. unfold select_where. rewrite lookup_insert_eq, Ht.
  rewrite !has_columns_app by done.
  destruct (has_columns t cols && has_columns t cond.*1); [|done]. cbn [negb tbl_rows].
  by rewrite filter_row_matches_insert.
Qed.

Lemma get_playback_playback_migrated f db :
  (get_playback f (playback_migrated db)).1 = (get_playback f db).1
  ∧ (get_playback_percent f (playback_migrated db)).1 = (get_playback_percent f db).1.
Proof.
  unfold playback_migrated. destruct (db !! "playback") as [t|] eqn:Ht.
  - destruct (has_column t "outro_triggered"); [done|].
    unfold get_playback, get_playback_percent, try_except, mbind, Sql_bind.
    rewrite !(select_where_added_column _ "playback" _
                (Column "outro_triggered" (VInt 0) false) db t Ht) by compute_done.
    split.
    + destruct (select_where _ "playback" _ db) as [[rows|e] db0]; [|by destruct e].
      destruct rows as [|r rows]; [done|]. simpl.
      by rewrite !lookup_total_insert_ne.
    + destruct (select_where _ "playback" _ db) as [[rows|e] db0]; [|by destruct e].
      destruct rows as [|r rows]; [done|]. simpl.
      by rewrite !lookup_total_insert_ne.
  - unfold get_playback, get_playback_percent, try_except, mbind, Sql_bind, select_where.
    by rewrite lookup_insert_eq, Ht.
Qed.

Lemma get_playback_other_table f db t :
  (get_playback f (<["series_settings" := t]> db)).1 = (get_playback f db).1
  ∧ (get_playback_percent f (<["series_settings" := t]> db)).1
    = (get_playback_percent f db).1.
Proof.
  unfold get_playback, get_playback_percent, try_except, mbind, Sql_bind, select_where.
  rewrite lookup_insert_ne by done.
  destruct (db !! "playback") as [tp|]; [|done].
  split; (destruct (negb _); [done|]; by destruct (fetchone _)).
Qed.

Lemma get_playback_series_settings_migrated f db :
  (get_playback f (series_settings_migrated db)).1 = (get_playback f db).1
  ∧ (get_playback_percent f (series_settings_migrated db)).1
    = (get_playback_percent f db).1.
Proof.
  unfold series_settings_migrated. destruct (db !! "series_settings") as [t|].
  - destruct (has_column t "credits_duration"); [done|]. apply get_playback_other_table.
  - apply get_playback_other_table.
Qed.

(** X10: whatever the store, [init_db] returns True; afterwards the store has
    a [playback] table with the column [outro_triggered] and a
    [series_settings] table with the column [credits_duration]; a second run
    changes nothing; and [get_playback] and [get_playback_percent] return for
    every file what they returned before the call, so no progress is lost by
    the migration. *)
Theorem init_db_spec db :
  (init_db db).1 = Ok true
  ∧ init_db (init_db db).2 = init_db db
  ∧ (∃ tp ts,
       (init_db db).2 !! "playback" = Some tp
       ∧ has_column tp "outro_triggered" = true
       ∧ (init_db db).2 !! "series_settings" = Some ts
       ∧ has_column ts "credits_duration" = true)
  ∧ ∀ f, (get_playback f (init_db db).2).1 = (get_playback f db).1
         ∧ (get_playback_percent f (init_db db).2).1 = (get_playback_percent f db).1.
Proof.
  split; [apply init_db_succeeds|]. split; [apply init_db_idempotent|].
  rewrite init_db_eq. cbn [snd]. split.
  - assert (∃ tp, playback_migrated db !! "playback" = Some tp
                  ∧ has_column tp "outro_triggered" = true) as (tp & Htp & Hcp).
    { unfold playback_migrated. destruct (db !! "playback") as [t|] eqn:Ht.
      - destruct (has_column t "outro_triggered") eqn:E; [by exists t|].
        eexists. split; [apply lookup_insert_eq|].
        rewrite has_column_app. apply orb_true_iff. by right.
      - eexists. split; [apply lookup_insert_eq|done]. }
    exists tp. rewrite series_settings_migrated_playback.
    unfold series_settings_migrated.
    destruct (playback_migrated db !! "series_settings") as [t|] eqn:Ht.
    + destruct (has_column t "credits_duration") eqn:E; [by exists t|].
      eexists. split; [done|]. split; [done|]. split; [apply lookup_insert_eq|].
      rewrite has_column_app. apply orb_true_iff. by right.
    + eexists. split; [done|]. split; [done|]. split; [apply lookup_insert_eq|done].
  - intros f.
    destruct (get_playback_series_settings_migrated f (playback_migrated db)) as [-> ->].
    apply get_playback_playback_migrated.
Qed.

(** ** X11: the settings of a 1.0.0 installation after the migration *)

(** X11: on a store whose [series_settings] table has the columns of 1.0.0,
    for every series, [get_series_settings] of 1.2.0 after [init_db] returns
    the flags and the intro markers that [get_series_settings] of 1.0.0
    returned before, and the empty text as credits duration, whatever
    [outro_start] held: the migration adds the column [credits_duration]
    and copies nothing into it.  A series without settings still has
    none. *)
Theorem init_db_migrates_series_settings db p s :
  (∃ t, db !! "series_settings" = Some t
        ∧ tbl_columns t = RELIS.series_settings_columns) →
  ∃ o,
    RELIS_get_series_settings p s db = (Ok o, db)
    ∧ get_series_settings p s (init_db db).2
      = (Ok match o with
            | Some (a, si, so, i_s, i_e, _) => Some (a, si, so, i_s, i_e, VText "")
            | None => None
            end, (init_db db).2)
    ∧ get_credits_duration p s (init_db db).2 = (Ok VNull, (init_db db).2).
Proof.
  intros (t & Ht & Hc). rewrite init_db_eq. cbn [snd].
  assert (series_settings_migrated (playback_migrated db)
          = <["series_settings" :=
                Table (tbl_columns t ++ [Column "credits_duration" VNull false])
                      (tbl_pkey t)
                      (insert "credits_duration" VNull <$> tbl_rows t)]>
              (playback_migrated db)) as ->.
  { unfold series_settings_migrated. rewrite playback_migrated_settings, Ht.
    rewrite (has_column_eq t _ _ Hc). by change (bool_decide _) with false. }
  set (db1 := playback_migrated db).
  unfold RELIS_get_series_settings, get_series_settings, get_credits_duration,
    try_except, mbind, Sql_bind, select_where.
  rewrite lookup_insert_eq, Ht.
  assert (∀ pk rows cs,
            has_columns (Table (tbl_columns t ++ [Column "credits_duration" VNull false])
                           pk rows) cs
            = has_columns (Table (RELIS.series_settings_columns
                                    ++ [Column "credits_duration" VNull false]) [] []) cs)
    as Hcols' by (intros; unfold has_columns, has_column, column_names; simpl;
                  by rewrite Hc).
  assert (∀ cs, has_columns t cs
                = has_columns (Table RELIS.series_settings_columns [] []) cs)
    as Hcols by (intros; unfold has_columns, has_column, column_names; by rewrite Hc).
  rewrite !Hcols', !Hcols.
  change (negb (has_columns _ _ && has_columns _ _)) with false. cbv iota.
  cbn [tbl_rows]. rewrite !filter_row_matches_insert by compute_done.
  exists ((λ result : gmap string value,
             (result !!! "autoplay", result !!! "skip_intro", result !!! "skip_outro",
              coalesce (result !!! "intro_start") (VText ""),
              coalesce (result !!! "intro_end") (VText ""),
              coalesce (result !!! "outro_start") (VText "")))
            <$> fetchone
                  (filter (λ r, row_matches [ ("series_prefix", VText p);
                                              ("series_suffix", VText s) ] r = true)
                          (tbl_rows t))).
  unfold fetchone. destruct (filter _ (tbl_rows t)) as [|r rows]; [done|]. simpl.
  rewrite !lookup_total_insert_ne by done. by rewrite lookup_total_insert_eq.
Qed.

Lemma init_db_migrates_series_settings_witness :
  let db := after [ RELIS_init_db;
                    RELIS_save_series_settings "Show" "S01" 1 1 1
                      (Some 30%Z) (Some 90%Z) (Some 3300%Z) ] ∅ in
  (∃ t, db !! "series_settings" = Some t
        ∧ tbl_columns t = RELIS.series_settings_columns)
  ∧ (RELIS_get_series_settings "Show" "S01" db).1
    = Ok (Some (VInt 1, VInt 1, VInt 1, VInt 30, VInt 90, VInt 3300))
  ∧ (get_series_settings "Show" "S01" (init_db db).2).1
    = Ok (Some (VInt 1, VInt 1, VInt 1, VInt 30, VInt 90, VText ""))
  ∧ (get_credits_duration "Show" "S01" (init_db db).2).1 = Ok VNull.
Proof.
  intros db.
  assert (∃ t, db !! "series_settings" = Some t
               ∧ tbl_columns t = RELIS.series_settings_columns) as Hc.
  { eexists. split; vm_compute; reflexivity. }
  assert ((RELIS_get_series_settings "Show" "S01" db).1
          = Ok (Some (VInt 1, VInt 1, VInt 1, VInt 30, VInt 90, VInt 3300))) as Hv
    by (vm_compute; reflexivity).
  split; [exact Hc|]. split; [exact Hv|].
  destruct (init_db_migrates_series_settings db "Show" "S01" Hc) as (o & Ho & Hget & Hcd).
  rewrite Ho in Hv. cbn [fst] in Hv. injection Hv as ->.
  split; [by rewrite Hget|by rewrite Hcd].
Defined.

(** ** X12: the status is always the one derived from the percent *)

Lemma upsert_rows_Forall (P : gmap string value → Prop) pk r sets
    (rows : list (gmap string value)) :
  Forall P rows → P r → (∀ r0, P r0 → P (assign sets r0)) →
  Forall P (upsert_rows pk r sets rows).
Proof.
  intros Hall Hr Hassign. unfold upsert_rows. destruct (existsb _ rows).
  - apply Forall_fmap. eapply Forall_impl; [exact Hall|]. intros r0 Hr0. simpl.
    destruct (key_match pk r r0); auto.
  - apply Forall_app. split; [done|by constructor].
Qed.

Lemma same_schema_step_playback db db' :
  same_schema_step "series_settings" db db' → db' !! "playback" = db !! "playback".
Proof. intros [->|(t & rows' & _ & ->)]; [done|]. by rewrite lookup_insert_ne. Qed.

(** [save_playback] leaves the store as it was, or writes the row. *)
Lemma save_playback_cases db f p d pc pre suf t :
  db !! "playback" = Some t →
  (save_playback f p d pc pre suf db).2 = db
  ∨ (save_playback f p d pc pre suf db).2
    = <["playback" :=
          Table (tbl_columns t) (tbl_pkey t)
            (upsert_rows (tbl_pkey t)
               (new_row t
                  [ ("filename", VText f); ("position", VInt p);
                    ("duration", VInt d); ("percent", VInt pc);
                    ("status", opt_text (_calculate_status pc));
                    ("series_prefix", opt_text pre);
                    ("series_suffix", opt_text suf) ])
               [ ("position", VInt p); ("duration", VInt d); ("percent", VInt pc);
                 ("status", opt_text (_calculate_status pc));
                 ("series_prefix", opt_text pre); ("series_suffix", opt_text suf) ]
               (tbl_rows t))]> db.
Proof.
  intros Ht. unfold save_playback. rewrite upsert_call_eq, Ht.
  destruct (_ && _); [|by left].
  destruct (forallb _ _); [|by left].
  destruct (not_null_ok _ _); [by right|by left].
Qed.

(** On a store written by version 1.2.0 alone the [playback] table, once
    there, has the columns of 1.2.0, and every row holds the status derived
    from its percent. *)
Lemma current_calls_status calls t :
  Forall (λ c, is_current c = true) calls →
  after calls ∅ !! "playback" = Some t →
  playback_schema t
  ∧ tbl_columns t = playback_columns
  ∧ Forall (λ r, r !!! "status" = status_of_percent (r !!! "percent")) (tbl_rows t).
Proof.
  unfold after. revert t. induction calls as [|c calls IH] using rev_ind; intros t Hall.
  { simpl. by rewrite lookup_empty. }
  apply Forall_app in Hall as [Hall Hc]. rewrite Forall_singleton in Hc.
  pose proof (λ t0, IH t0 Hall) as IH'. clear IH Hall. rename IH' into IH.
  rewrite foldl_snoc. set (db := foldl _ ∅ calls) in *.
  assert (∀ db', same_schema_step "series_settings" db db' →
                 db' !! "playback" = Some t →
                 playback_schema t ∧ tbl_columns t = playback_columns
                 ∧ Forall (λ r, r !!! "status" = status_of_percent (r !!! "percent"))
                          (tbl_rows t)) as Hstep.
  { intros db' Hs Ht. rewrite (same_schema_step_playback _ _ Hs) in Ht. by apply IH. }
  destruct c; try discriminate Hc; cbn [perform].
  - rewrite init_db_eq. cbn [snd]. rewrite series_settings_migrated_playback.
    unfold playback_migrated. destruct (db !! "playback") as [t0|] eqn:Ht0.
    + destruct (IH t0 eq_refl) as (Hs0 & Hc0 & Hr0).
      rewrite (has_column_eq t0 _ _ Hc0). change (bool_decide _) with true. cbv iota.
      rewrite Ht0. by intros [= <-].
    + rewrite lookup_insert_eq. intros [= <-]. split; [split; [done|by left]|].
      split; [done|constructor].
  - destruct (db !! "playback") as [t0|] eqn:Ht0.
    2:{ unfold save_playback. rewrite upsert_call_eq, Ht0. cbn [snd]. by rewrite Ht0. }
    destruct (IH t0 eq_refl) as ([Hpk Hs0] & Hc0 & Hr0).
    match goal with
    | |- context [save_playback ?f ?p ?d ?pc ?pre ?suf db] =>
        destruct (save_playback_cases db f p d pc pre suf t0 Ht0) as [-> | ->]
    end.
    { rewrite Ht0. by intros [= <-]. }
    rewrite lookup_insert_eq. intros [= <-]. cbn [tbl_columns tbl_rows tbl_pkey].
    split; [by split|]. split; [done|].
    apply upsert_rows_Forall; [done|..].
    + unfold new_row. simpl. by row_lookup.
    + intros r0 _. simpl. by row_lookup.
  - destruct (db !! "playback") as [t0|] eqn:Ht0.
    2:{ unfold set_outro_triggered. rewrite upsert_call_eq, Ht0. cbn [snd].
        by rewrite Ht0. }
    destruct (IH t0 eq_refl) as (Hs0 & Hc0 & Hr0).
    rewrite (set_outro_triggered_eq db _ _ t0 Ht0 Hs0).
    rewrite (has_column_eq t0 _ _ Hc0). change (bool_decide _) with true. cbv iota.
    destruct (int64 _); [|cbn [snd]; rewrite Ht0; by intros [= <-]].
    cbn [snd]. rewrite lookup_insert_eq. intros [= <-].
    cbn [tbl_columns tbl_rows tbl_pkey].
    split; [exact Hs0|]. split; [done|].
    apply upsert_rows_Forall; [done|..].
    + unfold new_row. simpl. row_lookup.
      by rewrite !(playback_default_row_null t0) by done.
    + intros r0 Hr. simpl. by row_lookup.
  - apply Hstep, set_credits_duration_step.
  - apply Hstep, upsert_call_step.
  - apply Hstep, set_intro_markers_step.
  - apply Hstep, set_outro_marker_step.
  - apply Hstep, clear_skip_markers_step.
Qed.

(** X12: on every store that the calls of version 1.2.0 alone have produced
    from an empty database file, for every file name, the status that
    [get_playback_status] returns is the one derived from the percent that
    [get_playback_percent] returns: 'watched' from 90, 'partial' from 1 to 89,
    [None] otherwise, and [None] when the percent is [None].  No call sets
    the status by itself. *)
Theorem status_follows_percent calls f :
  Forall (λ c, is_current c = true) calls →
  let db := after calls ∅ in
  ∃ percent,
    get_playback_percent f db = (Ok percent, db)
    ∧ get_playback_status f db = (Ok (status_of_percent percent), db).
Proof.
  intros Hall db. destruct (db !! "playback") as [t|] eqn:Ht.
  - destruct (current_calls_status calls t Hall Ht) as (Hs & Hc & Hrows).
    rewrite (get_playback_percent_eq f db t Ht Hs), (get_playback_status_eq f db t Ht Hs).
    rewrite (has_column_eq t _ _ Hc). change (bool_decide _) with true. cbv iota.
    eexists. split; [done|]. do 2 f_equal.
    destruct (filter _ (tbl_rows t)) as [|r l] eqn:E; [done|]. simpl.
    assert (r ∈ filter (λ r, r !!! "filename" = VText f) (tbl_rows t)) as Hr
      by (rewrite E; left).
    apply list_elem_of_filter in Hr as [_ Hr]. rewrite Forall_forall in Hrows.
    by apply Hrows.
  - exists (VInt 0). split.
    + unfold get_playback_percent, try_except, mbind, Sql_bind, select_where.
      by rewrite Ht.
    + by rewrite get_playback_status_no_table.
Qed.

Lemma status_follows_percent_witness :
  let calls := [ Init_db; Save_playback "a.mkv" 95 100 95 None None;
                 Save_playback "a.mkv" 40 100 40 None None ] in
  Forall (λ c, is_current c = true) calls
  ∧ ∃ percent,
      get_playback_percent "a.mkv" (after calls ∅) = (Ok percent, after calls ∅)
      ∧ get_playback_status "a.mkv" (after calls ∅)
        = (Ok (status_of_percent percent), after calls ∅).
Proof.
  intros calls.
  assert (Forall (λ c, is_current c = true) calls) as Hall
    by (repeat constructor).
  split; [exact Hall|]. exact (status_follows_percent calls "a.mkv" Hall).
Defined.

(** ** X13: the flag [outro_triggered] is the one last set, and 0 before *)

Lemma playback_default_flag t :
  playback_schema t → has_column t "outro_triggered" = true →
  default_row t !!! "outro_triggered" = VInt 0.
Proof.
  intros [_ Hc] Hcol. unfold default_row.
  destruct Hc as [Hc | [Hc | Hc]]; rewrite Hc; try done.
  rewrite (has_column_eq t _ _ Hc) in Hcol. discriminate Hcol.
Qed.

(** An upsert on [playback] that leaves the flag of the stored rows alone, or
    sets it to an integer. *)
Lemma playback_upsert_flag vals target sets db :
  store_ok db →
  (∀ t, db !! "playback" = Some t → has_column t "outro_triggered" = true →
        Forall (λ r, ∃ n, r !!! "outro_triggered" = VInt n) (tbl_rows t)) →
  (∀ t, playback_schema t → has_column t "outro_triggered" = true →
        ∃ n, new_row t vals !!! "outro_triggered" = VInt n) →
  (∀ r0 : gmap string value,
     (∃ n, r0 !!! "outro_triggered" = VInt n) →
     ∃ n, assign sets r0 !!! "outro_triggered" = VInt n) →
  ∀ t, (try_except (insert_on_conflict_do_update "playback" vals target sets;;
                    commit;; mret true) (λ _, mret false) db).2 !! "playback" = Some t →
       has_column t "outro_triggered" = true →
       Forall (λ r, ∃ n, r !!! "outro_triggered" = VInt n) (tbl_rows t).
Proof.
  intros [Hok _] Hinv Hnew Hassign t. rewrite upsert_call_eq.
  destruct (db !! "playback") as [t0|] eqn:Ht0; [|cbn [snd]; by rewrite Ht0].
  destruct (Hok t0 eq_refl) as (Hs & _ & _).
  destruct (_ && _); [destruct (forallb _ _); [destruct (not_null_ok _ _)|]|];
    cbn [snd]; [|rewrite Ht0; intros [= <-]; by apply Hinv..].
  rewrite lookup_insert_eq. intros [= <-] Hcol. cbn [tbl_rows].
  change (has_column t0 "outro_triggered" = true) in Hcol.
  apply upsert_rows_Forall; [by apply Hinv|by apply Hnew|done].
Qed.

Lemma perform_flag_integer c db :
  store_ok db →
  (∀ t, db !! "playback" = Some t → has_column t "outro_triggered" = true →
        Forall (λ r, ∃ n, r !!! "outro_triggered" = VInt n) (tbl_rows t)) →
  ∀ t, (perform c db).2 !! "playback" = Some t →
       has_column t "outro_triggered" = true →
       Forall (λ r, ∃ n, r !!! "outro_triggered" = VInt n) (tbl_rows t).
Proof.
  intros Hok Hinv.
  assert (∀ db', same_schema_step "series_settings" db db' →
            ∀ t, db' !! "playback" = Some t → has_column t "outro_triggered" = true →
                 Forall (λ r, ∃ n, r !!! "outro_triggered" = VInt n) (tbl_rows t))
    as Hstep.
  { intros db' Hs t. rewrite (same_schema_step_playback _ _ Hs). apply Hinv. }
  assert (∀ t vals, playback_schema t → has_column t "outro_triggered" = true →
                    "outro_triggered" ∉ vals.*1 →
                    ∃ n, new_row t vals !!! "outro_triggered" = VInt n) as Hdefault.
  { intros t vals Hs Hcol Hnotin. exists 0%Z. unfold new_row.
    rewrite assign_lookup_total_ne by done. by apply playback_default_flag. }
  destruct c; cbn [perform].
  - intros t. rewrite init_db_eq. cbn [snd]. rewrite series_settings_migrated_playback.
    unfold playback_migrated. destruct (db !! "playback") as [t0|] eqn:Ht0.
    + destruct (has_column t0 "outro_triggered") eqn:E.
      * rewrite Ht0. intros [= <-] _. by apply Hinv.
      * rewrite lookup_insert_eq. intros [= <-] _. cbn [tbl_rows].
        apply Forall_fmap, Forall_true. intros r. exists 0%Z. simpl.
        by rewrite lookup_total_insert_eq.
    + rewrite lookup_insert_eq. intros [= <-] _. constructor.
  - unfold save_playback. apply playback_upsert_flag; [done|done|..].
    + intros t Hs Hcol. apply Hdefault; [done|done|compute_done].
    + intros r0 Hr0. by rewrite assign_lookup_total_ne by compute_done.
  - unfold set_outro_triggered. apply playback_upsert_flag; [done|done|..].
    + intros t _ _. exists triggered. unfold new_row. simpl. by row_lookup.
    + intros r0 _. exists triggered. simpl. by row_lookup.
  - apply Hstep, set_credits_duration_step.
  - apply Hstep, upsert_call_step.
  - apply Hstep, set_intro_markers_step.
  - apply Hstep, set_outro_marker_step.
  - apply Hstep, clear_skip_markers_step.
  - intros t. rewrite RELIS_init_db_eq. cbn [snd].
    destruct (db !! "playback") as [t0|] eqn:Ht0.
    + destruct (db !! "series_settings");
        rewrite ?lookup_insert_ne by done; rewrite Ht0; intros [= <-]; by apply Hinv.
    + destruct (<["playback" := _]> db !! "series_settings");
        rewrite ?lookup_insert_ne by done; rewrite lookup_insert_eq;
        intros [= <-]; constructor.
  - unfold RELIS.save_playback. apply playback_upsert_flag; [done|done|..].
    + intros t Hs Hcol. apply Hdefault; [done|done|compute_done].
    + intros r0 Hr0. by rewrite assign_lookup_total_ne by compute_done.
  - apply Hstep, upsert_call_step.
Qed.

Lemma reachable_flag_integer db t :
  reachable db →
  db !! "playback" = Some t → has_column t "outro_triggered" = true →
  Forall (λ r, ∃ n, r !!! "outro_triggered" = VInt n) (tbl_rows t).
Proof.
  intros Hreach. revert t. induction Hreach as [|db c Hreach IH]; intros t.
  - by rewrite lookup_empty.
  - apply perform_flag_integer; [by apply reachable_store_ok|done].
Qed.

Lemma get_outro_triggered_int db f :
  reachable db → ∃ n, get_outro_triggered f db = (Ok (VInt n), db).
Proof.
  intros Hreach. destruct (db !! "playback") as [t|] eqn:Ht.
  - destruct (proj1 (reachable_store_ok db Hreach) t Ht) as (Hs & _ & _).
    rewrite (get_outro_triggered_eq f db t Ht Hs).
    destruct (has_column t "outro_triggered") eqn:Hcol; [|by exists 0%Z].
    pose proof (reachable_flag_integer db t Hreach Ht Hcol) as Hall.
    destruct (filter _ (tbl_rows t)) as [|r l] eqn:E; [by exists 0%Z|]. simpl.
    assert (r ∈ filter (λ r, r !!! "filename" = VText f) (tbl_rows t)) as Hr
      by (rewrite E; left).
    apply list_elem_of_filter in Hr as [_ Hr]. rewrite Forall_forall in Hall.
    destruct (Hall r Hr) as [n ->]. by exists n.
  - exists 0%Z. unfold get_outro_triggered, try_except, mbind, Sql_bind, select_where.
    by rewrite Ht.
Qed.

Lemma get_outro_triggered_no_table f db :
  db !! "playback" = None → get_outro_triggered f db = (Ok (VInt 0), db).
Proof.
  intros Ht. unfold get_outro_triggered, try_except, mbind, Sql_bind, select_where.
  by rewrite Ht.
Qed.

Lemma get_outro_triggered_no_column f db t :
  db !! "playback" = Some t → has_column t "outro_triggered" = false →
  get_outro_triggered f db = (Ok (VInt 0), db).
Proof.
  intros Ht Hcol. unfold get_outro_triggered, try_except, mbind, Sql_bind, select_where.
  rewrite Ht. unfold has_columns at 1. simpl. by rewrite Hcol.
Qed.

(** The reader looks at the [playback] table only. *)
Lemma get_outro_triggered_same_playback f db db' :
  db' !! "playback" = db !! "playback" →
  (get_outro_triggered f db').1 = (get_outro_triggered f db).1.
Proof.
  intros H. unfold get_outro_triggered, try_except, mbind, Sql_bind, select_where.
  rewrite H. destruct (db !! "playback") as [t|]; [|done].
  destruct (negb _); [done|]. by destruct (fetchone _).
Qed.

(** An upsert on [playback] for the file [f0] keeps the flag that is read for
    [f], when [f] is another file or the upsert does not write the flag. *)
Lemma playback_upsert_keeps_flag vals target sets f0 f db :
  store_ok db →
  (∀ t, new_row t vals !!! "filename" = VText f0) →
  "filename" ∉ sets.*1 →
  f ≠ f0 ∨ (("outro_triggered" ∉ vals.*1) ∧ ("outro_triggered" ∉ sets.*1)) →
  (get_outro_triggered f
     (try_except (insert_on_conflict_do_update "playback" vals target sets;;
                  commit;; mret true) (λ _, mret false) db).2).1
  = (get_outro_triggered f db).1.
Proof.
  intros [Hok _] Hnew Hsets Hflag. rewrite upsert_call_eq.
  destruct (db !! "playback") as [t|] eqn:Ht; [|done].
  destruct (_ && _); [|done].
  destruct (forallb _ _); [|done].
  destruct (not_null_ok _ _); [|done]. cbn [snd].
  destruct (Hok t eq_refl) as (Hs & _ & _).
  set (t' := Table _ _ _).
  assert (playback_schema t') as Hs' by exact Hs.
  rewrite (get_outro_triggered_eq f _ t' (lookup_insert_eq _ _ _) Hs'),
    (get_outro_triggered_eq f db t Ht Hs).
  change (has_column t' ?c) with (has_column t c). cbn [fst].
  destruct (has_column t "outro_triggered") eqn:Hcol; [|done].
  unfold t'. cbn [tbl_rows]. destruct Hs as [Hpk Hcols]. rewrite Hpk.
  destruct (decide (f = f0)) as [->|Hne].
  - destruct Hflag as [?|[Hv Hs0]]; [done|].
    rewrite upsert_rows_filter by done.
    destruct (filter _ (tbl_rows t)) as [|r0 l]; simpl.
    + unfold new_row. rewrite assign_lookup_total_ne by done.
      by rewrite playback_default_flag.
    + by rewrite assign_lookup_total_ne.
  - by rewrite (upsert_rows_filter_other _ _ _ f0 f).
Qed.

Lemma get_outro_triggered_init_db f db :
  store_ok db →
  (get_outro_triggered f (init_db db).2).1 = (get_outro_triggered f db).1.
Proof.
  intros Hok. rewrite init_db_eq. cbn [snd].
  rewrite (get_outro_triggered_same_playback f (playback_migrated db))
    by apply series_settings_migrated_playback.
  pose proof (playback_migrated_store_ok db Hok) as Hok'.
  unfold playback_migrated in *. destruct (db !! "playback") as [t|] eqn:Ht.
  - destruct (has_column t "outro_triggered") eqn:E; [done|].
    destruct (proj1 Hok' _ (lookup_insert_eq _ _ _)) as (Hs' & _ & _).
    rewrite (get_outro_triggered_eq f _ _ (lookup_insert_eq _ _ _) Hs'),
      (get_outro_triggered_no_column f db t Ht E).
    rewrite has_column_app. change (bool_decide _) with true. rewrite orb_true_r.
    cbn [fst tbl_rows]. f_equal.
    destruct (filter _ (_ <$> tbl_rows t)) as [|r l] eqn:El; [done|]. simpl.
    assert (r ∈ filter (λ r, r !!! "filename" = VText f)
                  (insert "outro_triggered" (VInt 0) <$> tbl_rows t)) as Hr
      by (rewrite El; left).
    apply list_elem_of_filter in Hr as [_ (r0 & -> & _)%list_elem_of_fmap].
    by rewrite lookup_total_insert_eq.
  - destruct (proj1 Hok' _ (lookup_insert_eq _ _ _)) as (Hs' & _ & _).
    by rewrite (get_outro_triggered_eq f _ _ (lookup_insert_eq _ _ _) Hs'),
      (get_outro_triggered_no_table f db Ht).
Qed.

Lemma get_outro_triggered_RELIS_init_db f db :
  (get_outro_triggered f (RELIS.init_db db).2).1 = (get_outro_triggered f db).1.
Proof.
  rewrite RELIS_init_db_eq. cbn [snd]. destruct (db !! "playback") as [t|] eqn:Ht.
  - apply get_outro_triggered_same_playback.
    destruct (db !! "series_settings"); [done|by rewrite lookup_insert_ne].
  - rewrite (get_outro_triggered_no_table f db Ht).
    erewrite get_outro_triggered_no_column; [done| |].
    + destruct (_ !! "series_settings");
        rewrite ?lookup_insert_ne by done; apply lookup_insert_eq.
    + done.
Qed.

(** A call of [set_outro_triggered] that does not return True has stored
    nothing. *)
Lemma set_outro_triggered_unchanged f tr db :
  (set_outro_triggered f tr db).1 ≠ Ok true → (set_outro_triggered f tr db).2 = db.
Proof.
  unfold set_outro_triggered. rewrite upsert_call_eq.
  destruct (db !! "playback") as [t|]; [|done].
  destruct (_ && _); [|done].
  destruct (forallb _ _); [|done].
  by destruct (not_null_ok _ _).
Qed.

Lemma get_outro_triggered_after_set db f tr :
  store_ok db →
  (set_outro_triggered f tr db).1 = Ok true →
  (get_outro_triggered f (set_outro_triggered f tr db).2).1 = Ok (VInt tr).
Proof.
  intros [Hok _]. destruct (db !! "playback") as [t|] eqn:Ht.
  2:{ unfold set_outro_triggered. by rewrite upsert_call_eq, Ht. }
  destruct (Hok t eq_refl) as (Hs & _ & _).
  rewrite (set_outro_triggered_eq db f tr t Ht Hs).
  destruct (has_column t "outro_triggered") eqn:Hcol; [|done].
  destruct (int64 tr); [|done]. intros _. cbn [snd].
  set (t' := Table _ _ _).
  assert (playback_schema t') as Hs' by exact Hs.
  rewrite (get_outro_triggered_eq f _ t' (lookup_insert_eq _ _ _) Hs').
  change (has_column t' ?c) with (has_column t c). rewrite Hcol.
  unfold t'. cbn [fst tbl_rows].
  rewrite upsert_rows_filter;
    [|unfold new_row; simpl; by row_lookup|compute_done].
  destruct (filter _ (tbl_rows t)) as [|r0 l]; simpl; unfold new_row; simpl;
    by row_lookup.
Qed.

Lemma perform_keeps_flag c db f :
  store_ok db →
  (∀ tr, c = Set_outro_triggered f tr → (perform c db).1 ≠ Ok true) →
  (get_outro_triggered f (perform c db).2).1 = (get_outro_triggered f db).1.
Proof.
  intros Hok Hc.
  assert (∀ db', same_schema_step "series_settings" db db' →
                 (get_outro_triggered f db').1 = (get_outro_triggered f db).1) as Hstep.
  { intros db' Hs. by apply get_outro_triggered_same_playback, same_schema_step_playback. }
  destruct c; cbn [perform] in *.
  - by apply get_outro_triggered_init_db.
  - unfold save_playback. apply (playback_upsert_keeps_flag _ _ _ filename); [done|..].
    + intros t. unfold new_row. simpl. by row_lookup.
    + compute_done.
    + right. split; compute_done.
  - destruct (decide (filename = f)) as [->|Hne].
    + by rewrite (set_outro_triggered_unchanged f triggered db (Hc triggered eq_refl)).
    + unfold set_outro_triggered.
      apply (playback_upsert_keeps_flag _ _ _ filename); [done|..].
      * intros t. unfold new_row. simpl. by row_lookup.
      * compute_done.
      * left. congruence.
  - apply Hstep, set_credits_duration_step.
  - apply Hstep, upsert_call_step.
  - apply Hstep, set_intro_markers_step.
  - apply Hstep, set_outro_marker_step.
  - apply Hstep, clear_skip_markers_step.
  - apply get_outro_triggered_RELIS_init_db.
  - unfold RELIS.save_playback.
    apply (playback_upsert_keeps_flag _ _ _ filename); [done|..].
    + intros t. unfold new_row. simpl. by row_lookup.
    + compute_done.
    + right. split; compute_done.
  - apply Hstep, upsert_call_step.
Qed.

Lemma get_outro_triggered_after_calls f calls db n :
  reachable db →
  get_outro_triggered f db = (Ok (VInt n), db) →
  get_outro_triggered f (after calls db)
  = (Ok (VInt (last_outro_triggered f calls db n)), after calls db).
Proof.
  revert db n. induction calls as [|c calls IH]; intros db n Hreach Hn; [done|].
  change (after (c :: calls) db) with (after calls (perform c db).2).
  cbn [last_outro_triggered].
  pose proof (reachable_step db c Hreach) as Hreach'.
  apply IH; [done|].
  destruct (get_outro_triggered_int (perform c db).2 f Hreach') as [m Hm].
  rewrite Hm. do 3 f_equal.
  assert (Ok (VInt m) = (get_outro_triggered f (perform c db).2).1) as Hm1
    by (by rewrite Hm).
  pose proof (reachable_store_ok db Hreach) as Hok.
  assert ((∀ tr, c = Set_outro_triggered f tr → (perform c db).1 ≠ Ok true) →
          m = n) as Hkeep.
  { intros Hc. rewrite (perform_keeps_flag c db f Hok Hc), Hn in Hm1.
    by injection Hm1. }
  destruct c; try (apply Hkeep; intros tr [=]).
  case_bool_decide as Hf; cbn [andb].
  - subst filename. cbn [perform] in *.
    destruct (set_outro_triggered f triggered db).1 as [[]|e] eqn:Hres; cbn [returned_true].
    + rewrite (get_outro_triggered_after_set db f triggered Hok Hres) in Hm1.
      by injection Hm1.
    + apply Hkeep. intros tr _. discriminate.
    + apply Hkeep. intros tr _. discriminate.
  - apply Hkeep. intros tr [= ? ?]. done.
Qed.

(** X13: on every reachable store, for every file name,
    [get_outro_triggered] returns an integer and leaves the store as it was.
    The integer is 0 when no record is stored under the file name (or there
    is no table), and when the table has no column [outro_triggered]; it is
    the value passed to a call of [set_outro_triggered] for the file that
    has just returned True; and every other call, of either version, leaves
    it as it was.  So, on the store that a sequence of calls has produced
    from an empty database file, it is the value of the last call of
    [set_outro_triggered] for the file that returned True, and 0 when there
    was none, also for a record stored before the column existed. *)
Theorem get_outro_triggered_integer db f :
  reachable db →
  (∃ n, get_outro_triggered f db = (Ok (VInt n), db))
  ∧ (∀ calls, db = after calls ∅ →
       get_outro_triggered f db
       = (Ok (VInt (last_outro_triggered f calls ∅ 0)), db))
  ∧ ((∀ r, r ∈ playback_rows db → r !!! "filename" ≠ VText f) →
     get_outro_triggered f db = (Ok (VInt 0), db))
  ∧ ((∀ t, db !! "playback" = Some t → has_column t "outro_triggered" = false) →
     get_outro_triggered f db = (Ok (VInt 0), db))
  ∧ (∀ tr, (set_outro_triggered f tr db).1 = Ok true →
       (get_outro_triggered f (set_outro_triggered f tr db).2).1 = Ok (VInt tr))
  ∧ (∀ c, (∀ tr, c = Set_outro_triggered f tr → (perform c db).1 ≠ Ok true) →
       (get_outro_triggered f (perform c db).2).1 = (get_outro_triggered f db).1).
Proof.
  intros Hreach. pose proof (reachable_store_ok db Hreach) as Hok.
  split; [by apply get_outro_triggered_int|]. split; [|split; [|split; [|split]]].
  - intros calls ->. apply get_outro_triggered_after_calls; [constructor|].
    by apply get_outro_triggered_no_table.
  - intros Hnone. unfold playback_rows in Hnone.
    destruct (db !! "playback") as [t|] eqn:Ht;
      [|by apply get_outro_triggered_no_table].
    destruct (proj1 Hok t Ht) as (Hs & _ & _).
    rewrite (get_outro_triggered_eq f db t Ht Hs).
    rewrite filter_none by done. by destruct (has_column t "outro_triggered").
  - intros Hcol. destruct (db !! "playback") as [t|] eqn:Ht.
    + exact (get_outro_triggered_no_column f db t Ht (Hcol t eq_refl)).
    + by apply get_outro_triggered_no_table.
  - intros tr. by apply get_outro_triggered_after_set.
  - intros c. by apply perform_keeps_flag.
Qed.

Lemma get_outro_triggered_integer_witness :
  let calls0 := [ RELIS_init_db; RELIS_save_playback "a.mkv" 10 100 10 None None ] in
  let calls := calls0 ++ [ Init_db; Set_outro_triggered "a.mkv" 1;
                           RELIS_save_playback "a.mkv" 50 100 50 None None;
                           Set_outro_triggered "b.mkv" 7 ] in
  let db := after calls ∅ in
  reachable db
  ∧ get_outro_triggered "a.mkv" (after calls0 ∅) = (Ok (VInt 0), after calls0 ∅)
  ∧ get_outro_triggered "a.mkv" db = (Ok (VInt 1), db)
  ∧ get_outro_triggered "b.mkv" db = (Ok (VInt 7), db)
  ∧ get_outro_triggered "c.mkv" db = (Ok (VInt 0), db)
  ∧ (set_outro_triggered "a.mkv" 2 db).1 = Ok true
  ∧ (get_outro_triggered "a.mkv" (set_outro_triggered "a.mkv" 2 db).2).1 = Ok (VInt 2)
  ∧ (get_outro_triggered "b.mkv" (perform (Set_outro_triggered "a.mkv" 2) db).2).1
    = Ok (VInt 7).
Proof.
  intros calls0 calls db.
  assert (reachable (after calls0 ∅)) as Hr0 by apply reachable_after.
  assert (reachable db) as Hr by apply reachable_after.
  assert ((set_outro_triggered "a.mkv" 2 db).1 = Ok true) as Hset
    by (vm_compute; reflexivity).
  destruct (get_outro_triggered_integer (after calls0 ∅) "a.mkv" Hr0)
    as (_ & _ & _ & Hnocol & _).
  destruct (get_outro_triggered_integer db "a.mkv" Hr) as (_ & Ha & _ & _ & Hafter & _).
  destruct (get_outro_triggered_integer db "b.mkv" Hr) as (_ & Hb & _ & _ & _ & Hstep).
  destruct (get_outro_triggered_integer db "c.mkv" Hr) as (_ & _ & Hnone & _).
  split; [exact Hr|]. split.
  { apply Hnocol. intros t Ht.
    assert ((λ t, has_column t "outro_triggered") <$> after calls0 ∅ !! "playback"
            = Some false) as Hcol by (vm_compute; reflexivity).
    rewrite Ht in Hcol. by injection Hcol. }
  assert (last_outro_triggered "a.mkv" calls ∅ 0 = 1%Z) as Hla
    by (vm_compute; reflexivity).
  assert (last_outro_triggered "b.mkv" calls ∅ 0 = 7%Z) as Hlb
    by (vm_compute; reflexivity).
  specialize (Ha calls eq_refl). specialize (Hb calls eq_refl).
  rewrite Hla in Ha. rewrite Hlb in Hb.
  split; [exact Ha|]. split; [exact Hb|].
  split; [apply Hnone, Forall_forall; compute_done|].
  split; [exact Hset|]. split; [exact (Hafter 2%Z Hset)|].
  rewrite Hstep; [by rewrite Hb|]. intros tr [=].
Defined.

(** ** X14: at most one settings row per series *)

Section settings_keys.
Implicit Types (r : gmap string value) (sets vals cond : list (string * value))
  (rows : list (gmap string value)).

Lemma series_settings_keys_ok_fmap (g : gmap string value → gmap string value) rows :
  (∀ r, g r !!! "series_prefix" = r !!! "series_prefix"
        ∧ g r !!! "series_suffix" = r !!! "series_suffix") →
  series_settings_keys_ok rows → series_settings_keys_ok (g <$> rows).
Proof.
  intros Hg [Hall Hnd]. split.
  - apply Forall_fmap. eapply Forall_impl; [exact Hall|].
    intros r (p & s & Hp & Hs). exists p, s. destruct (Hg r) as [Hgp Hgs].
    split; simpl; congruence.
  - rewrite <- list_fmap_compose. erewrite list_fmap_ext; [exact Hnd|].
    intros i r _. unfold compose. destruct (Hg r) as [-> ->]. done.
Qed.

Lemma series_settings_keys_ok_snoc rows r p s :
  is_key p s r →
  existsb (key_match ["series_prefix"; "series_suffix"] r) rows = false →
  series_settings_keys_ok rows → series_settings_keys_ok (rows ++ [r]).
Proof.
  intros Hkey Hnone [Hall Hnd]. split.
  - apply Forall_app. split; [done|]. constructor; [by exists p, s|constructor].
  - rewrite fmap_app. apply NoDup_app. split; [done|]. split; [|apply NoDup_singleton].
    intros k Hk Hk'. apply list_elem_of_singleton in Hk'. subst k.
    apply list_elem_of_fmap in Hk as (r0 & Heq & Hin).
    assert (existsb (key_match ["series_prefix"; "series_suffix"] r) rows = true);
      [|congruence].
    apply existsb_exists. exists r0. split; [by apply list_elem_of_In|].
    destruct Hkey as [Hp Hs]. apply (key_match_settings _ _ p s Hp Hs).
    split; congruence.
Qed.

Lemma series_settings_keys_ok_assign (sel : gmap string value → bool) sets rows :
  "series_prefix" ∉ sets.*1 → "series_suffix" ∉ sets.*1 →
  series_settings_keys_ok rows →
  series_settings_keys_ok ((λ r, if sel r then assign sets r else r) <$> rows).
Proof.
  intros Hp Hs. apply series_settings_keys_ok_fmap. intros r.
  destruct (sel r); [|done]. by rewrite !assign_lookup_total_ne.
Qed.

Lemma series_settings_keys_ok_upsert r sets rows p s :
  is_key p s r →
  "series_prefix" ∉ sets.*1 → "series_suffix" ∉ sets.*1 →
  series_settings_keys_ok rows →
  series_settings_keys_ok (upsert_rows ["series_prefix"; "series_suffix"] r sets rows).
Proof.
  intros Hkey Hp Hs Hok. unfold upsert_rows. destruct (existsb _ rows) eqn:E.
  - by apply series_settings_keys_ok_assign.
  - by apply (series_settings_keys_ok_snoc _ _ p s).
Qed.

End settings_keys.

Lemma settings_upsert_keys p s vals target sets db :
  store_ok db →
  (∀ t, is_key p s (new_row t vals)) →
  "series_prefix" ∉ sets.*1 → "series_suffix" ∉ sets.*1 →
  series_settings_keys_ok (series_settings_rows db) →
  series_settings_keys_ok
    (series_settings_rows
       (try_except (insert_on_conflict_do_update "series_settings" vals target sets;;
                    commit;; mret true) (λ _, mret false) db).2).
Proof.
  intros [_ Hok] Hnew Hp Hs. rewrite upsert_call_eq. unfold series_settings_rows.
  destruct (db !! "series_settings") as [t|] eqn:Ht; [|cbn [snd]; by rewrite Ht].
  destruct (_ && _); [destruct (forallb _ _); [destruct (not_null_ok _ _)|]|];
    cbn [snd]; [|by rewrite Ht..].
  rewrite lookup_insert_eq. cbn [tbl_rows]. destruct (Hok t eq_refl) as [-> _].
  by apply (series_settings_keys_ok_upsert _ _ _ p s).
Qed.

Lemma settings_insert_or_update_keys (b : bool) p s vals sets cond db :
  store_ok db →
  (b = true → ∀ t, is_key p s (new_row t vals)) →
  "series_prefix" ∉ sets.*1 → "series_suffix" ∉ sets.*1 →
  series_settings_keys_ok (series_settings_rows db) →
  series_settings_keys_ok
    (series_settings_rows
       (try_except
          ((if b then insert_into "series_settings" vals
            else update_set_where "series_settings" sets cond);;
           commit;; mret true)
          (λ _, mret false) db).2).
Proof.
  intros [_ Hok] Hnew Hp Hs. unfold try_except, commit, mbind, Sql_bind, mret, Sql_ret.
  unfold series_settings_rows. destruct b.
  - destruct (insert_into_cases "series_settings" vals db)
      as [[e ->]|(t & Ht & _ & _ & Hnone & ->)]; [by destruct e|]. cbn [snd].
    rewrite lookup_insert_eq, Ht. cbn [tbl_rows].
    destruct (Hok t Ht) as [Hpk _]. rewrite Hpk in Hnone.
    by apply (series_settings_keys_ok_snoc _ _ p s); [apply Hnew|].
  - destruct (update_set_where_cases "series_settings" sets cond db)
      as [[e ->]|(t & Ht & _ & _ & ->)]; [by destruct e|]. cbn [snd].
    rewrite lookup_insert_eq, Ht. cbn [tbl_rows].
    by apply series_settings_keys_ok_assign.
Qed.

Lemma perform_series_settings_keys c db :
  store_ok db →
  series_settings_keys_ok (series_settings_rows db) →
  series_settings_keys_ok (series_settings_rows (perform c db).2).
Proof.
  intros Hok Hinv.
  assert (∀ (p s : string) (vals : list (string * value)) t,
            is_key p s
              (new_row t (("series_prefix", VText p) :: ("series_suffix", VText s) :: vals)))
    as Hnew.
  { intros p s vals t. split; unfold new_row; simpl; by row_lookup. }
  destruct c; cbn [perform].
  - rewrite init_db_eq. cbn [snd].
    unfold series_settings_migrated, series_settings_rows.
    rewrite playback_migrated_settings.
    unfold series_settings_rows in Hinv.
    destruct (db !! "series_settings") as [t|] eqn:Ht.
    + destruct (has_column t "credits_duration").
      * by rewrite playback_migrated_settings, Ht.
      * rewrite lookup_insert_eq. cbn [tbl_rows].
        apply series_settings_keys_ok_fmap; [|done].
        intros r. by rewrite !lookup_total_insert_ne.
    + rewrite lookup_insert_eq. split; constructor.
  - unfold save_playback.
    match goal with
    | |- context [insert_on_conflict_do_update _ ?vals ?target ?sets] =>
        destruct (playback_upsert_keeps vals target sets db) as [_ ->]; [compute_done|]
    end. done.
  - unfold set_outro_triggered.
    match goal with
    | |- context [insert_on_conflict_do_update _ ?vals ?target ?sets] =>
        destruct (playback_upsert_keeps vals target sets db) as [_ ->]; [compute_done|]
    end. done.
  - destruct (set_credits_duration_cases series_prefix series_suffix duration db)
      as [-> | [b ->]]; [done|].
    apply (settings_insert_or_update_keys b series_prefix series_suffix);
      [done|intros _; apply Hnew|compute_done|compute_done|done].
  - unfold save_series_settings.
    apply (settings_upsert_keys series_prefix series_suffix);
      [done|apply Hnew|compute_done|compute_done|done].
  - destruct (set_intro_markers_cases series_prefix series_suffix start end_ db)
      as [-> | [b ->]]; [done|].
    apply (settings_insert_or_update_keys b series_prefix series_suffix);
      [done|intros _; apply Hnew|compute_done|compute_done|done].
  - destruct (set_outro_marker_cases series_prefix series_suffix start db)
      as [-> | [b ->]]; [done|].
    apply (settings_insert_or_update_keys b series_prefix series_suffix);
      [done|intros _; apply Hnew|compute_done|compute_done|done].
  - destruct (clear_skip_markers_cases series_prefix series_suffix marker_type db)
      as [-> | (sets & Hp & Hs & ->)]; [done|].
    by apply (settings_insert_or_update_keys false series_prefix series_suffix []).
  - rewrite RELIS_init_db_eq. cbn [snd]. unfold series_settings_rows in *.
    destruct (db !! "playback") as [tp|] eqn:Hp,
             (db !! "series_settings") as [ts|] eqn:Hs;
      rewrite ?lookup_insert_eq, ?lookup_insert_ne, ?Hp, ?Hs by done;
      rewrite ?lookup_insert_eq, ?lookup_insert_ne, ?Hp, ?Hs by done;
      try done; split; constructor.
  - unfold RELIS.save_playback.
    match goal with
    | |- context [insert_on_conflict_do_update _ ?vals ?target ?sets] =>
        destruct (playback_upsert_keeps vals target sets db) as [_ ->]; [compute_done|]
    end. done.
  - unfold RELIS.save_series_settings.
    apply (settings_upsert_keys series_prefix series_suffix);
      [done|apply Hnew|compute_done|compute_done|done].
Qed.

(** X14: on every reachable store, every row of [series_settings] carries a
    text prefix and a text suffix, and no two rows carry the same pair: there
    is at most one settings row per series. *)
Theorem series_settings_keys_unique db :
  reachable db → series_settings_keys_ok (series_settings_rows db).
Proof.
  induction 1 as [|db c Hreach IH].
  - unfold series_settings_rows. rewrite lookup_empty. split; constructor.
  - apply perform_series_settings_keys; [by apply reachable_store_ok|done].
Qed.

Lemma series_settings_keys_unique_witness :
  let db := after [ Init_db; Set_intro_markers "Show" "S01" 30 90;
                    Set_credits_duration "Show" "S01" 120;
                    Save_series_settings "Show" "S01" 1 0 0 None None None;
                    Set_intro_markers "Show" "S02" 10 20 ] ∅ in
  reachable db
  ∧ (λ r, (r !!! "series_prefix", r !!! "series_suffix")) <$> series_settings_rows db
    = [ (VText "Show", VText "S01"); (VText "Show", VText "S02") ]
  ∧ series_settings_keys_ok (series_settings_rows db).
Proof.
  intros db. assert (reachable db) as Hr by apply reachable_after.
  split; [exact Hr|]. split; [vm_compute; reflexivity|].
  exact (series_settings_keys_unique db Hr).
Defined.

(** ** X15: the two batch readers look under different names *)

Lemma length_append (s1 s2 : string) :
  String.length (s1 +:+ s2) = String.length s1 + String.length s2.
Proof. induction s1 as [|c s1 IH]; simpl; [done|]. by rewrite IH. Qed.

Lemma joined_path_neq directory f : directory +:+ "/" +:+ f ≠ f.
Proof.
  intros H. apply (f_equal String.length) in H.
  rewrite !length_append in H. simpl in H. lia.
Qed.

(** X15: on every reachable store whose [playback] table has the columns of
    1.2.0, after [save_playback] under the path directory + "/" + f, where f
    holds no "/", with a position, a duration and a percent in the 64-bit
    range, [get_playback_batch] for that directory and [f] reports the
    percent just saved under [f], while [get_playback_batch_status] for the
    same directory and [f] reports what [get_playback_status] returned for
    the bare name [f] before the call (the empty text for [None]): the first
    looks the record up under the joined path, the second under the file
    name as given. *)
Theorem batch_readers_keys db directory f p d pc pre suf :
  reachable db →
  playback_current db →
  contains "/" f = false →
  int64 p = true → int64 d = true → int64 pc = true →
  let db' := (save_playback (directory +:+ "/" +:+ f) p d pc pre suf db).2 in
  ∃ percents statuses status,
    get_playback_batch directory [f] db' = (Ok percents, db')
    ∧ percents !! f = Some (VInt pc)
    ∧ get_playback_batch_status directory [f] db' = (Ok statuses, db')
    ∧ get_playback_status f db = (Ok status, db)
    ∧ statuses !! f = Some (if truthy status then status else VText "").
Proof.
  intros Hreach (t & Ht & Hc) Hfree Hp Hd Hpc db'.
  apply reachable_store_ok in Hreach as Hok.
  destruct (proj1 Hok t Ht) as ([Hpk Hcols] & _ & _).
  assert (store_ok db') as Hok' by (by apply save_playback_store_ok).
  destruct (get_playback_batch_status_agrees db' directory [f] Hok')
    as (statuses & Hst & _ & Hval).
  destruct (Hval f) as (status & Hstatus & Hentry); [by left|].
  pose proof (save_playback_frame db (directory +:+ "/" +:+ f) p d pc pre suf f Hok)
    as (_ & _ & Hframe & _).
  { intros H. by apply (joined_path_neq directory f). }
  fold db' in Hframe. rewrite Hstatus in Hframe. cbn [fst] in Hframe.
  assert (get_playback_status f db = (Ok status, db)) as Hbefore.
  { destruct (db !! "playback") as [t0|] eqn:Ht0; [|done].
    injection Ht as <-.
    rewrite (get_playback_status_eq f db t0 Ht0 (conj Hpk Hcols)) in Hframe |- *.
    cbn [fst] in Hframe. by injection Hframe as <-. }
  unfold db' in *.
  rewrite (save_playback_current db _ _ _ _ _ _ t Ht Hc Hpk Hp Hd Hpc) in *.
  cbn [snd] in *. set (t' := Table _ _ _) in *.
  assert (<["playback" := t']> db !! "playback" = Some t') as Ht'
    by apply lookup_insert_eq.
  destruct (proj1 Hok' t' Ht') as (Hs' & _ & _).
  eexists _, statuses, status.
  split; [by apply (get_playback_batch_table directory [f] _ t')|].
  split; [|done].
  rewrite foldl_fill_lookup.
  rewrite (foldl_ins_lookup (λ r, basename (text_of (r !!! "filename")))).
  rewrite list_filter_filter.
  assert (filter (λ r : gmap string value,
                    basename (text_of (r !!! "filename")) = f
                    ∧ existsb (sql_eq (r !!! "filename"))
                        (VText <$> ((λ filename, directory +:+ "/" +:+ filename) <$> [f]))
                      = true) (tbl_rows t')
          = filter (λ r, r !!! "filename" = VText (directory +:+ "/" +:+ f))
              (tbl_rows t')) as ->.
  { apply list_filter_iff. intros r. rewrite existsb_sql_eq_text. split.
    - intros [_ (path & Hin & Hr)]. apply list_elem_of_singleton in Hin. by subst.
    - intros Hr. rewrite Hr. split; [by apply basename_join|].
      eexists. split; [|done]. by left. }
  unfold t'. cbn [tbl_rows]. rewrite Hpk.
  rewrite upsert_rows_filter; [|unfold new_row; simpl; by row_lookup|compute_done].
  destruct (filter _ (tbl_rows t)) as [|x l].
  - simpl. unfold new_row. simpl. by row_lookup.
  - rewrite fmap_last. destruct (last (x :: l)) as [r0|] eqn:El;
      [|by apply last_None in El].
    simpl. by row_lookup.
Qed.

Lemma batch_readers_keys_witness :
  let db := after [ Init_db; Save_playback "a.mkv" 40 100 40 None None ] ∅ in
  let db' := (save_playback ("/d" +:+ "/" +:+ "a.mkv") 95 100 95 None None db).2 in
  reachable db
  ∧ playback_current db
  ∧ contains "/" "a.mkv" = false
  ∧ int64 95 = true ∧ int64 100 = true
  ∧ ∃ percents statuses,
      get_playback_batch "/d" ["a.mkv"] db' = (Ok percents, db')
      ∧ percents !! "a.mkv" = Some (VInt 95)
      ∧ get_playback_batch_status "/d" ["a.mkv"] db' = (Ok statuses, db')
      ∧ statuses !! "a.mkv" = Some (VText "partial").
Proof.
  intros db db'. assert (reachable db) as Hr by apply reachable_after.
  assert (playback_current db) as Hc.
  { eexists. split; vm_compute; reflexivity. }
  assert (contains "/" "a.mkv" = false) as Hfree by reflexivity.
  assert ((get_playback_status "a.mkv" db).1 = Ok (VText "partial")) as Hv
    by (vm_compute; reflexivity).
  split; [exact Hr|]. split; [exact Hc|]. split; [exact Hfree|].
  do 2 (split; [reflexivity|]).
  destruct (batch_readers_keys db "/d" "a.mkv" 95 100 95 None None
              Hr Hc Hfree eq_refl eq_refl eq_refl)
    as (percents & statuses & status & Hp & Hpv & Hs & Hst & Hsv).
  exists percents, statuses. split; [exact Hp|]. split; [exact Hpv|].
  split; [exact Hs|]. rewrite Hst in Hv. cbn [fst] in Hv. injection Hv as ->.
  exact Hsv.
Defined.

(** ** X16: [set_outro_marker] works on the column of version 1.0.0 *)

Lemma series_settings_has_columns_outro t cs :
  series_settings_ok t →
  has_column t "outro_start" = true →
  forallb (λ c, bool_decide
                  (c ∈ ["series_prefix"; "series_suffix"; "autoplay"; "skip_intro";
                        "skip_outro"; "intro_start"; "intro_end"; "description";
                        "outro_start"]))
          cs = true →
  has_columns t cs = true.
Proof.
  intros Hok Hcd Hsub. unfold has_columns. apply forallb_forall. intros c Hin.
  rewrite forallb_forall in Hsub. apply Hsub, bool_decide_eq_true in Hin.
  destruct (decide (c = "outro_start")) as [->|Hne]; [done|].
  pose proof (series_settings_has_columns t [c] Hok) as H.
  unfold has_columns in H. simpl in H. rewrite !andb_true_r in H. apply H.
  apply bool_decide_eq_true.
  repeat (apply elem_of_cons in Hin as [->|Hin]; [compute_done || done|]).
  by apply elem_of_nil in Hin.
Qed.

Lemma RELIS_get_series_settings_eq p s db t :
  db !! "series_settings" = Some t →
  series_settings_ok t →
  has_column t "outro_start" = true →
  RELIS_get_series_settings p s db
  = (Ok ((λ r, (r !!! "autoplay", r !!! "skip_intro", r !!! "skip_outro",
                coalesce (r !!! "intro_start") (VText ""),
                coalesce (r !!! "intro_end") (VText ""),
                coalesce (r !!! "outro_start") (VText "")))
           <$> head (filter (is_key p s) (tbl_rows t))), db).
Proof.
  intros Ht Hok Hcd. unfold RELIS_get_series_settings, try_except, mbind, Sql_bind.
  rewrite (select_settings_by_key _ p s db t Ht Hok).
  rewrite (series_settings_has_columns_outro t _ Hok Hcd) by done.
  unfold fetchone. by destruct (head _).
Qed.

(** X16: a negative start is refused: [set_outro_marker] returns False and
    leaves the store as it was.  On a reachable store, it returns False and
    changes nothing when the [series_settings] table has no column
    [outro_start] (the table that [init_db] of 1.2.0 creates); when the table
    has it (a store of 1.0.0, migrated or not) and the start is >= 0 and in
    the 64-bit range, it succeeds, and
    [get_series_settings] of 1.0.0 then returns the start as outro marker,
    with the flags and the intro markers as before for a series that had a
    row, and 0, 0, 0 and no intro markers for a row created by this call. *)
Theorem set_outro_marker_spec db p s start :
  reachable db →
  ((start < 0)%Z → set_outro_marker p s start db = (Ok false, db))
  ∧ ((∀ t, db !! "series_settings" = Some t → has_column t "outro_start" = false) →
     set_outro_marker p s start db = (Ok false, db))
  ∧ ((0 ≤ start)%Z →
     int64 start = true →
     (∃ t, db !! "series_settings" = Some t ∧ has_column t "outro_start" = true) →
     let db' := (set_outro_marker p s start db).2 in
     (set_outro_marker p s start db).1 = Ok true
     ∧ ∃ o, RELIS_get_series_settings p s db = (Ok o, db)
            ∧ RELIS_get_series_settings p s db'
              = (Ok (Some match o with
                          | Some (a, si, so, i_s, i_e, _) =>
                              (a, si, so, i_s, i_e, VInt start)
                          | None =>
                              (VInt 0, VInt 0, VInt 0, VText "", VText "", VInt start)
                          end), db')).
Proof.
  intros Hreach. split; [|split].
  { intros Hneg. unfold set_outro_marker. by destruct (Z.ltb_spec start 0); [|lia]. }
  { apply set_outro_marker_without_outro_start. }
  intros Hpos Hstart (t & Ht & Hcd) db'. apply reachable_store_ok in Hreach as [_ Hok].
  specialize (Hok t Ht).
  destruct (settings_setter_eq p s
              [ ("series_prefix", VText p); ("series_suffix", VText s);
                ("autoplay", VInt 0); ("skip_intro", VInt 0);
                ("skip_outro", VInt 0); ("outro_start", VInt start) ]
              [ ("outro_start", VInt start) ] db t Ht Hok)
    as (rows' & Heq & Hown & _).
  { by apply series_settings_has_columns_outro. }
  { by apply series_settings_has_columns_outro. }
  { bindable. }
  { bindable. }
  { split; unfold new_row; simpl; by row_lookup. }
  { compute_done. }
  { compute_done. }
  assert (set_outro_marker p s start db
          = (Ok true, <["series_settings" := Table (tbl_columns t) (tbl_pkey t) rows']> db))
    as Hcall.
  { unfold set_outro_marker. destruct (Z.ltb_spec start 0); [lia|]. exact Heq. }
  unfold db'. rewrite Hcall. cbn [fst snd]. split; [done|].
  set (t' := Table _ _ _).
  assert (<["series_settings" := t']> db !! "series_settings" = Some t') as Ht'
    by apply lookup_insert_eq.
  assert (series_settings_ok t') as Hok' by exact Hok.
  assert (has_column t' "outro_start" = true) as Hcd' by exact Hcd.
  rewrite (RELIS_get_series_settings_eq p s _ t' Ht' Hok' Hcd'),
    (RELIS_get_series_settings_eq p s _ t Ht Hok Hcd).
  change (tbl_rows t') with rows'. rewrite Hown.
  eexists. split; [done|].
  destruct (filter _ (tbl_rows t)) as [|r0 l]; simpl; [|by row_lookup].
  unfold new_row. simpl. row_lookup.
  by rewrite !(series_settings_default_row t) by (done || compute_done).
Qed.

Lemma set_outro_marker_spec_witness :
  reachable upgraded_db
  ∧ (-1 < 0)%Z
  ∧ set_outro_marker "Show" "S01" (-1) upgraded_db = (Ok false, upgraded_db)
  ∧ (∀ t, fresh_db !! "series_settings" = Some t → has_column t "outro_start" = false)
  ∧ set_outro_marker "Show" "S01" 3300 fresh_db = (Ok false, fresh_db)
  ∧ (0 ≤ 3300)%Z
  ∧ int64 3300 = true
  ∧ (∃ t, upgraded_db !! "series_settings" = Some t
          ∧ has_column t "outro_start" = true)
  ∧ (set_outro_marker "Show" "S01" 3300 upgraded_db).1 = Ok true
  ∧ (RELIS_get_series_settings "Show" "S01"
       (set_outro_marker "Show" "S01" 3300 upgraded_db).2).1
    = Ok (Some (VInt 0, VInt 0, VInt 0, VText "", VText "", VInt 3300)).
Proof.
  assert (reachable upgraded_db) as Hr
    by apply (reachable_after [ RELIS_init_db; Init_db ]).
  assert (-1 < 0)%Z as Hneg by lia. assert (0 ≤ 3300)%Z as Hpos by lia.
  assert (∀ t, fresh_db !! "series_settings" = Some t
               → has_column t "outro_start" = false) as Hnone.
  { intros t Ht.
    assert ((λ t, has_column t "outro_start") <$> fresh_db !! "series_settings"
            = Some false) as Hcol by (vm_compute; reflexivity).
    rewrite Ht in Hcol. by injection Hcol. }
  assert (∃ t, upgraded_db !! "series_settings" = Some t
               ∧ has_column t "outro_start" = true) as Hc.
  { eexists. split; vm_compute; reflexivity. }
  assert ((RELIS_get_series_settings "Show" "S01" upgraded_db).1 = Ok None) as Hv
    by (vm_compute; reflexivity).
  split; [exact Hr|]. split; [exact Hneg|].
  split; [exact (proj1 (set_outro_marker_spec upgraded_db "Show" "S01" (-1) Hr) Hneg)|].
  split; [exact Hnone|].
  split; [exact (proj1 (proj2 (set_outro_marker_spec fresh_db "Show" "S01" 3300
                                 reachable_fresh_db)) Hnone)|].
  split; [exact Hpos|]. split; [reflexivity|]. split; [exact Hc|].
  destruct (proj2 (proj2 (set_outro_marker_spec upgraded_db "Show" "S01" 3300 Hr))
              Hpos eq_refl Hc) as (Hres & o & Ho & Ho').
  split; [exact Hres|]. rewrite Ho'. rewrite Ho in Hv. cbn [fst] in Hv.
  injection Hv as ->. reflexivity.
Defined.

(** ** The command line *)

(** X17: on every reachable store whose [playback] table has the columns of
    1.2.0, after [save_playback] with a position, a duration and a percent in
    the 64-bit range, the command [get_playback] for the same file prints one
    line, position|duration|percent|prefix|suffix with the three
    numbers in decimal and the empty text for an absent prefix or suffix, and
    exits with 0; further arguments are ignored.  Without an argument the
    command prints nothing and exits with 1. *)
Theorem cli_get_playback_after_save db f p d pc pre suf rest :
  reachable db →
  playback_current db →
  int64 p = true → int64 d = true → int64 pc = true →
  let db' := (save_playback f p d pc pre suf db).2 in
  cli_get_playback (f :: rest) db'
  = (Ok ([pretty p +:+ "|" +:+ pretty d +:+ "|" +:+ pretty pc +:+ "|"
          +:+ default "" pre +:+ "|" +:+ default "" suf], 0%Z), db')
  ∧ cli_get_playback [] db' = (Ok ([], 1%Z), db').
Proof.
  intros Hreach (t & Ht & Hc) Hp Hd Hpc db'. split; [|done].
  apply reachable_store_ok in Hreach as Hok.
  destruct (proj1 Hok t Ht) as ([Hpk Hcols] & _ & _).
  assert (store_ok db') as Hok' by (by apply save_playback_store_ok).
  unfold db' in *.
  rewrite (save_playback_current db _ _ _ _ _ _ t Ht Hc Hpk Hp Hd Hpc) in *.
  cbn [snd] in *. set (t' := Table _ _ _) in *.
  assert (<["playback" := t']> db !! "playback" = Some t') as Ht'
    by apply lookup_insert_eq.
  destruct (proj1 Hok' t' Ht') as (Hs' & _ & _).
  unfold cli_get_playback, mbind, Sql_bind.
  rewrite (get_playback_eq f _ t' Ht' Hs').
  unfold t'. cbn [tbl_rows]. rewrite Hpk.
  rewrite upsert_rows_filter;
    [|unfold new_row; simpl; by row_lookup|compute_done].
  destruct (filter _ (tbl_rows t)) as [|r0 l];
    cbn [head fmap option_fmap option_map list_fmap].
  - unfold new_row. simpl. row_lookup. by destruct pre, suf.
  - simpl. row_lookup. by destruct pre, suf.
Qed.

Lemma cli_get_playback_after_save_witness :
  reachable fresh_db
  ∧ playback_current fresh_db
  ∧ int64 120 = true ∧ int64 3600 = true ∧ int64 3 = true
  ∧ (cli_get_playback ["video.mkv"]
       (save_playback "video.mkv" 120 3600 3 (Some "Show.S01") (Some "1080p.mkv")
          fresh_db).2).1
    = Ok (["120|3600|3|Show.S01|1080p.mkv"], 0%Z).
Proof.
  assert (playback_current fresh_db) as Hc.
  { exists (Table playback_columns ["filename"] []). split; vm_compute; reflexivity. }
  split; [exact reachable_fresh_db|]. split; [exact Hc|].
  do 3 (split; [reflexivity|]).
  rewrite (proj1 (cli_get_playback_after_save fresh_db "video.mkv" 120 3600 3
                    (Some "Show.S01") (Some "1080p.mkv") [] reachable_fresh_db Hc
                    eq_refl eq_refl eq_refl)).
  vm_compute. reflexivity.
Defined.

(** X18: on every reachable store, the command [get_percent] with a file name
    prints exactly one line and exits with 0, and the store is as before.
    The line is 0 when no record is stored under the file name; for a record
    stored under it, the line is the percent of the record in decimal, or
    the word None when the record has no percent. *)
Theorem cli_get_playback_percent_line db f rest :
  reachable db →
  ∃ line,
    cli_get_playback_percent (f :: rest) db = (Ok ([line], 0%Z), db)
    ∧ ((∀ r, r ∈ playback_rows db → r !!! "filename" ≠ VText f) → line = "0")
    ∧ (∀ r, r ∈ playback_rows db → r !!! "filename" = VText f →
         (∃ n, r !!! "percent" = VInt n ∧ line = pretty n)
         ∨ (r !!! "percent" = VNull ∧ line = "None")).
Proof.
  intros Hreach. apply reachable_store_ok in Hreach as [Hok _].
  unfold cli_get_playback_percent, mbind, Sql_bind, playback_rows.
  destruct (db !! "playback") as [t|] eqn:Ht.
  - destruct (Hok t eq_refl) as (Hs & Hnd & Hrows).
    rewrite (get_playback_percent_eq f db t Ht Hs).
    eexists. split; [done|]. split.
    + intros Hnone. by rewrite filter_none.
    + intros r Hin Hf.
      pose proof (filter_at_most_one (λ r : gmap string value, r !!! "filename")
                    (VText f) (tbl_rows t) Hnd) as Hone.
      cbv beta in Hone.
      assert (r ∈ filter (λ r, r !!! "filename" = VText f) (tbl_rows t)) as Hrf
        by (by apply list_elem_of_filter).
      destruct (filter (λ r, r !!! "filename" = VText f) (tbl_rows t))
        as [|r0 [|r1 l]]; [by apply elem_of_nil in Hrf| |simpl in Hone; lia].
      apply list_elem_of_singleton in Hrf as ->. simpl.
      rewrite Forall_forall in Hrows.
      destruct (Hrows r0 Hin) as [_ [[n Hn]|[Hn _]]]; rewrite Hn; simpl;
        [left; by exists n|by right].
  - exists "0". split; [|split; [done|by intros r ?%elem_of_nil]].
    unfold get_playback_percent, try_except, mbind, Sql_bind, select_where.
    by rewrite Ht.
Qed.

Lemma cli_get_playback_percent_line_witness :
  let db := after [ Init_db; Save_playback "a.mkv" 50 100 50 None None;
                    Set_outro_triggered "b.mkv" 1 ] ∅ in
  reachable db
  ∧ (cli_get_playback_percent ["a.mkv"] db).1 = Ok (["50"], 0%Z)
  ∧ (cli_get_playback_percent ["b.mkv"] db).1 = Ok (["None"], 0%Z)
  ∧ (cli_get_playback_percent ["c.mkv"] db).1 = Ok (["0"], 0%Z).
Proof.
  intros db. assert (reachable db) as Hr by apply reachable_after.
  assert (Exists (λ r, r !!! "filename" = VText "a.mkv" ∧ r !!! "percent" = VInt 50)
                 (playback_rows db)) as (ra & Hina & Hfa & Hpa)%Exists_exists
    by compute_done.
  assert (Exists (λ r, r !!! "filename" = VText "b.mkv" ∧ r !!! "percent" = VNull)
                 (playback_rows db)) as (rb & Hinb & Hfb & Hpb)%Exists_exists
    by compute_done.
  assert (Forall (λ r, r !!! "filename" ≠ VText "c.mkv") (playback_rows db)) as Hc
    by compute_done.
  split; [exact Hr|].
  destruct (cli_get_playback_percent_line db "a.mkv" [] Hr) as (la & Ha & _ & Hrowa).
  destruct (cli_get_playback_percent_line db "b.mkv" [] Hr) as (lb & Hb & _ & Hrowb).
  destruct (cli_get_playback_percent_line db "c.mkv" [] Hr) as (lc & Hcc & Hnone & _).
  rewrite Ha, Hb, Hcc. cbn [fst]. split; [|split].
  - destruct (Hrowa ra Hina Hfa) as [(n & Hn & ->)|[Hn _]];
      rewrite Hpa in Hn; [|discriminate Hn].
    by injection Hn as <-.
  - destruct (Hrowb rb Hinb Hfb) as [(n & Hn & _)|[_ ->]];
      [rewrite Hpb in Hn; discriminate Hn|reflexivity].
  - rewrite Hnone; [reflexivity|]. by apply Forall_forall.
Defined.

(** X19: on every store that the calls of version 1.2.0 alone have produced
    from an empty database file, the command [get_status] with a file name
    prints exactly one line and exits with 0: watched when the percent that
    [get_playback_percent] returns is 90 or more, partial when it is between
    1 and 89, and the empty line otherwise. *)
Theorem cli_get_playback_status_line calls f rest :
  Forall (λ c, is_current c = true) calls →
  let db := after calls ∅ in
  ∃ percent,
    get_playback_percent f db = (Ok percent, db)
    ∧ cli_get_playback_status (f :: rest) db
      = (Ok ([match percent with
              | VInt pc => default "" (_calculate_status pc)
              | _ => ""
              end], 0%Z), db).
Proof.
  intros Hall db.
  assert (∃ percent,
            get_playback_percent f db = (Ok percent, db)
            ∧ get_playback_status f db = (Ok (status_of_percent percent), db))
    as (percent & Hp & Hs).
  { destruct (db !! "playback") as [t|] eqn:Ht.
    - destruct (current_calls_status calls t Hall Ht) as (Hs & Hc & Hrows).
      rewrite (get_playback_percent_eq f db t Ht Hs),
        (get_playback_status_eq f db t Ht Hs).
      rewrite (has_column_eq t _ _ Hc). change (bool_decide _) with true. cbv iota.
      eexists. split; [done|]. do 2 f_equal.
      destruct (filter _ (tbl_rows t)) as [|r l] eqn:E; [done|]. simpl.
      assert (r ∈ filter (λ r, r !!! "filename" = VText f) (tbl_rows t)) as Hr
        by (rewrite E; left).
      apply list_elem_of_filter in Hr as [_ Hr]. rewrite Forall_forall in Hrows.
      by apply Hrows.
    - exists (VInt 0). split.
      + unfold get_playback_percent, try_except, mbind, Sql_bind, select_where.
        by rewrite Ht.
      + by rewrite get_playback_status_no_table. }
  exists percent. split; [done|].
  unfold cli_get_playback_status, mbind, Sql_bind. rewrite Hs.
  unfold mret, Sql_ret. do 3 f_equal.
  destruct percent as [|pc|]; try done. unfold status_of_percent, _calculate_status.
  by repeat case_match.
Qed.

Lemma cli_get_playback_status_line_witness :
  let calls := [ Init_db; Save_playback "a.mkv" 95 100 95 None None ] in
  Forall (λ c, is_current c = true) calls
  ∧ ∃ percent,
      get_playback_percent "a.mkv" (after calls ∅) = (Ok percent, after calls ∅)
      ∧ cli_get_playback_status ["a.mkv"] (after calls ∅)
        = (Ok ([match percent with
                | VInt pc => default "" (_calculate_status pc)
                | _ => ""
                end], 0%Z), after calls ∅).
Proof.
  intros calls.
  assert (Forall (λ c, is_current c = true) calls) as Hall by (repeat constructor).
  split; [exact Hall|]. exact (cli_get_playback_status_line calls "a.mkv" [] Hall).
Defined.

(** X20: on every reachable store, the command [get-outro-triggered] with a
    file name prints one integer in decimal and exits with 0. *)
Theorem cli_get_outro_triggered_line db f rest :
  reachable db →
  ∃ n : Z, cli_get_outro_triggered (f :: rest) db = (Ok ([pretty n], 0%Z), db).
Proof.
  intros Hreach. destruct (get_outro_triggered_int db f Hreach) as [n Hn].
  exists n. unfold cli_get_outro_triggered, mbind, Sql_bind. by rewrite Hn.
Qed.

Lemma cli_get_outro_triggered_line_witness :
  let db := after [ Init_db; Set_outro_triggered "a.mkv" 1 ] ∅ in
  reachable db
  ∧ ∃ n : Z, cli_get_outro_triggered ["a.mkv"] db = (Ok ([pretty n], 0%Z), db).
Proof.
  intros db. assert (reachable db) as Hr by apply reachable_after.
  split; [exact Hr|]. exact (cli_get_outro_triggered_line db "a.mkv" [] Hr).
Defined.

(** X21: the command [get-credits-duration] with fewer than two arguments
    prints nothing and exits with 1.  On every reachable store whose
    [series_settings] table has the column [credits_duration], after
    [set_credits_duration] with a duration >= 0 in the 64-bit range it prints
    the duration in decimal and exits with 0; after [set_intro_markers] alone for a series
    that had no row it prints nothing and exits with 1. *)
Theorem cli_get_credits_duration_spec db p s rest :
  reachable db →
  cli_get_credits_duration [] db = (Ok ([], 1%Z), db)
  ∧ cli_get_credits_duration [p] db = (Ok ([], 1%Z), db)
  ∧ ((∃ t, db !! "series_settings" = Some t ∧ has_column t "credits_duration" = true) →
     (∀ d, (0 ≤ d)%Z → int64 d = true →
        (cli_get_credits_duration (p :: s :: rest) (set_credits_duration p s d db).2).1
        = Ok ([pretty d], 0%Z))
     ∧ (∀ start end_, (0 ≤ start < end_)%Z →
          (series_settings_exist p s db).1 = Ok false →
          (cli_get_credits_duration (p :: s :: rest)
             (set_intro_markers p s start end_ db).2).1
          = Ok ([], 1%Z))).
Proof.
  intros Hreach. split; [done|]. split; [done|].
  intros (t & Ht & Hcd). apply reachable_store_ok in Hreach as Hok. split.
  - intros d Hpos Hd.
    destruct (set_credits_duration_markers db p s d t Hok Hpos Hd Ht Hcd)
      as (_ & (t' & Ht' & Hcd') & o & _ & Hm).
    set (db' := (set_credits_duration p s d db).2) in *.
    assert (store_ok db') as Hok'
      by apply (perform_store_ok (Set_credits_duration _ _ _) _ Hok).
    pose proof (proj2 Hok' t' Ht') as Hs'.
    rewrite (get_skip_markers_eq p s db' t' Ht' Hs' Hcd') in Hm.
    unfold cli_get_credits_duration, mbind, Sql_bind.
    rewrite (get_credits_duration_eq p s db' t' Ht' Hs' Hcd').
    destruct (head _) as [r|]; [|done]. simpl in *.
    injection Hm as _ _ ->. done.
  - intros start end_ Hgood Hnone.
    destruct (int64 end_) eqn:Hend.
    2:{ rewrite (set_intro_markers_overflow p s start end_ db t Hgood Ht (proj2 Hok t Ht))
          by done.
        cbn [snd]. pose proof (proj2 Hok t Ht) as Hs.
        rewrite (series_settings_exist_eq p s db t Ht Hs) in Hnone.
        unfold cli_get_credits_duration, mbind, Sql_bind.
        rewrite (get_credits_duration_eq p s db t Ht Hs Hcd).
        by destruct (filter (is_key p s) (tbl_rows t)). }
    destruct (set_intro_markers_markers db p s start end_ t Hok Hgood Hend Ht Hcd)
      as (_ & (t' & Ht' & Hcd') & o & Ho & Hm).
    set (db' := (set_intro_markers p s start end_ db).2) in *.
    assert (store_ok db') as Hok'
      by apply (perform_store_ok (Set_intro_markers _ _ _ _) _ Hok).
    pose proof (proj2 Hok' t' Ht') as Hs'. pose proof (proj2 Hok t Ht) as Hs.
    rewrite (get_skip_markers_eq p s db' t' Ht' Hs' Hcd') in Hm.
    rewrite (get_skip_markers_eq p s db t Ht Hs Hcd) in Ho.
    rewrite (series_settings_exist_eq p s db t Ht Hs) in Hnone.
    unfold cli_get_credits_duration, mbind, Sql_bind.
    rewrite (get_credits_duration_eq p s db' t' Ht' Hs' Hcd').
    destruct (filter (is_key p s) (tbl_rows t)) as [|r0 l]; [|done].
    simpl in Ho. injection Ho as <-.
    destruct (head _) as [r|]; [|done]. simpl in *.
    injection Hm as _ _ ->. done.
Qed.

Lemma cli_get_credits_duration_spec_witness :
  reachable fresh_db
  ∧ (∃ t, fresh_db !! "series_settings" = Some t
          ∧ has_column t "credits_duration" = true)
  ∧ (0 ≤ 120)%Z
  ∧ int64 120 = true
  ∧ (cli_get_credits_duration ["Show"; "S01"]
       (set_credits_duration "Show" "S01" 120 fresh_db).2).1
    = Ok (["120"], 0%Z)
  ∧ (0 ≤ 30 < 90)%Z
  ∧ (series_settings_exist "Show" "S01" fresh_db).1 = Ok false
  ∧ (cli_get_credits_duration ["Show"; "S01"]
       (set_intro_markers "Show" "S01" 30 90 fresh_db).2).1
    = Ok ([], 1%Z).
Proof.
  assert (∃ t, fresh_db !! "series_settings" = Some t
               ∧ has_column t "credits_duration" = true) as Hc.
  { eexists. split; vm_compute; reflexivity. }
  assert (0 ≤ 120)%Z as Hpos by lia. assert (0 ≤ 30 < 90)%Z as Hgood by lia.
  assert ((series_settings_exist "Show" "S01" fresh_db).1 = Ok false) as Hnone
    by (vm_compute; reflexivity).
  destruct (cli_get_credits_duration_spec fresh_db "Show" "S01" [] reachable_fresh_db)
    as (_ & _ & H).
  destruct (H Hc) as [Hset Hintro].
  split; [exact reachable_fresh_db|]. split; [exact Hc|]. split; [exact Hpos|].
  split; [reflexivity|].
  split; [exact (Hset 120%Z Hpos eq_refl)|]. split; [exact Hgood|]. split; [exact Hnone|].
  exact (Hintro 30%Z 90%Z Hgood Hnone).
Defined.

(** ** X22: an integer that SQLite cannot hold *)

Lemma forallb_bindable_false v vs :
  v ∈ vs → bindable v = false → forallb bindable vs = false.
Proof.
  intros Hin Hv. apply not_true_iff_false. intros Hall.
  rewrite forallb_forall in Hall. rewrite (Hall v) in Hv; [done|].
  by apply list_elem_of_In.
Qed.

Lemma set_credits_duration_overflow p s d db t :
  (0 ≤ d)%Z →
  db !! "series_settings" = Some t →
  series_settings_ok t →
  has_column t "credits_duration" = true →
  int64 d = false →
  set_credits_duration p s d db = (Raise OverflowError, db).
Proof.
  intros Hpos Ht Hok Hcd Hd. unfold set_credits_duration.
  destruct (Z.ltb_spec d 0); [lia|].
  unfold try_except at 1, mbind at 1, Sql_bind at 1.
  destruct (series_settings_exist_total p s db) as [b ->].
  destruct (negb b);
    unfold try_except, insert_into, update_set_where, mbind, Sql_bind;
    rewrite Ht.
  - rewrite (series_settings_has_columns_credits t _ Hok Hcd) by done.
    cbn [fmap list_fmap snd forallb bindable]. rewrite Hd.
    by rewrite !andb_false_r.
  - rewrite !(series_settings_has_columns_credits t _ Hok Hcd) by done.
    cbn [fmap list_fmap snd app forallb bindable]. by rewrite Hd.
Qed.

(** X22: a writer that is given an integer outside the signed 64-bit range
    raises [OverflowError] instead of returning True or False, and leaves the
    store as it was.  On every reachable store: [save_playback] when the
    [playback] table has the columns of 1.2.0 and the position, the duration
    or the percent is out of range; [set_outro_triggered] when the table has
    the column [outro_triggered] and the flag is out of range;
    [set_credits_duration] when the [series_settings] table has the column
    [credits_duration] and the duration is 2^63 or more; [set_intro_markers]
    when that table exists, 0 <= start < end and the end is 2^63 or more. *)
Theorem writers_raise_overflow db :
  reachable db →
  (playback_current db →
   ∀ f p d pc pre suf,
     int64 p && int64 d && int64 pc = false →
     save_playback f p d pc pre suf db = (Raise OverflowError, db))
  ∧ ((∃ t, db !! "playback" = Some t ∧ has_column t "outro_triggered" = true) →
     ∀ f tr,
       int64 tr = false →
       set_outro_triggered f tr db = (Raise OverflowError, db))
  ∧ ((∃ t, db !! "series_settings" = Some t ∧ has_column t "credits_duration" = true) →
     ∀ p s d,
       (2 ^ 63 ≤ d)%Z →
       set_credits_duration p s d db = (Raise OverflowError, db))
  ∧ ((∃ t, db !! "series_settings" = Some t) →
     ∀ p s start end_,
       (0 ≤ start < end_)%Z → (2 ^ 63 ≤ end_)%Z →
       set_intro_markers p s start end_ db = (Raise OverflowError, db)).
Proof.
  intros Hreach. apply reachable_store_ok in Hreach as Hok.
  split; [|split; [|split]].
  - intros (t & Ht & Hc) f p d pc pre suf Hbig.
    destruct (proj1 Hok t Ht) as ([Hpk _] & _ & _).
    unfold save_playback. rewrite upsert_call_eq, Ht.
    assert (forallb bindable
              ([ ("filename", VText f); ("position", VInt p);
                 ("duration", VInt d); ("percent", VInt pc);
                 ("status", opt_text (_calculate_status pc));
                 ("series_prefix", opt_text pre);
                 ("series_suffix", opt_text suf) ].*2
               ++ [ ("position", VInt p); ("duration", VInt d); ("percent", VInt pc);
                    ("status", opt_text (_calculate_status pc));
                    ("series_prefix", opt_text pre);
                    ("series_suffix", opt_text suf) ].*2) = false) as ->.
    { cbn [fmap list_fmap app snd forallb bindable].
      destruct (int64 p), (int64 d), (int64 pc); try discriminate Hbig;
        by rewrite ?andb_false_r. }
    unfold has_columns, has_column, column_names. by rewrite Hc, Hpk.
  - intros (t & Ht & Hcol) f tr Hbig.
    destruct (proj1 Hok t Ht) as (Hs & _ & _).
    by rewrite (set_outro_triggered_eq db f tr t Ht Hs), Hcol, Hbig.
  - intros (t & Ht & Hcd) p s d Hbig.
    apply (set_credits_duration_overflow p s d db t); [lia|done|by apply Hok|done|].
    apply not_true_iff_false. rewrite int64_spec. lia.
  - intros (t & Ht) p s start end_ Hgood Hbig.
    apply (set_intro_markers_overflow p s start end_ db t); [done|done|by apply Hok|].
    apply not_true_iff_false. rewrite int64_spec. lia.
Qed.

Lemma writers_raise_overflow_witness :
  reachable fresh_db
  ∧ playback_current fresh_db
  ∧ int64 10 && int64 100 && int64 (2 ^ 63) = false
  ∧ save_playback "a.mkv" 10 100 (2 ^ 63) None None fresh_db
    = (Raise OverflowError, fresh_db)
  ∧ int64 (- 2 ^ 63 - 1) = false
  ∧ set_outro_triggered "a.mkv" (- 2 ^ 63 - 1) fresh_db = (Raise OverflowError, fresh_db)
  ∧ set_credits_duration "Show" "S01" (2 ^ 63) fresh_db = (Raise OverflowError, fresh_db)
  ∧ set_intro_markers "Show" "S01" 30 (2 ^ 63) fresh_db = (Raise OverflowError, fresh_db)
  ∧ (save_playback "a.mkv" 10 100 (2 ^ 63 - 1) None None fresh_db).1 = Ok true
  ∧ (set_outro_triggered "a.mkv" (- 2 ^ 63) fresh_db).1 = Ok true.
Proof.
  assert (playback_current fresh_db) as Hc.
  { exists (Table playback_columns ["filename"] []). split; vm_compute; reflexivity. }
  assert (∃ t, fresh_db !! "playback" = Some t ∧ has_column t "outro_triggered" = true)
    as Hflag by (eexists; split; vm_compute; reflexivity).
  assert (∃ t, fresh_db !! "series_settings" = Some t
               ∧ has_column t "credits_duration" = true)
    as Hcd by (eexists; split; vm_compute; reflexivity).
  assert (∃ t, fresh_db !! "series_settings" = Some t) as Ht
    by (destruct Hcd as (t & Ht & _); by exists t).
  destruct (writers_raise_overflow fresh_db reachable_fresh_db) as (H1 & H2 & H3 & H4).
  split; [exact reachable_fresh_db|]. split; [exact Hc|]. split; [reflexivity|].
  split; [exact (H1 Hc "a.mkv" 10%Z 100%Z (2 ^ 63)%Z None None eq_refl)|].
  split; [reflexivity|].
  split; [exact (H2 Hflag "a.mkv" (- 2 ^ 63 - 1)%Z eq_refl)|].
  split; [apply (H3 Hcd); lia|].
  split; [apply (H4 Ht); lia|].
  split; vm_compute; reflexivity.
Defined.
